(** * SpectraTray: the spectral level engine of [app.py]

    A shallow embedding of the numeric core of the tray spectrum meter:
    [clamp], [build_band_bins] and the per-frame body of
    [TraySpectrumMeter._worker] (noise learning, band statistic, denoiser,
    peak tracker, normaliser and change detector).

    Number model.  Python floats and the numpy [float32]/[float64] arrays of
    the source are embedded as the real numbers [R], every arithmetic
    operation being exact.  Where rounding decides what the code does, the
    same code is embedded a second time with it: the peaks through the
    conversion to [float32] of the array that holds them
    ([band_step_stored]), the denoiser and the band plan over a binary64
    evaluation given by its rounding and its [pow] and [log10]
    ([denoise_fl], [build_band_bins_fl]); the definitions in [R] are their
    instances without rounding.  Python ints are [Z], list indices and FFT
    bin numbers are [nat].  The numpy and [math]
    routines the source calls ([rfftfreq], [logspace], [where], [max],
    [mean], [percentile], [median], [log10]) are embedded from their
    documented behaviour.  The audio pipeline in front of the embedded code
    (recording, channel mean, Hann window, [rfft], [abs]) is not embedded: a
    frame enters as its magnitude spectrum. *)

From Stdlib Require Import Reals Lra Lia ZArith String Bool Arith List.
From Stdlib Require Import Sorted Permutation.
Import ListNotations.

Open Scope R_scope.

(** ** Exceptions and the error monad *)

Inductive exn : Type :=
| ValueError
| ZeroDivisionError
| IndexError.

Inductive result (A : Type) : Type :=
| Ok (a : A)
| Raise (e : exn).

Arguments Ok {A} a.
Arguments Raise {A} e.

Definition bind {A B : Type} (m : result A) (f : A -> result B) : result B :=
  match m with
  | Ok a => f a
  | Raise e => Raise e
  end.

Notation "x <- m ;; k" := (bind m (fun x => k))
  (at level 61, m at next level, right associativity).

(** ** Python comparisons, [max], [clamp], [round], [int] *)

Class PyOrd (A : Type) := py_lt : A -> A -> bool.

Definition Rlt_b (x y : R) : bool := if Rlt_dec x y then true else false.
Definition Rle_b (x y : R) : bool := if Rle_dec x y then true else false.
Definition Req_b (x y : R) : bool := if Req_dec_T x y then true else false.

#[export] Instance PyOrd_R : PyOrd R := Rlt_b.
#[export] Instance PyOrd_Z : PyOrd Z := Z.ltb.

(** [clamp(x, a, b)]: [a if x < a else (b if x > b else x)]. *)
Definition clamp {A : Type} `{PyOrd A} (x a b : A) : A :=
  if py_lt x a then a else if py_lt b x then b else x.

(** The builtin [max(x, y)] keeps [x] unless [y > x]. *)
Definition py_max {A : Type} `{PyOrd A} (x y : A) : A :=
  if py_lt x y then y else x.

(** [round(x)] on a float: nearest integer, ties to the even one. *)
Definition py_round (x : R) : Z :=
  let f := Int_part x in
  let r := x - IZR f in
  if Rlt_dec r (1 / 2) then f
  else if Rlt_dec (1 / 2) r then (f + 1)%Z
  else if Z.even f then f else (f + 1)%Z.

(** [int(x)] on a float truncates towards zero. *)
Definition py_int (x : R) : Z :=
  if Rlt_dec x 0 then (- Int_part (- x))%Z else Int_part x.

(** Float division [x / y] raises on a zero divisor. *)
Definition py_div (x y : R) : result R :=
  if Req_dec_T y 0 then Raise ZeroDivisionError else Ok (x / y).

(** ** [math] and numpy routines *)

Module Numpy.

Definition log10 (x : R) : R := ln x / ln 10.

(** [10.0 ** x] *)
Definition pow10 (x : R) : R := Rpower 10 x.

(** [math.log10] raises [ValueError] outside its domain. *)
Definition math_log10 (x : R) : result R :=
  if Rlt_dec 0 x then Ok (log10 x) else Raise ValueError.

(** [l[a:b]] for non-negative [a], [b]. *)
Definition slice {A : Type} (l : list A) (a b : nat) : list A :=
  firstn (b - a) (skipn a l).

Definition Rsum (l : list R) : R := fold_right Rplus 0 l.

(** [np.max]; numpy raises [ValueError] on an empty array. *)
Definition np_max (l : list R) : result R :=
  match l with
  | [] => Raise ValueError
  | x :: xs => Ok (fold_left Rmax xs x)
  end.

Definition np_mean (l : list R) : R := Rsum l / INR (length l).

Fixpoint insert_sorted (x : R) (l : list R) : list R :=
  match l with
  | [] => [x]
  | y :: t => if Rle_dec x y then x :: l else y :: insert_sorted x t
  end.

(** [np.sort] *)
Definition np_sort (l : list R) : list R := fold_right insert_sorted [] l.

(** numpy's [_lerp(a, b, t)]. *)
Definition np_lerp (a b t : R) : R :=
  if Rle_dec (1 / 2) t then b - (b - a) * (1 - t) else a + (b - a) * t.

(** [np.percentile(l, q)] with the default method ([linear]): the virtual
    index [(n-1)*q/100] is split into its floor and fractional part and the
    two neighbouring order statistics are interpolated.  On an empty array
    numpy yields no number; the frame ends with an exception either way. *)
Definition np_percentile (l : list R) (q : R) : result R :=
  match l with
  | [] => Raise ValueError
  | _ :: _ =>
      let s := np_sort l in
      let n := length l in
      let virt := (INR n - 1) * (q / 100) in
      let prev := Z.to_nat (Int_part virt) in
      let next := Nat.min (prev + 1) (n - 1) in
      let gamma := virt - INR prev in
      Ok (np_lerp (nth prev s 0) (nth next s 0) gamma)
  end.

(** [np.median] of a one-dimensional array: the middle order statistic, or
    the mean of the two middle ones. *)
Definition np_median (l : list R) : R :=
  let s := np_sort l in
  let n := length l in
  let index := (n / 2)%nat in
  if Nat.even n
  then np_mean (slice s (index - 1) (index + 1))
  else np_mean (slice s index (index + 1)).

(** [np.median(np.array(buf), axis=0)] for rows of width [n]. *)
Definition np_median_axis0 (n : nat) (buf : list (list R)) : list R :=
  map (fun i => np_median (map (fun row => nth i row 0) buf)) (seq 0 n).

(** [np.fft.rfftfreq(n, d)]: [val = 1.0/(n*d)], [N = n//2 + 1],
    [arange(0, N) * val]. *)
Definition rfftfreq (n : Z) (d : R) : result (list R) :=
  val <- py_div 1 (IZR n * d) ;;
  let N := (n / 2 + 1)%Z in
  Ok (map (fun k => INR k * val) (seq 0 (Z.to_nat N))).

(** [np.linspace(start, stop, num)] *)
Definition np_linspace (start stop : R) (num : nat) : list R :=
  let step := (stop - start) / INR (num - 1) in
  map (fun i => start + INR i * step) (seq 0 num).

(** [np.logspace(start, stop, num)] is [10 ** linspace(start, stop, num)]. *)
Definition np_logspace (start stop : R) (num : nat) : list R :=
  map pow10 (np_linspace start stop num).

(** [np.where(cond)[0]]: the indices at which the condition holds. *)
Definition np_where (cond : R -> bool) (l : list R) : list nat :=
  filter (fun k => cond (nth k l 0)) (seq 0 (length l)).

End Numpy.

Import Numpy.

(** ** Band plan: [build_band_bins] *)

(** The body of the [for i in range(n_bands)] loop: the indices of the
    frequencies in [[lo, hi)], as a slice range, [(0, 0)] when there is
    none. *)
Definition band_range (freqs edges : list R) (i : nat) : nat * nat :=
  let lo := nth i edges 0 in
  let hi := nth (i + 1) edges 0 in
  let idx := np_where (fun f => Rle_b lo f && Rlt_b f hi) freqs in
  match idx with
  | [] => (0%nat, 0%nat)
  | first :: _ => (first, (last idx 0%nat + 1)%nat)
  end.

Definition build_band_bins (sr nfft : Z) (n_bands : nat) (fmin fmax : R)
  : result (list (nat * nat)) :=
  d <- py_div 1 (IZR sr) ;;
  freqs <- rfftfreq nfft d ;;
  lg_min <- math_log10 fmin ;;
  lg_max <- math_log10 fmax ;;
  let edges := np_logspace lg_min lg_max (n_bands + 1) in
  Ok (map (band_range freqs edges) (seq 0 n_bands)).

(** ** Configuration and state of [TraySpectrumMeter] *)

Record config : Type := {
  db_range : R;
  bg_mode : string;
  max_level : Z;
  band_stat : string;
  denoise_enabled : bool;
  denoise_alpha : R
}.

(** The values [__init__] sets. *)
Definition default_config (default_levels : Z) : config := {|
  db_range := 60;
  bg_mode := "black";
  max_level := default_levels;
  band_stat := "rms";
  denoise_enabled := false;
  denoise_alpha := 1.2
|}.

(** [self.peak_decay_db] and [self.denoise_gate_margin_db] are set once in
    [__init__] and never written again. *)
Definition peak_decay_db : R := 0.06.
Definition denoise_gate_margin_db : R := 0.

(** The part of [self] the worker shares with the menu callbacks. *)
Record meter : Type := {
  cfg : config;
  noise_band_db : option (list R);
  force_redraw : bool;
  learn_noise : bool
}.

(** The worker's local variables that live across frames. *)
Record locals : Type := {
  band_peak_db : list R;
  last_levels : option (list Z);
  last_db_range : option R;
  last_bg_mode : option string;
  last_stat_mode : option string
}.

(** What [make_spectrum_icon] is called with. *)
Record icon : Type := {
  icon_levels : list Z;
  icon_max_level : Z;
  icon_bg_mode : string
}.

Definition init_locals (n_bands : nat) : locals := {|
  band_peak_db := repeat (-30) n_bands;
  last_levels := None;
  last_db_range := None;
  last_bg_mode := None;
  last_stat_mode := None
|}.

(** ** Frame analyser: dB conversion and band statistic *)

(** [20.0 * np.log10(mag + 1e-8)] *)
Definition mag_to_db (mag : list R) : list R :=
  map (fun m => 20 * log10 (m + 1e-8)) mag.

(** The [if stat_mode == ...] chain on a band's slice.  An empty slice
    (possible only with a plan built for a longer spectrum) gives NaN in the
    [p90] and [rms] branches, which [round] then rejects with
    [ValueError]. *)
Definition band_statistic (stat_mode : string) (seg : list R) : result R :=
  if (stat_mode =? "max")%string then np_max seg
  else if (stat_mode =? "p90")%string then np_percentile seg 90
  else if (stat_mode =? "rms")%string then
    match seg with
    | [] => Raise ValueError
    | _ :: _ =>
        let amp := map (fun s => pow10 (s / 20)) seg in
        Ok (20 * log10 (sqrt (np_mean (map (fun x => x * x) amp)) + 1e-12))
    end
  else Raise ValueError.

(** ** Denoiser *)

Definition index {A : Type} (l : list A) (i : nat) : result A :=
  match nth_error l i with
  | Some x => Ok x
  | None => Raise IndexError
  end.

(** The [if self.get_denoise_enabled():] block for band [i]. *)
Definition denoise (enabled : bool) (nb : option (list R)) (alpha : R)
    (i : nat) (band_db : R) : result R :=
  if enabled then
    match nb with
    | None => Ok band_db
    | Some prof =>
        n <- index prof i ;;
        let P := pow10 (band_db / 10) in
        let N := pow10 (n / 10) in
        let Pclean := py_max (P - alpha * N) 1e-12 in
        lg <- math_log10 Pclean ;;
        let band_db := 10 * lg in
        if Rlt_b band_db (n + denoise_gate_margin_db)
        then Ok (-120)
        else Ok band_db
    end
  else Ok band_db.

(** The dB value of band [i]: empty bands skip statistic and denoiser. *)
Definition band_value (c : config) (nb : option (list R)) (mag_db : list R)
    (i : nat) (ab : nat * nat) : result R :=
  let '(a, b) := ab in
  if (b <=? a)%nat then Ok (-120)
  else
    s <- band_statistic (band_stat c) (slice mag_db a b) ;;
    denoise (denoise_enabled c) nb (denoise_alpha c) i s.

(** ** Peak tracker and normaliser *)

Fixpoint list_set {A : Type} (l : list A) (i : nat) (v : A) : list A :=
  match l, i with
  | [], _ => []
  | _ :: t, O => v :: t
  | x :: t, S j => x :: list_set t j v
  end.

(** [max(band_db, band_peak_db[i] - self.peak_decay_db)] *)
Definition peak_update (band_db peak : R) : R :=
  py_max band_db (peak - peak_decay_db).

(** From [floor = ...] to [clamp(lv, 0, max_level)]. *)
Definition normalize (band_db peak db_range : R) (max_level : Z) : result Z :=
  let floor := peak - db_range in
  t <- py_div (band_db - floor) db_range ;;
  let t := clamp t 0 1 in
  let lv := py_round (t * IZR max_level) in
  Ok (clamp lv 0%Z max_level).

(** One iteration of [for i, (a, b) in enumerate(bins)].  The peak is
    written to [band_peak_db[i]] and read back for the floor; with the
    exact numbers of this embedding the value read is the value written.
    [band_step_stored] below has the conversion to the array's
    [float32]. *)
Definition band_step (c : config) (nb : option (list R)) (mag_db : list R)
    (i : nat) (ab : nat * nat) (peaks : list R) : result (list R * Z) :=
  band_db <- band_value c nb mag_db i ab ;;
  old <- index peaks i ;;
  let peaks := list_set peaks i (peak_update band_db old) in
  peak <- index peaks i ;;
  lv <- normalize band_db peak (db_range c) (max_level c) ;;
  Ok (peaks, lv).

Fixpoint bands_loop (c : config) (nb : option (list R)) (mag_db : list R)
    (i : nat) (bins : list (nat * nat)) (peaks : list R) (levels : list Z)
  : result (list R * list Z) :=
  match bins with
  | [] => Ok (peaks, levels)
  | ab :: rest =>
      r <- band_step c nb mag_db i ab peaks ;;
      bands_loop c nb mag_db (S i) rest (fst r) (levels ++ [snd r])
  end.

(** ** Noise profile learner *)

(** What one pass of the calibration loop meets: the stop event set, an
    empty read, or a block (as its magnitude spectrum). *)
Inductive tick : Type :=
| Stopped
| Skipped
| Got (mag : list R).

(** [max(12, int(3 * sr / nfft))] *)
Definition learn_frames (sr nfft : Z) : result Z :=
  q <- py_div (IZR (3 * sr)) (IZR nfft) ;;
  Ok (py_max 12%Z (py_int q)).

Fixpoint mapM {A B : Type} (f : A -> result B) (l : list A) : result (list B) :=
  match l with
  | [] => Ok []
  | x :: t => y <- f x ;; ys <- mapM f t ;; Ok (y :: ys)
  end.

(** [band_db_list] of one calibration frame. *)
Definition learn_bands (bins : list (nat * nat)) (mag2_db : list R)
  : result (list R) :=
  mapM (fun ab : nat * nat =>
          let '(a, b) := ab in
          if (b <=? a)%nat then Ok (-120)
          else np_percentile (slice mag2_db a b) 90) bins.

(** [for _ in range(learn_frames)]: [rec] is the recorder's future, [pos]
    the number of reads already taken from it.  Returns [buf] and the new
    read position. *)
Fixpoint learn_loop (bins : list (nat * nat)) (n : nat) (rec : nat -> tick)
    (pos : nat) (buf : list (list R)) : result (list (list R) * nat) :=
  match n with
  | O => Ok (buf, pos)
  | S n' =>
      match rec pos with
      | Stopped => Ok (buf, pos)
      | Skipped => learn_loop bins n' rec (S pos) buf
      | Got mag2 =>
          row <- learn_bands bins (mag_to_db mag2) ;;
          learn_loop bins n' rec (S pos) (buf ++ [row])
      end
  end.

(** The [if self._learn_noise.is_set():] block. *)
Definition learn (sr nfft : Z) (bins : list (nat * nat)) (m : meter)
    (rec : nat -> tick) (pos : nat) : result (meter * nat) :=
  if learn_noise m then
    n <- learn_frames sr nfft ;;
    r <- learn_loop bins (Z.to_nat n) rec pos [] ;;
    match fst r with
    | [] =>
        Ok ({| cfg := cfg m; noise_band_db := noise_band_db m;
               force_redraw := force_redraw m; learn_noise := false |}, snd r)
    | _ :: _ =>
        Ok ({| cfg := cfg m;
               noise_band_db := Some (np_median_axis0 (length bins) (fst r));
               force_redraw := true; learn_noise := false |}, snd r)
    end
  else Ok (m, pos).

(** ** Change detector *)

(** [x != last] where [last] may still be [None]. *)
Definition differs {A : Type} (eqb : A -> A -> bool) (x : A) (last : option A)
  : bool :=
  match last with
  | None => true
  | Some y => negb (eqb x y)
  end.

Definition levels_eqb (l1 l2 : list Z) : bool :=
  if list_eq_dec Z.eq_dec l1 l2 then true else false.

(** From [if self._force_redraw.is_set():] to the end of the loop body.
    Returns the flag, the locals and the icon handed to the tray, if any. *)
Definition redraw (flag : bool) (w : locals) (levels : list Z) (c : config)
  : bool * locals * option icon :=
  let w1 :=
    if flag then
      {| band_peak_db := band_peak_db w; last_levels := None;
         last_db_range := None; last_bg_mode := None; last_stat_mode := None |}
    else w in
  if differs levels_eqb levels (last_levels w1)
     || differs Req_b (db_range c) (last_db_range w1)
     || differs String.eqb (bg_mode c) (last_bg_mode w1)
     || differs String.eqb (band_stat c) (last_stat_mode w1)
  then
    (false,
     {| band_peak_db := band_peak_db w1; last_levels := Some levels;
        last_db_range := Some (db_range c); last_bg_mode := Some (bg_mode c);
        last_stat_mode := Some (band_stat c) |},
     Some {| icon_levels := levels; icon_max_level := max_level c;
             icon_bg_mode := bg_mode c |})
  else (false, w1, None).

(** ** One pass of the worker's [while] loop on a non-empty block *)

(** The pass up to the drawing call: noise learner, band loop and change
    detector.  The third component is what [make_spectrum_icon] is called
    with when the detector decides to deliver; the call itself, which can
    raise, is made in [worker_pass] below. *)
Definition worker_frame (sr nfft : Z) (bins : list (nat * nat)) (m : meter)
    (w : locals) (mag : list R) (rec : nat -> tick) (pos : nat)
  : result (meter * locals * option icon * nat) :=
  l <- learn sr nfft bins m rec pos ;;
  let m := fst l in
  let mag_db := mag_to_db mag in
  let c := cfg m in
  r <- bands_loop c (noise_band_db m) mag_db 0 bins (band_peak_db w) [] ;;
  let w := {| band_peak_db := fst r; last_levels := last_levels w;
              last_db_range := last_db_range w;
              last_bg_mode := last_bg_mode w;
              last_stat_mode := last_stat_mode w |} in
  let '(flag, w, shown) := redraw (force_redraw m) w (snd r) c in
  Ok ({| cfg := c; noise_band_db := noise_band_db m; force_redraw := flag;
         learn_noise := learn_noise m |}, w, shown, snd l).

(** ** Menu callbacks *)

Definition set_cfg (m : meter) (c : config) : meter :=
  {| cfg := c; noise_band_db := noise_band_db m; force_redraw := true;
     learn_noise := learn_noise m |}.

Definition _set_db_range (r : R) (m : meter) : meter :=
  let c := cfg m in
  set_cfg m {| db_range := r; bg_mode := bg_mode c; max_level := max_level c;
               band_stat := band_stat c;
               denoise_enabled := denoise_enabled c;
               denoise_alpha := denoise_alpha c |}.

Definition _set_band_stat (mode : string) (m : meter) : meter :=
  let c := cfg m in
  set_cfg m {| db_range := db_range c; bg_mode := bg_mode c;
               max_level := max_level c; band_stat := mode;
               denoise_enabled := denoise_enabled c;
               denoise_alpha := denoise_alpha c |}.

(** ** The worker's loop *)

(** The first [n] passes of [while not self._stop.is_set():], reading the
    recorder from position [pos]: the loop ends at the stop event, an empty
    read is skipped, a block goes through [worker_frame].  Returns the
    state, the icons handed to the tray in order (as the arguments of the
    drawing calls; the calls themselves are made in [worker_pass]), and the
    read position. *)
Fixpoint worker_loop (n : nat) (sr nfft : Z) (bins : list (nat * nat))
    (m : meter) (w : locals) (rec : nat -> tick) (pos : nat)
  : result (meter * locals * list icon * nat) :=
  match n with
  | O => Ok (m, w, [], pos)
  | S n' =>
      match rec pos with
      | Stopped => Ok (m, w, [], pos)
      | Skipped => worker_loop n' sr nfft bins m w rec (S pos)
      | Got mag =>
          r <- worker_frame sr nfft bins m w mag rec (S pos) ;;
          let '(m1, w1, shown, pos1) := r in
          r' <- worker_loop n' sr nfft bins m1 w1 rec pos1 ;;
          let '(m2, w2, icons, pos2) := r' in
          Ok (m2, w2,
              match shown with Some ic => ic :: icons | None => icons end,
              pos2)
      end
  end.

(** [_worker] up to its [n]-th pass: the band plan for the default 80 Hz to
    16 kHz, the peaks at -30 dB, then the loop.  (Choosing the recording
    source and setting the tray title come before and do not enter.) *)
Definition _worker (n : nat) (sr nfft : Z) (n_bands : nat) (m : meter)
    (rec : nat -> tick) : result (meter * locals * list icon * nat) :=
  bins <- build_band_bins sr nfft n_bands 80 16000 ;;
  worker_loop n sr nfft bins m (init_locals n_bands) rec 0.

(** ** Tray icon: [make_spectrum_icon] *)

Definition ICON_SIZE : Z := 64.

Definition rgb : Type := (Z * Z * Z)%type.
Definition rgba : Type := (Z * Z * Z * Z)%type.

Definition BAND_COLORS : list rgb :=
  [(255, 70, 70); (255, 150, 60); (255, 225, 80); (255, 90, 170);
   (205, 90, 255); (120, 120, 255); (80, 170, 255); (70, 235, 255)]%Z.

(** The calls made on the [ImageDraw] object, in order; the canvas starts
    fully transparent.  Boxes are [[x0, y0, x1, y1]], both corners
    included. *)
Inductive draw_op : Type :=
| rounded_rectangle (x0 y0 x1 y1 radius : Z) (fill : rgba)
| rectangle (x0 y0 x1 y1 : Z) (fill : rgba).

(** The builtin [min(x, y)] keeps [x] unless [y < x]. *)
Definition py_min {A : Type} `{PyOrd A} (x y : A) : A :=
  if py_lt y x then y else x.

(** Integer [a // b]: floor division, raising on a zero divisor. *)
Definition py_floordiv (a b : Z) : result Z :=
  if (b =? 0)%Z then Raise ZeroDivisionError else Ok (a / b)%Z.

(** The background part: nothing for ["transparent"], a rounded box
    otherwise. *)
Definition icon_background (bg_mode : string) (size : Z) : list draw_op :=
  let pad := 2%Z in
  let bg :=
    if (bg_mode =? "transparent")%string then None
    else if (bg_mode =? "white")%string then Some (255, 255, 255, 255)%Z
    else Some (12, 12, 12, 255)%Z in
  match bg with
  | None => []
  | Some fill =>
      [rounded_rectangle pad pad (size - pad - 1) (size - pad - 1) 4 fill]
  end.

(** The inner loop [for si in range(lv)] of one bar. *)
Definition bar_segments (x0 x1 inner_b seg_h seg_gap : Z) (on : rgba) (lv : Z)
  : list draw_op :=
  map (fun si =>
         let y1 := (inner_b - Z.of_nat si * (seg_h + seg_gap))%Z in
         let y0 := (y1 - seg_h)%Z in
         rectangle x0 y0 x1 y1 on)
      (seq 0 (Z.to_nat lv)).

(** The body of [for bi in range(n_bands)]. *)
Definition icon_bar (levels : list Z) (max_level : Z)
    (inner_l inner_r inner_b bar_w gap seg_h seg_gap : Z) (bi : nat)
  : list draw_op :=
  let x0 := (inner_l + Z.of_nat bi * (bar_w + gap))%Z in
  let x1 := py_min (x0 + bar_w)%Z inner_r in
  let col := nth (bi mod length BAND_COLORS) BAND_COLORS (0, 0, 0)%Z in
  let on := (fst (fst col), snd (fst col), snd col, 255%Z) in
  let lv := nth bi levels 0%Z in
  let lv := clamp lv 0%Z max_level in
  bar_segments x0 x1 inner_b seg_h seg_gap on lv.

Definition make_spectrum_icon (levels : list Z) (max_level : Z)
    (bg_mode : string) (size : Z) : result (list draw_op) :=
  let pad := 2%Z in
  let background := icon_background bg_mode size in
  let n_bands := Z.of_nat (length levels) in
  let gap := 1%Z in
  q <- py_floordiv (size - 2 * (pad + 2) - gap * (n_bands - 1)) n_bands ;;
  let bar_w := py_max 2%Z q in
  let inner_l := (pad + 2)%Z in
  let inner_r := (size - pad - 3)%Z in
  let inner_t := (pad + 2)%Z in
  let inner_b := (size - pad - 3)%Z in
  let seg_gap := 1%Z in
  let total_h := (inner_b - inner_t)%Z in
  q' <- py_floordiv (total_h - seg_gap * (max_level - 1)) max_level ;;
  let seg_h := py_max 1%Z q' in
  Ok (background
      ++ flat_map (icon_bar levels max_level inner_l inner_r inner_b
                            bar_w gap seg_h seg_gap)
                  (seq 0 (length levels))).

(** ** The whole loop body, drawing call included *)

(** [self.icon.icon = make_spectrum_icon(levels, max_level, bg_mode,
    ICON_SIZE)]: the call the loop body makes, inside the worker thread,
    when the detector of [redraw] decides to deliver.  An exception of the
    call ends the pass (and the thread); [update_icon] is guarded by its
    own [try] and does not enter. *)
Definition draw (shown : option icon) : result (option (list draw_op)) :=
  match shown with
  | None => Ok None
  | Some ic =>
      image <- make_spectrum_icon (icon_levels ic) (icon_max_level ic)
                                  (icon_bg_mode ic) ICON_SIZE ;;
      Ok (Some image)
  end.

(** One pass of the [while] loop on a non-empty block, from the noise
    learner to the end of the body.  [worker_frame] is the pass without the
    execution of the drawing call: its third component is the argument of
    that call, if the pass reaches it.  Here the call is made; the third
    component is the image assigned to the tray icon, if any.  (The
    [last_...] variables are written after the call; a raising call leaves
    no state behind, so the order does not show.) *)
Definition worker_pass (sr nfft : Z) (bins : list (nat * nat)) (m : meter)
    (w : locals) (mag : list R) (rec : nat -> tick) (pos : nat)
  : result (meter * locals * option (list draw_op) * nat) :=
  r <- worker_frame sr nfft bins m w mag rec pos ;;
  let '(m', w', shown, pos') := r in
  image <- draw shown ;;
  Ok (m', w', image, pos').

(** ** Getters, setters and menu items *)

Definition get_db_range (m : meter) : R := db_range (cfg m).
Definition get_bg_mode (m : meter) : string := bg_mode (cfg m).
Definition get_max_level (m : meter) : Z := max_level (cfg m).
Definition get_band_stat (m : meter) : string := band_stat (cfg m).
Definition get_denoise_enabled (m : meter) : bool := denoise_enabled (cfg m).
Definition get_denoise_alpha (m : meter) : R := denoise_alpha (cfg m).

Definition _set_bg_mode (mode : string) (m : meter) : meter :=
  let c := cfg m in
  set_cfg m {| db_range := db_range c; bg_mode := mode;
               max_level := max_level c; band_stat := band_stat c;
               denoise_enabled := denoise_enabled c;
               denoise_alpha := denoise_alpha c |}.

Definition _set_denoise_enabled (v : bool) (m : meter) : meter :=
  let c := cfg m in
  set_cfg m {| db_range := db_range c; bg_mode := bg_mode c;
               max_level := max_level c; band_stat := band_stat c;
               denoise_enabled := v; denoise_alpha := denoise_alpha c |}.

Definition _set_denoise_alpha (a : R) (m : meter) : meter :=
  let c := cfg m in
  set_cfg m {| db_range := db_range c; bg_mode := bg_mode c;
               max_level := max_level c; band_stat := band_stat c;
               denoise_enabled := denoise_enabled c; denoise_alpha := a |}.

(** The [checked] callbacks of the menu items. *)
Definition checked_range (r : R) (m : meter) : bool :=
  Rlt_b (Rabs (get_db_range m - r)) 1e-6.

Definition checked_alpha (a : R) (m : meter) : bool :=
  Rlt_b (Rabs (get_denoise_alpha m - a)) 1e-9.

Definition checked_bg (mode : string) (m : meter) : bool :=
  (get_bg_mode m =? mode)%string.

Definition checked_stat (mode : string) (m : meter) : bool :=
  (get_band_stat m =? mode)%string.

Definition checked_denoise (m : meter) : bool := get_denoise_enabled m.

(** The values of [db_range_choices], [denoise_strength_choices],
    [bg_modes] and [band_stat_choices]. *)
Definition db_range_choices : list R := [45; 60; 75].
Definition denoise_strength_choices : list R := [0.8; 1.2; 1.8].
Definition bg_modes : list string := ["transparent"; "white"; "black"]%string.
Definition band_stat_choices : list string := ["max"; "rms"; "p90"]%string.

(** The [action] callbacks of the menu items that change the meter. *)
Inductive menu_action : Type :=
| action_range (r : R)
| action_bg (mode : string)
| action_stat (mode : string)
| action_toggle_denoise
| action_alpha (a : R)
| action_learn_noise.

Definition run_action (a : menu_action) (m : meter) : meter :=
  match a with
  | action_range r => _set_db_range r m
  | action_bg mode => _set_bg_mode mode m
  | action_stat mode => _set_band_stat mode m
  | action_toggle_denoise =>
      _set_denoise_enabled (negb (get_denoise_enabled m)) m
  | action_alpha a => _set_denoise_alpha a m
  | action_learn_noise =>
      {| cfg := cfg m; noise_band_db := noise_band_db m;
         force_redraw := force_redraw m; learn_noise := true |}
  end.

(** ** Double click on the tray icon: [_on_default_primary_click] *)

Definition _double_click_gap : R := 0.35.

(** One primary click at monotonic time [now] with [_last_primary_click =
    last]: the new [_last_primary_click] and whether the website is
    opened. *)
Definition _on_default_primary_click (now last : R) : R * bool :=
  if Rle_dec (now - last) _double_click_gap then (0, true) else (now, false).

(** A series of clicks, from the given [_last_primary_click]. *)
Fixpoint clicks (last : R) (times : list R) : list bool :=
  match times with
  | [] => []
  | now :: rest =>
      let r := _on_default_primary_click now last in
      snd r :: clicks (fst r) rest
  end.

(** ** Recording source: [pick_recording_source] *)

(** What the [soundcard] module reports: the devices are represented by
    their names. *)
Record soundcard : Type := {
  default_speaker : string;
  all_microphones : list string;
  default_microphone : string
}.

Inductive source : Type :=
| loopback_of (speaker_name : string)
| microphone (name : string).

(** [key in name] on strings. *)
Definition str_in (key name : string) : bool :=
  match String.index 0 key name with
  | Some _ => true
  | None => false
  end.

(** The nested [for key in prefer_names: for m in mics:] search; [lower]
    is [str.lower]. *)
Fixpoint find_preferred (lower : string -> string) (prefer_names mics : list string)
  : option string :=
  match prefer_names with
  | [] => None
  | key :: rest =>
      match find (fun m => str_in (lower key) (lower m)) mics with
      | Some m => Some m
      | None => find_preferred lower rest mics
      end
  end.

Definition hint_no_virtual_device : string := "no BlackHole/Loopback device".
Definition hint_other_platform : string := "platform not supported".

(** [pick_recording_source]; the two hint texts of the source are Chinese
    sentences, represented here by two non-empty constants. *)
Definition pick_recording_source (lower : string -> string) (sc : soundcard)
    (sys_platform : string) (prefer_names : list string) : source * string :=
  let plat := lower sys_platform in
  if String.prefix "win" plat then
    (loopback_of (default_speaker sc), ""%string)
  else if (plat =? "darwin")%string then
    match find_preferred lower prefer_names (all_microphones sc) with
    | Some m => (microphone m, ""%string)
    | None => (microphone (default_microphone sc), hint_no_virtual_device)
    end
  else (microphone (default_microphone sc), hint_other_platform).

Definition default_prefer_names : list string :=
  ["BlackHole"; "Loopback"; "VB-Audio"; "Soundflower"]%string.

(** ** Where rounding decides: binary32 storage and binary64 evaluation *)

(** The definitions above compute in [R].  Three places of the source are
    embedded a second time with the rounding that decides what they do:
    the [float32] array of the peaks, and the binary64 evaluation of the
    denoiser and of the band plan. *)



(** Lines 672-685 for band [i], given the band's dB value: the peak
    update is assigned to [band_peak_db[i]], an element of an array whose
    element type converts the assigned value by [dtype], and the floor is
    computed from the element read back. *)
Definition peak_and_level (dtype : R -> R) (c : config) (band_db : R)
    (i : nat) (peaks : list R) : result (list R * Z) :=
  old <- index peaks i ;;
  let peaks := list_set peaks i (dtype (peak_update band_db old)) in
  peak <- index peaks i ;;
  lv <- normalize band_db peak (db_range c) (max_level c) ;;
  Ok (peaks, lv).

(** [band_step] and [bands_loop] over such an array.  The source has
    [np.full(self.n_bands, -30.0, dtype=np.float32)], that is
    [dtype = float32]; [band_step] is the case of an exact element type. *)
Definition band_step_stored (dtype : R -> R) (c : config)
    (nb : option (list R)) (mag_db : list R) (i : nat) (ab : nat * nat)
    (peaks : list R) : result (list R * Z) :=
  band_db <- band_value c nb mag_db i ab ;;
  peak_and_level dtype c band_db i peaks.


(** Binary64 evaluation: every arithmetic result is rounded by [rnd], and
    the two library routines return what the platform's [pow] and [log10]
    return.  Nothing is fixed about them here; what a property needs is
    among its hypotheses. *)
Record arith : Type := {
  rnd : R -> R;
  arith_pow10 : R -> R;
  arith_log10 : R -> R
}.

(** The evaluation without rounding, which the definitions in [R] use. *)
Definition exact_arith : arith :=
  {| rnd := fun x => x; arith_pow10 := pow10; arith_log10 := log10 |}.

(** An evaluation whose [10.0 ** x] lands [1e-11] above the power, as
    binary64 does at [x = log10(16000)], where [np.logspace] returns
    [16000.00000000001]. *)
Definition overshooting_arith : arith :=
  {| rnd := fun x => x; arith_pow10 := fun x => pow10 x + 1e-11;
     arith_log10 := log10 |}.

(** Rounding keeps order and zero, the powers returned are binary64
    numbers, and the two library routines keep order. *)
Record monotone_arith (F : arith) : Prop := {
  rnd_mono : forall x y, x <= y -> rnd F x <= rnd F y;
  rnd_zero : rnd F 0 = 0;
  rnd_pow10 : forall x, rnd F (arith_pow10 F x) = arith_pow10 F x;
  pow10_mono : forall x y, x <= y -> arith_pow10 F x <= arith_pow10 F y;
  log10_mono : forall x y, 0 < x -> x <= y -> arith_log10 F x <= arith_log10 F y
}.

Section Binary64.

Variable F : arith.

(** Float division [x / y]. *)
Definition py_div_fl (x y : R) : result R :=
  if Req_dec_T y 0 then Raise ZeroDivisionError else Ok (rnd F (x / y)).

Definition math_log10_fl (x : R) : result R :=
  if Rlt_dec 0 x then Ok (arith_log10 F x) else Raise ValueError.

(** [np.fft.rfftfreq(n, d)]: [val = 1.0/(n*d)], then
    [arange(0, n//2 + 1) * val]. *)
Definition rfftfreq_fl (n : Z) (d : R) : result (list R) :=
  val <- py_div_fl 1 (rnd F (IZR n * d)) ;;
  let N := (n / 2 + 1)%Z in
  Ok (map (fun k => rnd F (INR k * val)) (seq 0 (Z.to_nat N))).

(** [np.linspace(start, stop, num)] as numpy computes it:
    [step = (stop - start) / (num - 1)], [y = arange(0, num) * step]
    (or [arange(0, num) / (num - 1) * (stop - start)] when the step is
    zero, and [arange(0, num) * (stop - start)] when [num] is 1), then
    [y += start], and the last element is overwritten with [stop]. *)
Definition np_linspace_fl (start stop : R) (num : nat) : list R :=
  let div := INR (num - 1) in
  let delta := rnd F (stop - start) in
  let step := rnd F (delta / div) in
  let y := fun i : nat =>
    if (num <=? 1)%nat then rnd F (INR i * delta)
    else if Req_dec_T step 0 then rnd F (rnd F (INR i / div) * delta)
    else rnd F (INR i * step) in
  map (fun i => if (1 <? num)%nat && (i =? num - 1)%nat then stop
                else rnd F (y i + start))
      (seq 0 num).

(** [np.logspace(start, stop, num)] is [np.power(10.0, linspace(...))]. *)
Definition np_logspace_fl (start stop : R) (num : nat) : list R :=
  map (arith_pow10 F) (np_linspace_fl start stop num).

Definition build_band_bins_fl (sr nfft : Z) (n_bands : nat) (fmin fmax : R)
  : result (list (nat * nat)) :=
  d <- py_div_fl 1 (IZR sr) ;;
  freqs <- rfftfreq_fl nfft d ;;
  lg_min <- math_log10_fl fmin ;;
  lg_max <- math_log10_fl fmax ;;
  let edges := np_logspace_fl lg_min lg_max (n_bands + 1) in
  Ok (map (band_range freqs edges) (seq 0 n_bands)).

(** The denoise block for band [i], operation by operation. *)
Definition denoise_fl (enabled : bool) (nb : option (list R)) (alpha : R)
    (i : nat) (band_db : R) : result R :=
  if enabled then
    match nb with
    | None => Ok band_db
    | Some prof =>
        n <- index prof i ;;
        let P := arith_pow10 F (rnd F (band_db / 10)) in
        let N := arith_pow10 F (rnd F (n / 10)) in
        let Pclean := py_max (rnd F (P - rnd F (alpha * N))) 1e-12 in
        lg <- math_log10_fl Pclean ;;
        let band_db := rnd F (10 * lg) in
        if Rlt_b band_db (rnd F (n + denoise_gate_margin_db))
        then Ok (-120)
        else Ok band_db
    end
  else Ok band_db.

End Binary64.

(** ** Reference definitions the properties are stated against *)

(** The normaliser as the design describes it: [t] is the position of
    [b] between [peak - range] and [peak], clamped to the unit interval;
    the level is [t * maxLevel] rounded and kept within [0, maxLevel]. *)
Definition spec_level (b peak range : R) (maxLevel : Z) : Z :=
  let t := Rmax 0 (Rmin 1 ((b - (peak - range)) / range)) in
  Z.max 0 (Z.min maxLevel (py_round (t * IZR maxLevel))).

(** The peak of one band after [n] frames of the same input [b]. *)
Fixpoint peak_after (b : R) (n : nat) (peak : R) : R :=
  match n with
  | O => peak
  | S k => peak_update b (peak_after b k peak)
  end.

Definition level_ok (M lv : Z) : Prop := (0 <= lv <= M)%Z.

(** The band's dB value before the denoiser: the silence constant for an
    empty band, the configured statistic of the band's slice otherwise. *)
Definition band_raw (c : config) (mag_db : list R) (ab : nat * nat) : result R :=
  if (snd ab <=? fst ab)%nat then Ok (-120)
  else band_statistic (band_stat c) (slice mag_db (fst ab) (snd ab)).

(** The denoiser as the design describes it: power-domain subtraction of
    [strength] times the noise power, floored at [1e-12], back to dB, then
    the gate at [n + margin]. *)
Definition spec_denoise (b n strength margin : R) : R :=
  let P := Rpower 10 (b / 10) in
  let N := Rpower 10 (n / 10) in
  let clean := 10 * (ln (Rmax (P - strength * N) 1e-12) / ln 10) in
  if Rlt_dec clean (n + margin) then -120 else clean.

(** The percentile with linearly interpolated rank: on the sorted sample
    [x_0 <= ... <= x_(n-1)] the rank is [h = q/100 * (n - 1)] and the value
    lies the fraction [h - floor h] of the way from [x_(floor h)] to the
    next order statistic. *)
Definition spec_percentile_linear (seg : list R) (q : R) : R :=
  let s := np_sort seg in
  let h := q / 100 * (INR (length seg) - 1) in
  let k := Z.to_nat (Int_part h) in
  nth k s 0 + (h - INR k) * (nth (k + 1) s 0 - nth k s 0).

(** Root-mean-square of a list of amplitudes. *)
Definition spec_rms (amps : list R) : R :=
  sqrt (Rsum (map (fun a => a * a) amps) / INR (length amps)).

(** The logarithmically spaced band edges and the frequency of an
    [rfft] bin, as the design states them. *)
Definition spec_edge (fmin fmax : R) (n_bands i : nat) : R :=
  fmin * Rpower (fmax / fmin) (INR i / INR n_bands).

Definition bin_freq (sr nfft : Z) (k : nat) : R :=
  INR k * IZR sr / IZR nfft.

(** Number of bins of the half spectrum, [nfft // 2 + 1]. *)
Definition rfft_len (nfft : Z) : nat := Z.to_nat (nfft / 2 + 1).

(** Bin [k] belongs to the slice range [ab]. *)
Definition in_band (ab : nat * nat) (k : nat) : Prop :=
  (fst ab <= k < snd ab)%nat.

(** The change detector over a run of the worker: between frames the menu
    or the learner may set the force-redraw event. *)
Inductive event : Type :=
| SetFlag
| Frame (levels : list Z) (c : config).

Fixpoint detector_run (flag : bool) (w : locals) (evs : list event)
  : list (option icon) :=
  match evs with
  | [] => []
  | SetFlag :: rest => detector_run true w rest
  | Frame levels c :: rest =>
      let r := redraw flag w levels c in
      snd r :: detector_run (fst (fst r)) (snd (fst r)) rest
  end.

(** The tuple the design says is compared against the last delivery. *)
Record shown : Type := {
  shown_levels : list Z;
  shown_db_range : R;
  shown_bg_mode : string;
  shown_stat_mode : string
}.

Definition shown_of (levels : list Z) (c : config) : shown :=
  {| shown_levels := levels; shown_db_range := db_range c;
     shown_bg_mode := bg_mode c; shown_stat_mode := band_stat c |}.

Definition shown_eqb (x y : shown) : bool :=
  levels_eqb (shown_levels x) (shown_levels y)
  && Req_b (shown_db_range x) (shown_db_range y)
  && String.eqb (shown_bg_mode x) (shown_bg_mode y)
  && String.eqb (shown_stat_mode x) (shown_stat_mode y).

(** The design's rule: deliver when the flag is set or the tuple differs
    from the last one delivered; a delivery clears the flag and becomes the
    last one delivered. *)
Fixpoint spec_deliveries (flag : bool) (last : option shown)
    (evs : list event) : list bool :=
  match evs with
  | [] => []
  | SetFlag :: rest => spec_deliveries true last rest
  | Frame levels c :: rest =>
      let x := shown_of levels c in
      let d := flag || match last with
                       | None => true
                       | Some y => negb (shown_eqb x y)
                       end in
      d :: spec_deliveries false (if d then Some x else last) rest
  end.

(** The worker's [last_*] variables hold the last delivery [last]. *)
Definition holds_last (w : locals) (last : option shown) : Prop :=
  match last with
  | None =>
      last_levels w = None /\ last_db_range w = None
      /\ last_bg_mode w = None /\ last_stat_mode w = None
  | Some x =>
      last_levels w = Some (shown_levels x)
      /\ last_db_range w = Some (shown_db_range x)
      /\ last_bg_mode w = Some (shown_bg_mode x)
      /\ last_stat_mode w = Some (shown_stat_mode x)
  end.

Definition delivered (o : option icon) : bool :=
  match o with Some _ => true | None => false end.

(** The frame count the design gives for a calibration:
    [max(12, ceil(3 * sampleRate / transformSize))]. *)
Definition ceil (x : R) : Z := (- Int_part (- x))%Z.

Definition spec_learn_frames (sr nfft : Z) : Z :=
  Z.max 12 (ceil (3 * IZR sr / IZR nfft)).

(** The blocks the recorder delivers in the [len] reads from [pos] on. *)
Definition captured (rec : nat -> tick) (pos len : nat) : list (list R) :=
  flat_map (fun k => match rec k with Got mag => [mag] | _ => [] end)
           (seq pos len).

(** The 90th percentile of a band of a dB spectrum, -120 dB when the band
    is empty. *)
Definition spec_band_p90 (mag_db : list R) (ab : nat * nat) : R :=
  if (snd ab <=? fst ab)%nat then -120
  else spec_percentile_linear (slice mag_db (fst ab) (snd ab)) 90.

(** The median: the middle order statistic, or the mean of the two middle
    ones. *)
Definition spec_median (l : list R) : R :=
  let s := np_sort l in
  let h := (length l / 2)%nat in
  if Nat.even (length l) then (nth (h - 1) s 0 + nth h s 0) / 2
  else nth h s 0.

(** Every non-empty band of the plan starts inside a spectrum of [len]
    bins. *)
Definition bins_fit (bins : list (nat * nat)) (len : nat) : Prop :=
  Forall (fun ab : nat * nat => (fst ab < snd ab)%nat -> (fst ab < len)%nat) bins.

(** The statistic modes the menu offers. *)
Definition valid_mode (mode : string) : Prop :=
  mode = "max"%string \/ mode = "p90"%string \/ mode = "rms"%string.

(** Bar width and segment height as [make_spectrum_icon] computes them. *)
Definition icon_bar_w (size : Z) (n_bands : nat) : Z :=
  Z.max 2 ((size - 8 - (Z.of_nat n_bands - 1)) / Z.of_nat n_bands).

Definition icon_seg_h (size max_level : Z) : Z :=
  Z.max 1 ((size - 9 - (max_level - 1)) / max_level).

(** Two boxes with inclusive corners share no pixel. *)
Definition boxes_disjoint (p q : draw_op) : Prop :=
  match p, q with
  | rectangle x0 y0 x1 y1 _, rectangle x0' y0' x1' y1' _ =>
      (x1 < x0' \/ x1' < x0 \/ y1 < y0' \/ y1' < y0)%Z
  | _, _ => True
  end.

(** A segment box lies inside the inner drawing area and is well formed. *)
Definition segment_in_area (size : Z) (p : draw_op) : Prop :=
  match p with
  | rectangle x0 y0 x1 y1 _ =>
      (4 <= x0 <= x1 /\ x1 <= size - 5 /\ 4 <= y0 <= y1 /\ y1 <= size - 5)%Z
  | rounded_rectangle _ _ _ _ _ _ => False
  end.

Definition is_segment (p : draw_op) : bool :=
  match p with
  | rectangle _ _ _ _ _ => true
  | rounded_rectangle _ _ _ _ _ _ => false
  end.

(** Number of lit segments a level vector asks for. *)
Definition lit_segments (levels : list Z) (max_level : Z) : nat :=
  fold_right (fun lv acc => (Z.to_nat (Z.max 0 (Z.min max_level lv)) + acc)%nat)
             0%nat levels.

(** No two neighbouring entries are both [true]. *)
Fixpoint no_two_in_a_row (l : list bool) : Prop :=
  match l with
  | a :: ((b :: _) as rest) => (a = true -> b = false) /\ no_two_in_a_row rest
  | _ => True
  end.


(** The frequency of bin [k] and the band edge [i] as the band plan
    computes them under an evaluation [F]. *)
Definition computed_freq (F : arith) (sr nfft : Z) (k : nat) : R :=
  rnd F (INR k * rnd F (1 / rnd F (IZR nfft * rnd F (1 / IZR sr)))).

Definition computed_edge (F : arith) (fmin fmax : R) (n_bands i : nat) : R :=
  nth i (np_logspace_fl F (arith_log10 F fmin) (arith_log10 F fmax)
                        (n_bands + 1)) 0.

(** The value the denoiser reaches at strength 0 before its gate: the
    band's dB value taken to a power and back, and the gate it meets. *)
Definition round_trip (F : arith) (b : R) : R :=
  rnd F (10 * arith_log10 F (Rmax (arith_pow10 F (rnd F (b / 10))) 1e-12)).

Definition gate_level (F : arith) (n : R) : R :=
  rnd F (n + denoise_gate_margin_db).

(** * Properties *)

(** ** Comparisons, [clamp], [max] *)

Lemma Rlt_b_true x y : Rlt_b x y = true <-> x < y.
Proof. unfold Rlt_b; destruct (Rlt_dec x y); split; intros; auto; discriminate. Qed.

Lemma Rlt_b_false x y : Rlt_b x y = false <-> y <= x.
Proof.
  unfold Rlt_b; destruct (Rlt_dec x y); split; intros; auto; try discriminate; lra.
Qed.

Lemma Rle_b_true x y : Rle_b x y = true <-> x <= y.
Proof. unfold Rle_b; destruct (Rle_dec x y); split; intros; auto; discriminate. Qed.

Lemma Req_b_true x y : Req_b x y = true <-> x = y.
Proof.
  unfold Req_b; destruct (Req_dec_T x y); split; intros; auto; discriminate.
Qed.

Lemma py_max_Rmax (x y : R) : py_max x y = Rmax x y.
Proof.
  unfold py_max, py_lt, PyOrd_R, Rlt_b.
  destruct (Rlt_dec x y).
  - symmetry; apply Rmax_right; lra.
  - symmetry; apply Rmax_left; lra.
Qed.

Lemma py_max_Zmax (x y : Z) : py_max x y = Z.max x y.
Proof.
  unfold py_max, py_lt, PyOrd_Z.
  destruct (Z.ltb_spec x y); lia.
Qed.

Lemma clamp_R (x a b : R) : a <= b -> clamp x a b = Rmax a (Rmin b x).
Proof.
  intros Hab. unfold clamp, py_lt, PyOrd_R, Rlt_b.
  destruct (Rlt_dec x a).
  - rewrite Rmax_left; [reflexivity|]. apply Rle_trans with x; [apply Rmin_r | lra].
  - destruct (Rlt_dec b x).
    + rewrite Rmin_left by lra. rewrite Rmax_right by lra. reflexivity.
    + rewrite Rmin_right by lra. rewrite Rmax_right by lra. reflexivity.
Qed.

Lemma clamp_Z (x a b : Z) : (a <= b)%Z -> clamp x a b = Z.max a (Z.min b x).
Proof.
  intros Hab. unfold clamp, py_lt, PyOrd_Z.
  destruct (Z.ltb_spec x a); [lia|].
  destruct (Z.ltb_spec b x); lia.
Qed.

(** ** [round] and [int] *)

Lemma Int_part_bounds (x : R) : IZR (Int_part x) <= x < IZR (Int_part x) + 1.
Proof. destruct (base_Int_part x); lra. Qed.

Lemma Int_part_unique (x : R) (z : Z) : IZR z <= x < IZR z + 1 -> Int_part x = z.
Proof. intros H. symmetry. apply Int_part_spec. lra. Qed.

Lemma Int_part_IZR (z : Z) : Int_part (IZR z) = z.
Proof. apply Int_part_unique. lra. Qed.

Lemma Int_part_mono (x y : R) : x <= y -> (Int_part x <= Int_part y)%Z.
Proof.
  intros Hxy.
  destruct (Int_part_bounds x) as [Hx1 Hx2], (Int_part_bounds y) as [Hy1 Hy2].
  destruct (Z_le_gt_dec (Int_part x) (Int_part y)) as [|Hgt]; [assumption|].
  assert (H : (Int_part y + 1 <= Int_part x)%Z) by lia.
  apply IZR_le in H. rewrite plus_IZR in H. lra.
Qed.

Lemma py_round_IZR (z : Z) : py_round (IZR z) = z.
Proof.
  unfold py_round. rewrite Int_part_IZR.
  destruct (Rlt_dec (IZR z - IZR z) (1 / 2)); [reflexivity | lra].
Qed.

Lemma py_round_range (x : R) :
  (Int_part x <= py_round x <= Int_part x + 1)%Z.
Proof.
  unfold py_round.
  destruct (Rlt_dec _ _); [lia|].
  destruct (Rlt_dec _ _); [lia|].
  destruct (Z.even _); lia.
Qed.

Lemma py_round_mono (x y : R) : x <= y -> (py_round x <= py_round y)%Z.
Proof.
  intros Hxy.
  pose proof (Int_part_mono x y Hxy) as Hf.
  destruct (Z.eq_dec (Int_part x) (Int_part y)) as [Heq|Hne].
  - unfold py_round. rewrite Heq.
    destruct (Rlt_dec (x - IZR (Int_part y)) (1 / 2));
      destruct (Rlt_dec (y - IZR (Int_part y)) (1 / 2)); try lia; try lra;
      destruct (Rlt_dec (1 / 2) (x - IZR (Int_part y)));
      destruct (Rlt_dec (1 / 2) (y - IZR (Int_part y))); try lia; try lra;
      destruct (Z.even (Int_part y)); lia.
  - pose proof (py_round_range x). pose proof (py_round_range y). lia.
Qed.

Lemma py_round_nonneg (x : R) : 0 <= x -> (0 <= py_round x)%Z.
Proof.
  intros Hx. rewrite <- (py_round_IZR 0). apply py_round_mono. exact Hx.
Qed.

(** ** Lists updated by index *)

Lemma nth_error_list_set_eq {A : Type} (l : list A) (i : nat) (v x : A) :
  nth_error l i = Some x -> nth_error (list_set l i v) i = Some v.
Proof.
  revert i; induction l as [|y t IH]; intros [|i] H; simpl in *;
    try discriminate; auto.
Qed.

Lemma nth_error_list_set_neq {A : Type} (l : list A) (i j : nat) (v : A) :
  j <> i -> nth_error (list_set l i v) j = nth_error l j.
Proof.
  revert i j; induction l as [|y t IH]; intros [|i] [|j] H; simpl;
    try reflexivity; try congruence.
  apply IH. congruence.
Qed.

Lemma length_list_set {A : Type} (l : list A) (i : nat) (v : A) :
  length (list_set l i v) = length l.
Proof.
  revert i; induction l as [|y t IH]; intros [|i]; simpl; auto.
Qed.

Lemma index_Ok {A : Type} (l : list A) (i : nat) (x : A) :
  index l i = Ok x <-> nth_error l i = Some x.
Proof.
  unfold index. destruct (nth_error l i); split; intros H;
    try discriminate; congruence.
Qed.

(** ** Peak tracker and normaliser *)

Lemma peak_update_Rmax (b p : R) : peak_update b p = Rmax b (p - 0.06).
Proof. unfold peak_update, peak_decay_db. apply py_max_Rmax. Qed.

Lemma peak_update_ge (b p : R) : b <= peak_update b p.
Proof. rewrite peak_update_Rmax. apply Rmax_l. Qed.

Section Normaliser.

Variables (range : R) (M : Z).
Hypothesis range_pos : 0 < range.
Hypothesis M_nonneg : (0 <= M)%Z.

Lemma normalize_spec (b pk : R) :
  normalize b pk range M = Ok (spec_level b pk range M).
Proof.
  unfold normalize, py_div, spec_level.
  destruct (Req_dec_T range 0) as [E|_]; [lra|]. simpl.
  rewrite clamp_R by lra. rewrite clamp_Z by assumption. reflexivity.
Qed.

Lemma spec_level_bounds (b pk : R) : (0 <= spec_level b pk range M <= M)%Z.
Proof. unfold spec_level. lia. Qed.

Lemma spec_level_top (pk : R) : spec_level pk pk range M = M.
Proof.
  unfold spec_level.
  replace ((pk - (pk - range)) / range) with 1 by (field; lra).
  rewrite Rmin_left by lra. rewrite Rmax_right by lra.
  rewrite Rmult_1_l, py_round_IZR. lia.
Qed.

Lemma spec_level_bottom (b pk : R) :
  b <= pk - range -> spec_level b pk range M = 0%Z.
Proof.
  intros Hb. unfold spec_level.
  assert (Ht : (b - (pk - range)) / range <= 0).
  { pose proof (Rinv_0_lt_compat _ range_pos). unfold Rdiv. nra. }
  rewrite Rmin_right by lra. rewrite Rmax_left by lra.
  rewrite Rmult_0_l. change 0 with (IZR 0). rewrite py_round_IZR. lia.
Qed.



End Normaliser.

Lemma band_step_unfold (c : config) nb mag_db i ab peaks b p :
  band_value c nb mag_db i ab = Ok b ->
  nth_error peaks i = Some p ->
  band_step c nb mag_db i ab peaks =
  (lv <- normalize b (peak_update b p) (db_range c) (max_level c) ;;
   Ok (list_set peaks i (peak_update b p), lv)).
Proof.
  intros Hb Hp. unfold band_step. rewrite Hb. simpl.
  apply index_Ok in Hp. rewrite Hp. simpl.
  assert (H : index (list_set peaks i (peak_update b p)) i = Ok (peak_update b p)).
  { apply index_Ok. apply index_Ok in Hp.
    eapply nth_error_list_set_eq; eassumption. }
  rewrite H. reflexivity.
Qed.

Lemma band_step_inv (c : config) nb mag_db i ab peaks peaks' lv :
  band_step c nb mag_db i ab peaks = Ok (peaks', lv) ->
  exists b p,
    band_value c nb mag_db i ab = Ok b /\ nth_error peaks i = Some p /\
    peaks' = list_set peaks i (peak_update b p) /\
    normalize b (peak_update b p) (db_range c) (max_level c) = Ok lv.
Proof.
  intros H.
  destruct (band_value c nb mag_db i ab) as [b|e] eqn:Hb;
    [|unfold band_step in H; rewrite Hb in H; discriminate].
  destruct (nth_error peaks i) as [p|] eqn:Hp.
  - rewrite (band_step_unfold _ _ _ _ _ _ _ _ Hb Hp) in H.
    destruct (normalize b (peak_update b p) (db_range c) (max_level c))
      as [l|e] eqn:Hn; simpl in H; [|discriminate].
    injection H as <- <-. exists b, p. auto.
  - unfold band_step in H. rewrite Hb in H. simpl in H.
    unfold index in H at 1. rewrite Hp in H. discriminate.
Qed.



(** The design's scenario: range 60 dB, 10 levels, peak at -10 dB. *)
Example normalize_scenario :
  normalize (-10) (-10) 60 10 = Ok 10%Z /\
  normalize (-70) (-10) 60 10 = Ok 0%Z /\
  normalize (-40) (-10) 60 10 = Ok 5%Z.
Proof.
  rewrite !normalize_spec by (lra || lia). repeat split; f_equal.
  - apply spec_level_top; (lra || lia).
  - apply spec_level_bottom; (lra || lia).
  - unfold spec_level.
    replace ((-40 - (-10 - 60)) / 60) with (1 / 2) by field.
    rewrite Rmin_right by lra. rewrite Rmax_right by lra.
    replace (1 / 2 * 10) with (IZR 5) by (simpl; field).
    rewrite py_round_IZR. reflexivity.
Qed.

(** ** Constant input *)

Lemma peak_after_S (b : R) (n : nat) (p : R) :
  peak_after b (S n) p = Rmax b (p - INR (S n) * 0.06).
Proof.
  induction n as [|n IH].
  - simpl. rewrite peak_update_Rmax. f_equal. lra.
  - change (peak_after b (S (S n)) p)
      with (peak_update b (peak_after b (S n) p)).
    rewrite IH, peak_update_Rmax. rewrite (S_INR (S n)).
    unfold Rmax.
    destruct (Rle_dec b (p - INR (S n) * 0.06));
      destruct (Rle_dec b (p - INR (S n) * 0.06 - 0.06));
      destruct (Rle_dec b (p - (INR (S n) + 1) * 0.06));
      destruct (Rle_dec b (b - 0.06)); lra.
Qed.

(** C9 as stated fails: from the initial peak of -30 dB a silent band
    ([b = -120]) leaves the peak at -30.06 dB after one frame. *)
Lemma C9_counterexample :
  peak_after (-120) 1 (-30) = -30.06 /\ peak_after (-120) 1 (-30) <> -120.
Proof.
  assert (H : peak_after (-120) 1 (-30) = -30.06).
  { simpl. rewrite peak_update_Rmax. rewrite Rmax_right by lra. lra. }
  split; [exact H | rewrite H; lra].
Qed.

(** C9, amended.  With a constant input [b] the peak after [n >= 1] frames
    is [max(b, p - n * 0.06)]: the tracker decays linearly towards [b],
    equals [b] as soon as [p - n * 0.06 <= b] and stays there; it reaches
    [b] within one frame exactly when the starting peak is at most
    [b + 0.06]. *)
Theorem C9_constant_input_converges :
  forall (b p : R) (n : nat),
    (1 <= n)%nat ->
    peak_after b n p = Rmax b (p - INR n * 0.06)
    /\ (p - INR n * 0.06 <= b ->
        forall m, (n <= m)%nat -> peak_after b m p = b)
    /\ (peak_after b 1 p = b <-> p - 0.06 <= b).
Proof.
  intros b p n Hn. destruct n as [|n]; [lia|]. repeat split.
  - apply peak_after_S.
  - intros Hb m Hm. destruct m as [|m]; [lia|].
    rewrite peak_after_S. apply Rmax_left.
    assert (INR (S n) <= INR (S m)) by (apply le_INR; exact Hm). nra.
  - rewrite peak_after_S. simpl INR. unfold Rmax.
    destruct (Rle_dec b (p - 1 * 0.06)); lra.
  - intros Hb. rewrite peak_after_S. simpl INR. apply Rmax_left. lra.
Qed.

Lemma C9_constant_input_converges_witness :
  peak_after (-20) 3 (-20.1) = Rmax (-20) (-20.1 - INR 3 * 0.06)
  /\ (-20.1 - INR 3 * 0.06 <= -20 ->
      forall m, (3 <= m)%nat -> peak_after (-20) m (-20.1) = -20)
  /\ (peak_after (-20) 1 (-20.1) = -20 <-> -20.1 - 0.06 <= -20).
Proof. apply (C9_constant_input_converges (-20) (-20.1) 3). lia. Defined.

(** ** Decibels: [log10] and [10 ** x] *)

Lemma ln10_pos : 0 < ln 10.
Proof. rewrite <- ln_1. apply ln_increasing; lra. Qed.

Lemma pow10_pos (x : R) : 0 < pow10 x.
Proof. unfold pow10, Rpower. apply exp_pos. Qed.

Create HintDb decibel.
#[local] Hint Resolve ln10_pos pow10_pos Rinv_0_lt_compat : decibel.

Lemma log10_pow10 (x : R) : log10 (pow10 x) = x.
Proof.
  unfold log10, pow10. rewrite ln_Rpower. field.
  pose proof ln10_pos. lra.
Qed.

Lemma pow10_log10 (x : R) : 0 < x -> pow10 (log10 x) = x.
Proof.
  intros Hx. unfold pow10, log10, Rpower.
  replace (ln x / ln 10 * ln 10) with (ln x)
    by (field; pose proof ln10_pos; lra).
  apply exp_ln. exact Hx.
Qed.

Lemma pow10_lt (x y : R) : x < y -> pow10 x < pow10 y.
Proof. intros H. unfold pow10. apply Rpower_lt; lra. Qed.

Lemma pow10_le (x y : R) : x <= y -> pow10 x <= pow10 y.
Proof.
  intros [H|H]; [left; apply pow10_lt; exact H | subst; right; reflexivity].
Qed.

Lemma pow10_lt_inv (x y : R) : pow10 x < pow10 y -> x < y.
Proof.
  intros H. destruct (Rlt_dec x y) as [|N]; [assumption|].
  assert (Hyx : y <= x) by lra. apply pow10_le in Hyx. lra.
Qed.

Lemma log10_lt (x y : R) : 0 < x -> x < y -> log10 x < log10 y.
Proof.
  intros Hx Hxy. unfold log10, Rdiv.
  apply Rmult_lt_compat_r; [auto with decibel|].
  apply ln_increasing; assumption.
Qed.

Lemma pow10_nat (n : nat) : pow10 (INR n) = 10 ^ n.
Proof. unfold pow10. apply Rpower_pow. lra. Qed.

Lemma pow10_m12 : pow10 (-12) = 1e-12.
Proof.
  unfold pow10. replace (-12) with (- INR 12) by (simpl; lra).
  rewrite Rpower_Ropp, Rpower_pow by lra. simpl. lra.
Qed.

Lemma pow10_m8 : pow10 (-8) = 1e-8.
Proof.
  unfold pow10. replace (-8) with (- INR 8) by (simpl; lra).
  rewrite Rpower_Ropp, Rpower_pow by lra. simpl. lra.
Qed.

Lemma log10_1em12 : 10 * log10 1e-12 = -120.
Proof. rewrite <- pow10_m12, log10_pow10. lra. Qed.

Lemma log10_1 : log10 1 = 0.
Proof. unfold log10. rewrite ln_1. field. pose proof ln10_pos. lra. Qed.

(** ** Denoiser *)

Lemma denoise_spec (prof : list R) (alpha : R) (i : nat) (b n : R) :
  nth_error prof i = Some n ->
  denoise true (Some prof) alpha i b
  = Ok (spec_denoise b n alpha denoise_gate_margin_db).
Proof.
  intros Hn. unfold denoise. apply index_Ok in Hn. rewrite Hn. simpl.
  rewrite py_max_Rmax. unfold math_log10.
  destruct (Rlt_dec 0 (Rmax (pow10 (b / 10) - alpha * pow10 (n / 10)) 1e-12))
    as [_|Hneg].
  - simpl. unfold spec_denoise, Rlt_b, log10, pow10.
    destruct (Rlt_dec _ _); reflexivity.
  - exfalso. apply Hneg.
    apply Rlt_le_trans with 1e-12; [lra | apply Rmax_r].
Qed.

Lemma denoise_off (enabled : bool) (nb : option (list R)) (alpha : R)
    (i : nat) (b : R) :
  enabled = false \/ nb = None -> denoise enabled nb alpha i b = Ok b.
Proof.
  intros [->| ->]; unfold denoise; [reflexivity|].
  destruct enabled; reflexivity.
Qed.

Lemma spec_denoise_silence (n strength margin : R) :
  0 <= strength -> spec_denoise (-120) n strength margin = -120.
Proof.
  intros Hs. unfold spec_denoise.
  replace (-120 / 10) with (-12) by lra.
  fold (pow10 (-12)). fold (pow10 (n / 10)). rewrite pow10_m12.
  pose proof (pow10_pos (n / 10)) as HN.
  rewrite Rmax_right by nra.
  fold (log10 1e-12). rewrite log10_1em12.
  destruct (Rlt_dec _ _); reflexivity.
Qed.

Lemma spec_denoise_zero_strength (b n margin : R) :
  spec_denoise b n 0 margin
  = if Rlt_dec (Rmax b (-120)) (n + margin) then -120 else Rmax b (-120).
Proof.
  unfold spec_denoise. rewrite Rmult_0_l, Rminus_0_r.
  fold (pow10 (b / 10)).
  assert (E : 10 * (ln (Rmax (pow10 (b / 10)) 1e-12) / ln 10) = Rmax b (-120)).
  { destruct (Rle_dec (-120) b) as [Hb|Hb].
    - rewrite (Rmax_left b) by exact Hb.
      rewrite Rmax_left.
      + fold (log10 (pow10 (b / 10))). rewrite log10_pow10. lra.
      + rewrite <- pow10_m12. apply pow10_le. lra.
    - rewrite (Rmax_right b) by lra.
      rewrite Rmax_right.
      + fold (log10 1e-12). apply log10_1em12.
      + rewrite <- pow10_m12. apply pow10_le. lra. }
  rewrite E. reflexivity.
Qed.

(** C3.  For band [i] with raw dB value [s] and noise estimate [n]: with
    denoising enabled and a noise profile present the value becomes
    [10 * log10(max(10^(s/10) - strength * 10^(n/10), 1e-12))], forced to
    -120 dB when that is below [n + gateMarginDb], and no exception is
    raised; with denoising disabled or no profile the value passes through
    unchanged.  This holds for every non-empty band, and for empty bands
    (which bypass the block and stay at -120 dB) when the strength is not
    negative. *)
Theorem C3_denoise_band :
  forall (c : config) (nb : option (list R)) (mag_db : list R) (i : nat)
         (ab : nat * nat) (s : R),
    band_raw c mag_db ab = Ok s ->
    (forall prof n,
        denoise_enabled c = true -> nb = Some prof ->
        nth_error prof i = Some n ->
        denoise true nb (denoise_alpha c) i s
        = Ok (spec_denoise s n (denoise_alpha c) denoise_gate_margin_db)
        /\ ((fst ab < snd ab)%nat \/ 0 <= denoise_alpha c ->
            band_value c nb mag_db i ab
            = Ok (spec_denoise s n (denoise_alpha c) denoise_gate_margin_db)))
    /\ (denoise_enabled c = false \/ nb = None ->
        denoise (denoise_enabled c) nb (denoise_alpha c) i s = Ok s
        /\ band_value c nb mag_db i ab = Ok s).
Proof.
  intros c nb mag_db i [a b] s Hraw. unfold band_raw in Hraw. simpl in Hraw.
  split.
  - intros prof n Hen -> Hn. split; [apply denoise_spec; exact Hn|].
    intros Hcase. unfold band_value.
    destruct (b <=? a)%nat eqn:Hab.
    + injection Hraw as <-.
      destruct Hcase as [Hlt|Ha].
      * simpl in Hlt. apply Nat.leb_le in Hab. lia.
      * rewrite spec_denoise_silence by exact Ha. reflexivity.
    + rewrite Hraw. simpl. rewrite Hen. apply denoise_spec. exact Hn.
  - intros Hoff. split; [apply denoise_off; exact Hoff|].
    unfold band_value.
    destruct (b <=? a)%nat; [exact Hraw|].
    rewrite Hraw. simpl. apply denoise_off. exact Hoff.
Qed.

Lemma C3_denoise_band_witness :
  (denoise true (Some [-40]) 1.2 0 (-120)
   = Ok (spec_denoise (-120) (-40) 1.2 denoise_gate_margin_db)
   /\ ((0 < 0)%nat \/ 0 <= 1.2 ->
       band_value {| db_range := 60; bg_mode := "black"; max_level := 10;
                     band_stat := "rms"; denoise_enabled := true;
                     denoise_alpha := 1.2 |} (Some [-40]) [] 0 (0%nat, 0%nat)
       = Ok (spec_denoise (-120) (-40) 1.2 denoise_gate_margin_db))).
Proof.
  refine (proj1 (C3_denoise_band
                   {| db_range := 60; bg_mode := "black"; max_level := 10;
                      band_stat := "rms"; denoise_enabled := true;
                      denoise_alpha := 1.2 |}
                   (Some [-40]) [] 0 (0%nat, 0%nat) (-120) _)
                [-40] (-40) _ _ _); reflexivity.
Defined.

(** C8 as stated fails: with strength 0 a band at -50 dB whose noise
    estimate is -40 dB is gated to -120 dB, and a band at -160 dB (an
    all-zero spectrum) comes out at -120 dB. *)
Lemma C8_counterexample :
  denoise true (Some [-40]) 0 0 (-50) = Ok (-120)
  /\ denoise true (Some [-160]) 0 0 (-160) = Ok (-120)
  /\ -120 <> -50 /\ -120 <> -160.
Proof.
  repeat split; try lra.
  - rewrite (denoise_spec [-40] 0 0 (-50) (-40)) by reflexivity.
    rewrite spec_denoise_zero_strength. unfold denoise_gate_margin_db.
    rewrite Rmax_left by lra.
    destruct (Rlt_dec (-50) (-40 + 0)); [reflexivity | lra].
  - rewrite (denoise_spec [-160] 0 0 (-160) (-160)) by reflexivity.
    rewrite spec_denoise_zero_strength. unfold denoise_gate_margin_db.
    rewrite Rmax_right by lra.
    destruct (Rlt_dec (-120) (-160 + 0)); [lra | reflexivity].
Qed.


(** ** Sorting and order statistics *)

Lemma insert_sorted_perm (x : R) (l : list R) :
  Permutation (x :: l) (insert_sorted x l).
Proof.
  induction l as [|y t IH]; simpl; [apply Permutation_refl|].
  destruct (Rle_dec x y); [apply Permutation_refl|].
  apply perm_trans with (y :: x :: t); [apply perm_swap|].
  apply perm_skip. exact IH.
Qed.

Lemma np_sort_perm (l : list R) : Permutation l (np_sort l).
Proof.
  induction l as [|x t IH]; simpl; [apply perm_nil|].
  apply perm_trans with (x :: np_sort t); [apply perm_skip; exact IH|].
  apply insert_sorted_perm.
Qed.

Lemma insert_sorted_hd (x y : R) (l : list R) :
  y <= x -> HdRel Rle y l -> HdRel Rle y (insert_sorted x l).
Proof.
  intros Hyx Hl. destruct l as [|z t]; simpl.
  - constructor. exact Hyx.
  - destruct (Rle_dec x z); constructor; [exact Hyx|].
    inversion Hl; assumption.
Qed.

Lemma insert_sorted_sorted (x : R) (l : list R) :
  Sorted Rle l -> Sorted Rle (insert_sorted x l).
Proof.
  induction l as [|y t IH]; intros Hs; simpl.
  - constructor; constructor.
  - destruct (Rle_dec x y) as [Hxy|Hxy].
    + constructor; [exact Hs | constructor; exact Hxy].
    + inversion Hs as [|? ? Ht Hhd]; subst.
      constructor; [apply IH; exact Ht|].
      apply insert_sorted_hd; [lra | exact Hhd].
Qed.

Lemma np_sort_sorted (l : list R) : Sorted Rle (np_sort l).
Proof.
  induction l as [|x t IH]; simpl; [constructor|].
  apply insert_sorted_sorted. exact IH.
Qed.

Lemma np_sort_length (l : list R) : length (np_sort l) = length l.
Proof. symmetry. apply Permutation_length, np_sort_perm. Qed.

Lemma fold_left_Rmax_ge (xs : list R) (x : R) :
  x <= fold_left Rmax xs x /\ forall y, In y xs -> y <= fold_left Rmax xs x.
Proof.
  revert x; induction xs as [|z t IH]; intros x; simpl.
  - split; [lra | tauto].
  - destruct (IH (Rmax x z)) as [H1 H2]. split.
    + apply Rle_trans with (Rmax x z); [apply Rmax_l | exact H1].
    + intros y [Hy|Hy]; [|apply H2; exact Hy].
      subst z. apply Rle_trans with (Rmax x y); [apply Rmax_r | exact H1].
Qed.

Lemma fold_left_Rmax_in (xs : list R) (x : R) :
  In (fold_left Rmax xs x) (x :: xs).
Proof.
  revert x; induction xs as [|z t IH]; intros x; simpl; [auto|].
  destruct (IH (Rmax x z)) as [H|H].
  - unfold Rmax in H at 1. destruct (Rle_dec x z); [right; left | left]; exact H.
  - right; right; exact H.
Qed.

Lemma np_max_spec (seg : list R) :
  seg <> [] ->
  exists m, np_max seg = Ok m /\ In m seg /\ forall x, In x seg -> x <= m.
Proof.
  destruct seg as [|x xs]; [congruence|]. intros _.
  exists (fold_left Rmax xs x). split; [reflexivity|]. split.
  - apply fold_left_Rmax_in.
  - destruct (fold_left_Rmax_ge xs x) as [H1 H2].
    intros y [Hy|Hy]; [subst y; exact H1 | apply H2; exact Hy].
Qed.

Lemma np_lerp_linear (a b t : R) : np_lerp a b t = a + t * (b - a).
Proof. unfold np_lerp. destruct (Rle_dec (1 / 2) t); ring. Qed.

Lemma np_percentile_nonempty (seg : list R) (q : R) :
  seg <> [] ->
  np_percentile seg q =
  Ok (let s := np_sort seg in
      let n := length seg in
      let virt := (INR n - 1) * (q / 100) in
      let prev := Z.to_nat (Int_part virt) in
      let next := Nat.min (prev + 1) (n - 1) in
      np_lerp (nth prev s 0) (nth next s 0) (virt - INR prev)).
Proof. destruct seg; [congruence | reflexivity]. Qed.

Lemma np_percentile_90 (seg : list R) :
  seg <> [] -> np_percentile seg 90 = Ok (spec_percentile_linear seg 90).
Proof.
  intros Hne. rewrite np_percentile_nonempty by exact Hne.
  assert (Hn : (1 <= length seg)%nat) by (destruct seg; [congruence | simpl; lia]).
  unfold spec_percentile_linear. f_equal. cbv zeta. rewrite np_lerp_linear.
  set (n := length seg) in *.
  replace ((INR n - 1) * (90 / 100)) with (90 / 100 * (INR n - 1)) by ring.
  set (h := 90 / 100 * (INR n - 1)).
  assert (Hn1 : 1 <= INR n) by (change 1 with (INR 1); apply le_INR; exact Hn).
  assert (Hh0 : 0 <= h) by (unfold h; nra).
  assert (Hf0 : (0 <= Int_part h)%Z).
  { rewrite <- (Int_part_IZR 0). apply Int_part_mono. exact Hh0. }
  set (k := Z.to_nat (Int_part h)).
  assert (Hk : INR k = IZR (Int_part h)).
  { unfold k. rewrite INR_IZR_INZ, Z2Nat.id by exact Hf0. reflexivity. }
  destruct (Int_part_bounds h) as [Hlo Hhi]. rewrite <- Hk in Hlo, Hhi.
  destruct (Nat.le_gt_cases (k + 1) (n - 1)) as [Hle|Hgt].
  - rewrite Nat.min_l by exact Hle. reflexivity.
  - rewrite Nat.min_r by lia.
    assert (Hkn : INR n - 1 <= INR k).
    { replace (INR n - 1) with (INR (n - 1)) by (rewrite minus_INR by lia; simpl; lra).
      apply le_INR. lia. }
    assert (Hn' : INR n = 1) by (unfold h in Hlo; nra).
    assert (Hh : h = 0) by (unfold h; rewrite Hn'; lra).
    assert (Hk0 : INR k = 0) by lra.
    replace k with 0%nat by (apply INR_eq; simpl; lra).
    replace (n - 1)%nat with 0%nat
      by (apply INR_eq; rewrite minus_INR by lia; simpl; lra).
    rewrite Hh. simpl INR. ring.
Qed.

(** ** Band statistic *)

Lemma slice_map {A B : Type} (f : A -> B) (l : list A) (a b : nat) :
  slice (map f l) a b = map f (slice l a b).
Proof. unfold slice. rewrite skipn_map, firstn_map. reflexivity. Qed.

Lemma slice_nonempty {A : Type} (l : list A) (a b : nat) :
  (a < b)%nat -> (a < length l)%nat -> slice l a b <> [].
Proof.
  intros Hab Hal Hnil.
  assert (Hlen : length (slice l a b) = 0%nat) by (rewrite Hnil; reflexivity).
  unfold slice in Hlen. rewrite length_firstn, length_skipn in Hlen. lia.
Qed.

Lemma band_statistic_rms (seg : list R) :
  seg <> [] ->
  band_statistic "rms" seg
  = Ok (20 * log10 (spec_rms (map (fun d => pow10 (d / 20)) seg) + 1e-12)).
Proof.
  intros Hne. destruct seg as [|x xs]; [congruence|].
  unfold band_statistic, spec_rms, np_mean. simpl String.eqb. cbv iota.
  rewrite !length_map. reflexivity.
Qed.

Lemma band_statistic_unknown (mode : string) (seg : list R) :
  mode <> "max"%string -> mode <> "p90"%string -> mode <> "rms"%string ->
  band_statistic mode seg = Raise ValueError.
Proof.
  intros H1 H2 H3. unfold band_statistic.
  apply String.eqb_neq in H1, H2, H3. rewrite H1, H2, H3. reflexivity.
Qed.

(** C2 as stated fails in the [rms] mode: the code adds [1e-12] to the
    root-mean-square amplitude before taking the logarithm.  On a silent
    band (every bin at -160 dB, the value of a zero magnitude) the RMS
    amplitude is [1e-8], whose dB value is -160, while the code yields
    [20 * log10(1e-8 + 1e-12)]. *)
Lemma C2_counterexample :
  band_statistic "rms" [-160] = Ok (20 * log10 (1e-8 + 1e-12))
  /\ spec_rms (map (fun d => pow10 (d / 20)) [-160]) = 1e-8
  /\ 20 * log10 1e-8 = -160
  /\ 20 * log10 (1e-8 + 1e-12) <> 20 * log10 1e-8.
Proof.
  assert (Hr : spec_rms (map (fun d => pow10 (d / 20)) [-160]) = 1e-8).
  { unfold spec_rms. simpl.
    replace (-160 / 20) with (-8) by lra. rewrite pow10_m8.
    replace ((1e-8 * 1e-8 + 0) / 1) with (1e-8 * 1e-8) by lra.
    apply sqrt_square. lra. }
  repeat split.
  - rewrite band_statistic_rms by discriminate. rewrite Hr. reflexivity.
  - exact Hr.
  - rewrite <- pow10_m8, log10_pow10. lra.
  - assert (log10 1e-8 < log10 (1e-8 + 1e-12)) by (apply log10_lt; lra).
    lra.
Qed.

(** C2, amended.  For a non-empty band whose slice lies in the spectrum:
    the slice holds [20 * log10(magnitude + 1e-8)] per bin; mode [max]
    yields the largest value of the slice, mode [p90] the 90th percentile
    with linearly interpolated rank over the sorted slice, mode [rms]
    yields [20 * log10(r + 1e-12)] where [r] is the root-mean-square of the
    amplitudes [10^(dB/20)]; every empty band yields -120 dB. *)
Theorem C2_band_statistic :
  forall (mag : list R) (a b : nat),
    (a < b)%nat -> (a < length mag)%nat ->
    let seg := slice (mag_to_db mag) a b in
    seg = map (fun m => 20 * log10 (m + 1e-8)) (slice mag a b)
    /\ (forall c, band_raw c (mag_to_db mag) (a, b)
                  = band_statistic (band_stat c) seg)
    /\ (exists m, band_statistic "max" seg = Ok m
                  /\ In m seg /\ forall x, In x seg -> x <= m)
    /\ (band_statistic "p90" seg = Ok (spec_percentile_linear seg 90)
        /\ Sorted Rle (np_sort seg) /\ Permutation seg (np_sort seg))
    /\ band_statistic "rms" seg
       = Ok (20 * log10 (spec_rms (map (fun d => pow10 (d / 20)) seg) + 1e-12))
    /\ (forall c nb db i a' b',
          (b' <= a')%nat -> band_value c nb db i (a', b') = Ok (-120)).
Proof.
  intros mag a b Hab Hal seg.
  assert (Hne : seg <> []).
  { subst seg. apply slice_nonempty; [exact Hab|].
    unfold mag_to_db. rewrite length_map. exact Hal. }
  split; [apply slice_map|].
  split.
  { intros c. unfold band_raw. simpl fst; simpl snd.
    destruct (Nat.leb_spec b a); [lia | reflexivity]. }
  split; [apply np_max_spec; exact Hne|].
  split.
  { split; [apply np_percentile_90; exact Hne|].
    split; [apply np_sort_sorted | apply np_sort_perm]. }
  split; [apply band_statistic_rms; exact Hne|].
  intros c nb db i a' b' Hemp. unfold band_value.
  destruct (Nat.leb_spec b' a'); [reflexivity | lia].
Qed.

Lemma C2_band_statistic_witness :
  slice (mag_to_db [1; 2; 3]) 1 3
  = map (fun m => 20 * log10 (m + 1e-8)) (slice [1; 2; 3] 1 3).
Proof.
  refine (proj1 (C2_band_statistic [1; 2; 3] 1 3 _ _)); simpl; lia.
Defined.

(** ** Levels stay in range *)

Lemma bands_loop_levels (c : config) nb mag_db bins :
  0 < db_range c -> (0 <= max_level c)%Z ->
  forall i peaks levels peaks' levels',
    bands_loop c nb mag_db i bins peaks levels = Ok (peaks', levels') ->
    Forall (level_ok (max_level c)) levels ->
    Forall (level_ok (max_level c)) levels'
    /\ length levels' = (length levels + length bins)%nat
    /\ length peaks' = length peaks.
Proof.
  intros Hr HM. induction bins as [|ab rest IH];
    intros i peaks levels peaks' levels' H Hl.
  - simpl in H. injection H as <- <-. simpl. auto with arith.
  - simpl in H.
    destruct (band_step c nb mag_db i ab peaks) as [[pk lv]|e] eqn:Hs;
      simpl in H; [|discriminate].
    destruct (band_step_inv _ _ _ _ _ _ _ _ Hs) as (b & p & _ & _ & Hpk & Hn).
    rewrite normalize_spec in Hn by assumption. injection Hn as <-.
    apply IH in H.
    + destruct H as (H1 & H2 & H3). split; [exact H1|]. split.
      * rewrite H2, length_app. simpl. lia.
      * rewrite H3, Hpk. apply length_list_set.
    + apply Forall_app. split; [exact Hl|].
      constructor; [|constructor]. apply spec_level_bounds. exact HM.
Qed.

Lemma band_statistic_total (mode : string) (seg : list R) :
  valid_mode mode -> seg <> [] -> exists v, band_statistic mode seg = Ok v.
Proof.
  intros [->|[->| ->]] Hne.
  - destruct (np_max_spec seg Hne) as (m & Hm & _). exists m. exact Hm.
  - eexists. apply np_percentile_90. exact Hne.
  - eexists. apply band_statistic_rms. exact Hne.
Qed.

Lemma denoise_total (enabled : bool) (nb : option (list R)) (alpha : R)
    (i : nat) (b : R) :
  (forall prof, nb = Some prof -> (i < length prof)%nat) ->
  exists v, denoise enabled nb alpha i b = Ok v.
Proof.
  intros Hlen. destruct enabled; [|eexists; apply denoise_off; left; reflexivity].
  destruct nb as [prof|]; [|eexists; apply denoise_off; right; reflexivity].
  destruct (nth_error prof i) as [n|] eqn:Hn.
  - eexists. apply denoise_spec. exact Hn.
  - apply nth_error_None in Hn. specialize (Hlen prof eq_refl). lia.
Qed.

Lemma bands_loop_total (c : config) nb mag_db bins :
  0 < db_range c -> (0 <= max_level c)%Z ->
  valid_mode (band_stat c) ->
  bins_fit bins (length mag_db) ->
  forall i peaks levels,
    (i + length bins <= length peaks)%nat ->
    (forall prof, nb = Some prof -> (i + length bins <= length prof)%nat) ->
    exists peaks' levels',
      bands_loop c nb mag_db i bins peaks levels = Ok (peaks', levels').
Proof.
  intros Hr HM Hmode. unfold bins_fit.
  induction bins as [|[a b] rest IH]; intros Hfit i peaks levels Hpk Hprof.
  - simpl. eauto.
  - inversion Hfit as [|? ? Hab Hrest]; subst. simpl in Hab, Hpk.
    assert (Hv : exists v, band_value c nb mag_db i (a, b) = Ok v).
    { unfold band_value. destruct (Nat.leb_spec b a) as [|Hlt]; [eauto|].
      destruct (band_statistic_total (band_stat c) (slice mag_db a b) Hmode)
        as (s & Hs); [apply slice_nonempty; auto|].
      rewrite Hs. cbn [bind]. apply denoise_total.
      intros prof E. specialize (Hprof prof E). simpl in Hprof. lia. }
    destruct Hv as (v & Hv).
    destruct (nth_error peaks i) as [p|] eqn:Hp;
      [|apply nth_error_None in Hp; lia].
    cbn [bands_loop].
    rewrite (band_step_unfold _ _ _ _ _ _ _ _ Hv Hp).
    rewrite normalize_spec by assumption. cbn [bind fst snd].
    apply (IH Hrest).
    + rewrite length_list_set. lia.
    + intros prof E. specialize (Hprof prof E). simpl in Hprof. lia.
Qed.


(** ** Band plan *)

Lemma nth_map_seq {A : Type} (f : nat -> A) (n i : nat) (d : A) :
  (i < n)%nat -> nth i (map f (seq 0 n)) d = f i.
Proof.
  intros Hi.
  rewrite (nth_indep _ d (f 0%nat)) by (rewrite length_map, length_seq; exact Hi).
  rewrite map_nth, seq_nth by exact Hi. reflexivity.
Qed.

Lemma np_where_map_seq (cond : R -> bool) (f : nat -> R) (N : nat) :
  np_where cond (map f (seq 0 N)) = filter (fun k => cond (f k)) (seq 0 N).
Proof.
  unfold np_where. rewrite length_map, length_seq.
  apply filter_ext_in. intros k Hk. apply in_seq in Hk.
  rewrite nth_map_seq by lia. reflexivity.
Qed.

Lemma seq_increasing (s n : nat) : StronglySorted lt (seq s n).
Proof.
  revert s; induction n as [|n IH]; intros s; simpl; constructor.
  - apply IH.
  - apply Forall_forall. intros x Hx. apply in_seq in Hx. lia.
Qed.

Lemma filter_increasing (P : nat -> bool) (l : list nat) :
  StronglySorted lt l -> StronglySorted lt (filter P l).
Proof.
  induction 1 as [|x l Hs IH Hall]; simpl; [constructor|].
  destruct (P x); [|exact IH].
  constructor; [exact IH|].
  apply Forall_forall. intros y Hy. apply filter_In in Hy.
  rewrite Forall_forall in Hall. apply Hall. tauto.
Qed.

Lemma increasing_bounds (x : nat) (l : list nat) :
  StronglySorted lt (x :: l) ->
  In (last (x :: l) 0%nat) (x :: l)
  /\ forall y, In y (x :: l) -> (x <= y <= last (x :: l) 0%nat)%nat.
Proof.
  revert x; induction l as [|z t IH]; intros x Hs.
  - simpl. split; [auto|]. intros y [<-|[]]. lia.
  - inversion Hs as [|? ? Hs' Hall]; subst.
    destruct (IH z Hs') as [Hin Hb].
    change (last (x :: z :: t) 0%nat) with (last (z :: t) 0%nat).
    split; [right; exact Hin|].
    rewrite Forall_forall in Hall.
    assert (Hxz : (x < z)%nat) by (apply Hall; left; reflexivity).
    intros y [<-|Hy].
    + assert (z <= last (z :: t) 0)%nat by (apply Hb; left; reflexivity). lia.
    + destruct (Hb y Hy). lia.
Qed.

Lemma band_range_spec (f : nat -> R) (N : nat) (edges : list R) (i : nat) :
  (forall k k', (k <= k')%nat -> f k <= f k') ->
  let lo := nth i edges 0 in
  let hi := nth (i + 1) edges 0 in
  let ab := band_range (map f (seq 0 N)) edges i in
  (forall k, in_band ab k <-> (k < N)%nat /\ lo <= f k < hi)
  /\ ((forall k, (k < N)%nat -> ~ (lo <= f k < hi)) -> ab = (0%nat, 0%nat)).
Proof.
  intros Hmono lo hi ab. subst ab. unfold band_range. fold lo. fold hi.
  rewrite np_where_map_seq.
  set (idx := filter (fun k => Rle_b lo (f k) && Rlt_b (f k) hi) (seq 0 N)).
  assert (Hin : forall k, In k idx <-> (k < N)%nat /\ lo <= f k < hi).
  { intros k. unfold idx. rewrite filter_In, in_seq, andb_true_iff.
    rewrite Rle_b_true, Rlt_b_true. split; intros H; repeat split; try tauto; lia. }
  assert (Hs : StronglySorted lt idx)
    by (apply filter_increasing, seq_increasing).
  destruct idx as [|first rest].
  - split.
    + intros k. unfold in_band. simpl. split; [lia|].
      intros H. apply Hin in H. destruct H.
    + reflexivity.
  - destruct (increasing_bounds first rest Hs) as [Hlast Hb].
    set (lst := last (first :: rest) 0%nat) in *.
    assert (Hfirst : In first (first :: rest)) by (left; reflexivity).
    split.
    + intros k. unfold in_band. simpl fst; simpl snd. split.
      * intros [H1 H2].
        apply Hin in Hfirst. apply Hin in Hlast.
        destruct Hfirst as (_ & Hf1 & _). destruct Hlast as (Hl0 & _ & Hl2).
        assert (Hk2 : (k <= lst)%nat) by lia.
        pose proof (Hmono _ _ H1). pose proof (Hmono _ _ Hk2).
        repeat split; [lia | lra | lra].
      * intros H. apply Hin in H. apply Hb in H. lia.
    + intros Hnone. exfalso. apply Hin in Hfirst.
      destruct Hfirst as [H1 H2]. exact (Hnone first H1 H2).
Qed.

Lemma logspace_edge (fmin fmax : R) (n i : nat) :
  0 < fmin -> 0 < fmax -> (1 <= n)%nat -> (i <= n)%nat ->
  nth i (np_logspace (log10 fmin) (log10 fmax) (n + 1)) 0
  = spec_edge fmin fmax n i.
Proof.
  intros Hmin Hmax Hn Hi.
  unfold np_logspace, np_linspace. rewrite map_map.
  rewrite nth_map_seq by lia.
  replace (n + 1 - 1)%nat with n by lia.
  unfold spec_edge, pow10, log10, Rpower.
  assert (Hn0 : INR n <> 0) by (apply not_0_INR; lia).
  pose proof ln10_pos as H10.
  assert (Hln : ln (fmax / fmin) = ln fmax - ln fmin).
  { unfold Rdiv. rewrite ln_mult by (try apply Rinv_0_lt_compat; assumption).
    rewrite ln_Rinv by exact Hmin. ring. }
  rewrite Hln.
  transitivity (exp (ln fmin) * exp (INR i / INR n * (ln fmax - ln fmin))).
  - rewrite <- exp_plus. f_equal. field. split; lra.
  - rewrite exp_ln by exact Hmin. reflexivity.
Qed.

Lemma spec_edge_pos (fmin fmax : R) (n i : nat) :
  0 < fmin -> 0 < spec_edge fmin fmax n i.
Proof.
  intros Hmin. unfold spec_edge, Rpower.
  apply Rmult_lt_0_compat; [exact Hmin | apply exp_pos].
Qed.

Lemma spec_edge_mono (fmin fmax : R) (n i j : nat) :
  0 < fmin -> fmin < fmax -> (1 <= n)%nat -> (i <= j)%nat ->
  spec_edge fmin fmax n i <= spec_edge fmin fmax n j.
Proof.
  intros Hmin Hlt Hn Hij. unfold spec_edge.
  apply Rmult_le_compat_l; [lra|].
  apply Rle_Rpower.
  - assert (Hi : 0 < / fmin) by (apply Rinv_0_lt_compat; exact Hmin).
    replace 1 with (fmin * / fmin) by (field; lra).
    unfold Rdiv. apply Rmult_le_compat_r; lra.
  - assert (Hn0 : 0 < INR n) by (apply lt_0_INR; lia).
    assert (Hi : 0 < / INR n) by (apply Rinv_0_lt_compat; exact Hn0).
    unfold Rdiv. apply Rmult_le_compat_r; [lra | apply le_INR; exact Hij].
Qed.

Section BinFrequencies.

Variables sr nfft : Z.
Hypothesis sr_pos : (0 < sr)%Z.
Hypothesis nfft_pos : (0 < nfft)%Z.

Lemma bin_freq_mono (k k' : nat) :
  (k <= k')%nat -> bin_freq sr nfft k <= bin_freq sr nfft k'.
Proof.
  intros Hk. unfold bin_freq.
  assert (H1 : 0 < IZR sr) by (apply IZR_lt; exact sr_pos).
  assert (H2 : 0 < / IZR nfft) by (apply Rinv_0_lt_compat, IZR_lt; exact nfft_pos).
  assert (H3 : INR k <= INR k') by (apply le_INR; exact Hk).
  unfold Rdiv. apply Rmult_le_compat_r; [lra|].
  apply Rmult_le_compat_r; lra.
Qed.

Lemma bin_freq_lt_inv (k k' : nat) :
  bin_freq sr nfft k < bin_freq sr nfft k' -> (k < k')%nat.
Proof.
  intros Hlt.
  destruct (Nat.lt_ge_cases k k') as [|Hge]; [assumption|].
  pose proof (bin_freq_mono k' k Hge). lra.
Qed.

End BinFrequencies.

Lemma py_div_Ok (x y : R) : y <> 0 -> py_div x y = Ok (x / y).
Proof. intros Hy. unfold py_div. destruct (Req_dec_T y 0); [contradiction | reflexivity]. Qed.

Lemma py_div_zero (x : R) : py_div x 0 = Raise ZeroDivisionError.
Proof. unfold py_div. destruct (Req_dec_T 0 0); [reflexivity | contradiction]. Qed.

Lemma rfftfreq_bins (sr nfft : Z) :
  sr <> 0%Z -> nfft <> 0%Z ->
  rfftfreq nfft (1 / IZR sr)
  = Ok (map (bin_freq sr nfft) (seq 0 (rfft_len nfft))).
Proof.
  intros Hsr Hn.
  assert (H1 : IZR sr <> 0) by (apply not_0_IZR; exact Hsr).
  assert (H2 : IZR nfft <> 0) by (apply not_0_IZR; exact Hn).
  unfold rfftfreq. rewrite py_div_Ok.
  - simpl. f_equal. apply map_ext. intros k. unfold bin_freq. field. tauto.
  - intros E. unfold Rdiv in E. rewrite Rmult_1_l in E.
    apply Rmult_integral in E. destruct E as [E|E]; [contradiction|].
    exact (Rinv_neq_0_compat _ H1 E).
Qed.

Lemma math_log10_Ok (x : R) : 0 < x -> math_log10 x = Ok (log10 x).
Proof. intros Hx. unfold math_log10. destruct (Rlt_dec 0 x); [reflexivity | contradiction]. Qed.

Lemma math_log10_domain (x : R) : x <= 0 -> math_log10 x = Raise ValueError.
Proof. intros Hx. unfold math_log10. destruct (Rlt_dec 0 x); [lra | reflexivity]. Qed.

Lemma build_band_bins_Ok (sr nfft : Z) (n_bands : nat) (fmin fmax : R) :
  sr <> 0%Z -> nfft <> 0%Z -> 0 < fmin -> 0 < fmax ->
  build_band_bins sr nfft n_bands fmin fmax
  = Ok (map (band_range (map (bin_freq sr nfft) (seq 0 (rfft_len nfft)))
                        (np_logspace (log10 fmin) (log10 fmax) (n_bands + 1)))
            (seq 0 n_bands)).
Proof.
  intros Hsr Hn Hmin Hmax. unfold build_band_bins.
  rewrite py_div_Ok by (apply not_0_IZR; exact Hsr). simpl.
  rewrite rfftfreq_bins by assumption. simpl.
  rewrite !math_log10_Ok by assumption. reflexivity.
Qed.


(** ** Invalid parameters *)

Lemma filter_none {A : Type} (P : A -> bool) (l : list A) :
  (forall x, In x l -> P x = false) -> filter P l = [].
Proof.
  induction l as [|x t IH]; intros H; simpl; [reflexivity|].
  rewrite (H x) by (left; reflexivity).
  apply IH. intros y Hy. apply H. right. exact Hy.
Qed.

Lemma map_const {A B : Type} (f : A -> B) (c : B) (l : list A) :
  (forall x, In x l -> f x = c) -> map f l = repeat c (length l).
Proof.
  induction l as [|x t IH]; intros H; simpl; [reflexivity|].
  rewrite (H x) by (left; reflexivity). f_equal.
  apply IH. intros y Hy. apply H. right. exact Hy.
Qed.

Lemma band_range_empty (freqs edges : list R) (i : nat) :
  (forall f, In f freqs -> ~ (nth i edges 0 <= f < nth (i + 1) edges 0)) ->
  band_range freqs edges i = (0%nat, 0%nat).
Proof.
  intros H. unfold band_range, np_where.
  rewrite filter_none; [reflexivity|].
  intros k Hk. apply in_seq in Hk.
  apply not_true_is_false. intros Hc.
  apply andb_true_iff in Hc. destruct Hc as [H1 H2].
  apply Rle_b_true in H1. apply Rlt_b_true in H2.
  apply (H (nth k freqs 0)); [apply nth_In; lia | lra].
Qed.

Lemma logspace_nth (lg_min lg_max : R) (n i : nat) :
  (i <= n)%nat ->
  nth i (np_logspace lg_min lg_max (n + 1)) 0
  = pow10 (lg_min + INR i * ((lg_max - lg_min) / INR n)).
Proof.
  intros Hi. unfold np_logspace, np_linspace. rewrite map_map.
  rewrite nth_map_seq by lia.
  replace (n + 1 - 1)%nat with n by lia. reflexivity.
Qed.

Lemma rfft_len_negative (nfft : Z) : (nfft < 0)%Z -> rfft_len nfft = 0%nat.
Proof.
  intros H. unfold rfft_len.
  assert (nfft / 2 < 0)%Z by (apply Z.div_lt_upper_bound; lia). lia.
Qed.

Lemma build_band_bins_all_empty (sr nfft : Z) (n_bands : nat) (fmin fmax : R) :
  sr <> 0%Z -> nfft <> 0%Z -> 0 < fmin -> 0 < fmax ->
  (sr < 0)%Z \/ (nfft < 0)%Z \/ fmax <= fmin ->
  build_band_bins sr nfft n_bands fmin fmax
  = Ok (repeat (0%nat, 0%nat) n_bands).
Proof.
  intros Hsr Hn Hmin Hmax Hbad.
  rewrite build_band_bins_Ok by assumption. f_equal.
  replace (repeat (0%nat, 0%nat) n_bands)
    with (repeat (0%nat, 0%nat) (length (seq 0 n_bands)))
    by (rewrite length_seq; reflexivity).
  apply map_const. intros i Hi. apply in_seq in Hi.
  apply band_range_empty. intros f Hf [Hlo Hhi].
  rewrite logspace_nth in Hlo by lia. rewrite logspace_nth in Hhi by lia.
  destruct (Z_lt_ge_dec nfft 0) as [Hneg|Hpos].
  { rewrite rfft_len_negative in Hf by exact Hneg. destruct Hf. }
  destruct Hbad as [Hs|[Hs|Hs]]; [|lia|].
  - apply in_map_iff in Hf. destruct Hf as (k & <- & _).
    pose proof (pow10_pos (log10 fmin + INR i * ((log10 fmax - log10 fmin) / INR n_bands))).
    assert (Hle : bin_freq sr nfft k <= 0).
    { unfold bin_freq.
      assert (0 <= INR k) by apply pos_INR.
      assert (IZR sr < 0) by (apply IZR_lt; exact Hs).
      assert (0 < / IZR nfft) by (apply Rinv_0_lt_compat, IZR_lt; lia).
      assert (INR k * IZR sr <= 0) by nra.
      unfold Rdiv. nra. }
    lra.
  - assert (Hlog : log10 fmax <= log10 fmin).
    { destruct Hs as [Hs|Hs]; [left; apply log10_lt; assumption | subst; lra]. }
    assert (Hn0 : 0 < INR n_bands) by (apply lt_0_INR; lia).
    assert (Hi0 : 0 < / INR n_bands) by (apply Rinv_0_lt_compat; exact Hn0).
    assert (Hstep : (log10 fmax - log10 fmin) / INR n_bands <= 0)
      by (unfold Rdiv; nra).
    assert (Hii : INR (i + 1) = INR i + 1) by (rewrite plus_INR; simpl; lra).
    assert (Hd : pow10 (log10 fmin + INR (i + 1) * ((log10 fmax - log10 fmin) / INR n_bands))
                 <= pow10 (log10 fmin + INR i * ((log10 fmax - log10 fmin) / INR n_bands))).
    { apply pow10_le. rewrite Hii. nra. }
    lra.
Qed.

Lemma build_band_bins_errors (sr nfft : Z) (n_bands : nat) (fmin fmax : R) :
  (sr = 0%Z \/ nfft = 0%Z ->
   build_band_bins sr nfft n_bands fmin fmax = Raise ZeroDivisionError)
  /\ (sr <> 0%Z -> nfft <> 0%Z -> fmin <= 0 \/ fmax <= 0 ->
      build_band_bins sr nfft n_bands fmin fmax = Raise ValueError).
Proof.
  split.
  - intros Hz. unfold build_band_bins.
    destruct (Z.eq_dec sr 0) as [->|Hsr].
    + rewrite py_div_zero. reflexivity.
    + destruct Hz as [Hz|Hz]; [contradiction|]. subst nfft.
      rewrite py_div_Ok by (apply not_0_IZR; exact Hsr). simpl.
      unfold rfftfreq. rewrite Rmult_0_l, py_div_zero. reflexivity.
  - intros Hsr Hn Hbad. unfold build_band_bins.
    rewrite py_div_Ok by (apply not_0_IZR; exact Hsr). simpl.
    rewrite rfftfreq_bins by assumption. simpl.
    destruct (Rlt_dec 0 fmin) as [Hmin|Hmin].
    + destruct Hbad as [Hb|Hb]; [lra|].
      rewrite math_log10_Ok by exact Hmin. simpl.
      rewrite math_log10_domain by exact Hb. reflexivity.
    + rewrite math_log10_domain by lra. reflexivity.
Qed.

Lemma worker_frame_unknown_mode (sr nfft : Z) (a b : nat)
    (rest : list (nat * nat)) (m : meter) (w : locals) (mag : list R)
    (rec : nat -> tick) (pos : nat) :
  learn_noise m = false -> (a < b)%nat ->
  band_stat (cfg m) <> "max"%string ->
  band_stat (cfg m) <> "p90"%string ->
  band_stat (cfg m) <> "rms"%string ->
  worker_frame sr nfft ((a, b) :: rest) m w mag rec pos = Raise ValueError.
Proof.
  intros Hl Hab H1 H2 H3. unfold worker_frame, learn. rewrite Hl. simpl.
  unfold band_step, band_value.
  destruct (Nat.leb_spec b a); [lia|].
  rewrite band_statistic_unknown by assumption. reflexivity.
Qed.

(** C7 as stated fails: [build_band_bins] returns an all-empty plan, and no
    error, for [fmin >= fmax], for a negative sample rate and for a negative
    transform size; the setter stores an unknown statistic mode unchecked and
    the [ValueError] is raised inside the frame that first uses it. *)
Lemma C7_counterexample :
  build_band_bins 48000 4096 8 16000 80 = Ok (repeat (0%nat, 0%nat) 8)
  /\ build_band_bins (-48000) 4096 8 80 16000 = Ok (repeat (0%nat, 0%nat) 8)
  /\ build_band_bins 48000 (-4096) 8 80 16000 = Ok (repeat (0%nat, 0%nat) 8)
  /\ band_stat (cfg (_set_band_stat "median"
                       {| cfg := default_config 10; noise_band_db := None;
                          force_redraw := false; learn_noise := false |}))
     = "median"%string
  /\ worker_frame 48000 4096 [(0%nat, 1%nat)]
       (_set_band_stat "median"
          {| cfg := default_config 10; noise_band_db := None;
             force_redraw := false; learn_noise := false |})
       (init_locals 1) [1] (fun _ => Stopped) 0
     = Raise ValueError.
Proof.
  repeat split.
  - apply build_band_bins_all_empty; [lia | lia | lra | lra | right; right; lra].
  - apply build_band_bins_all_empty; [lia | lia | lra | lra | left; lia].
  - apply build_band_bins_all_empty; [lia | lia | lra | lra | right; left; lia].
Qed.

(** C7, amended.  [build_band_bins] validates nothing itself: it raises
    exactly where its arithmetic does ([ZeroDivisionError] for a zero
    sample rate or transform size, [ValueError] from [log10] for a
    non-positive frequency bound) and otherwise returns a plan, which has
    only empty bands when the sample rate or transform size is negative or
    [fmin >= fmax].  A statistic mode is stored unchecked by its setter; an
    unknown mode is rejected with [ValueError] by the band statistic, which
    ends the frame that reaches a non-empty band with it. *)
Theorem C7_configuration_errors :
  forall (sr nfft : Z) (n_bands : nat) (fmin fmax : R) (mode : string)
         (m : meter),
    (sr = 0%Z \/ nfft = 0%Z ->
     build_band_bins sr nfft n_bands fmin fmax = Raise ZeroDivisionError)
    /\ (sr <> 0%Z -> nfft <> 0%Z -> fmin <= 0 \/ fmax <= 0 ->
        build_band_bins sr nfft n_bands fmin fmax = Raise ValueError)
    /\ (sr <> 0%Z -> nfft <> 0%Z -> 0 < fmin -> 0 < fmax ->
        (exists bins, build_band_bins sr nfft n_bands fmin fmax = Ok bins)
        /\ ((sr < 0)%Z \/ (nfft < 0)%Z \/ fmax <= fmin ->
            build_band_bins sr nfft n_bands fmin fmax
            = Ok (repeat (0%nat, 0%nat) n_bands)))
    /\ band_stat (cfg (_set_band_stat mode m)) = mode
    /\ (mode <> "max"%string -> mode <> "p90"%string -> mode <> "rms"%string ->
        (forall seg, band_statistic mode seg = Raise ValueError)
        /\ (forall a b rest w mag rec pos,
              learn_noise m = false -> (a < b)%nat ->
              worker_frame sr nfft ((a, b) :: rest) (_set_band_stat mode m)
                w mag rec pos
              = Raise ValueError)).
Proof.
  intros sr nfft n_bands fmin fmax mode m.
  destruct (build_band_bins_errors sr nfft n_bands fmin fmax) as [E1 E2].
  split; [exact E1|]. split; [exact E2|]. split.
  { intros Hsr Hn Hmin Hmax. split.
    - eexists. apply build_band_bins_Ok; assumption.
    - apply build_band_bins_all_empty; assumption. }
  split; [reflexivity|].
  intros H1 H2 H3. split.
  - intros seg. apply band_statistic_unknown; assumption.
  - intros a b rest w mag rec pos Hl Hab.
    apply worker_frame_unknown_mode; assumption.
Qed.

Lemma C7_configuration_errors_witness :
  build_band_bins 0 4096 8 80 16000 = Raise ZeroDivisionError
  /\ build_band_bins 48000 4096 8 0 16000 = Raise ValueError.
Proof.
  pose proof (C7_configuration_errors 0 4096 8 80 16000 "max"
                {| cfg := default_config 10; noise_band_db := None;
                   force_redraw := false; learn_noise := false |}) as H0.
  pose proof (C7_configuration_errors 48000 4096 8 0 16000 "max"
                {| cfg := default_config 10; noise_band_db := None;
                   force_redraw := false; learn_noise := false |}) as H1.
  split.
  - apply (proj1 H0). left. reflexivity.
  - apply (proj1 (proj2 H1)); [lia | lia | left; lra].
Defined.

(** ** Change detector *)

Lemma redraw_flag_cleared (flag : bool) (w : locals) (levels : list Z)
    (c : config) :
  fst (fst (redraw flag w levels c)) = false.
Proof. unfold redraw. destruct (_ || _); reflexivity. Qed.

Lemma redraw_forced (w : locals) (levels : list Z) (c : config) :
  redraw true w levels c
  = (false,
     {| band_peak_db := band_peak_db w; last_levels := Some levels;
        last_db_range := Some (db_range c); last_bg_mode := Some (bg_mode c);
        last_stat_mode := Some (band_stat c) |},
     Some {| icon_levels := levels; icon_max_level := max_level c;
             icon_bg_mode := bg_mode c |}).
Proof. reflexivity. Qed.

Lemma levels_eqb_refl (l : list Z) : levels_eqb l l = true.
Proof. unfold levels_eqb. destruct (list_eq_dec Z.eq_dec l l); congruence. Qed.

Lemma Req_b_refl (x : R) : Req_b x x = true.
Proof. apply Req_b_true. reflexivity. Qed.

Lemma redraw_spec (flag : bool) (w : locals) (last : option shown)
    (levels : list Z) (c : config) :
  holds_last w last ->
  let x := shown_of levels c in
  let d := flag || match last with
                   | None => true
                   | Some y => negb (shown_eqb x y)
                   end in
  let r := redraw flag w levels c in
  delivered (snd r) = d
  /\ holds_last (snd (fst r)) (if d then Some x else last)
  /\ (d = true ->
      snd r = Some {| icon_levels := levels; icon_max_level := max_level c;
                      icon_bg_mode := bg_mode c |})
  /\ (d = false -> snd (fst r) = w).
Proof.
  intros Hw x d r. subst x d r.
  destruct flag.
  - rewrite redraw_forced. simpl. repeat split; intros; congruence.
  - destruct last as [y|]; simpl in Hw; destruct Hw as (H1 & H2 & H3 & H4).
    + unfold redraw. rewrite H1, H2, H3, H4. cbn [differs orb].
      unfold shown_eqb, shown_of. cbn [shown_levels shown_db_range
                                        shown_bg_mode shown_stat_mode].
      destruct (levels_eqb levels (shown_levels y));
        destruct (Req_b (db_range c) (shown_db_range y));
        destruct (String.eqb (bg_mode c) (shown_bg_mode y));
        destruct (String.eqb (band_stat c) (shown_stat_mode y));
        cbn; repeat split; auto; intros; congruence.
    + unfold redraw. rewrite H1. cbn. repeat split; intros; congruence.
Qed.

Lemma detector_refines (evs : list event) :
  forall flag w last,
    holds_last w last ->
    map delivered (detector_run flag w evs) = spec_deliveries flag last evs.
Proof.
  induction evs as [|[|levels c] rest IH]; intros flag w last Hw; simpl.
  - reflexivity.
  - apply IH. exact Hw.
  - destruct (redraw_spec flag w last levels c Hw) as (Hd & Hh & _).
    cbv zeta in Hd, Hh. rewrite Hd. f_equal.
    rewrite redraw_flag_cleared. apply IH. exact Hh.
Qed.

Lemma redraw_repeat (flag : bool) (w : locals) (levels : list Z) (c : config) :
  let r := redraw flag w levels c in
  redraw (fst (fst r)) (snd (fst r)) levels c = (false, snd (fst r), None).
Proof.
  cbv zeta. rewrite redraw_flag_cleared.
  assert (Hsame : forall w',
            last_levels w' = Some levels ->
            last_db_range w' = Some (db_range c) ->
            last_bg_mode w' = Some (bg_mode c) ->
            last_stat_mode w' = Some (band_stat c) ->
            redraw false w' levels c = (false, w', None)).
  { intros w' H1 H2 H3 H4. unfold redraw. rewrite H1, H2, H3, H4. cbn.
    rewrite levels_eqb_refl, Req_b_refl, !String.eqb_refl. reflexivity. }
  unfold redraw at 2 3.
  destruct (_ || _) eqn:Hd.
  - apply Hsame; reflexivity.
  - cbn [fst snd].
    destruct flag; [discriminate Hd|].
    apply orb_false_iff in Hd. destruct Hd as [Hd H4].
    apply orb_false_iff in Hd. destruct Hd as [Hd H3].
    apply orb_false_iff in Hd. destruct Hd as [H1 H2].
    unfold redraw. rewrite H1, H2, H3, H4. reflexivity.
Qed.

Lemma levels_eqb_true (l1 l2 : list Z) : levels_eqb l1 l2 = true <-> l1 = l2.
Proof.
  unfold levels_eqb. destruct (list_eq_dec Z.eq_dec l1 l2); split; intros;
    auto; discriminate.
Qed.

Lemma shown_eqb_true (x y : shown) : shown_eqb x y = true <-> x = y.
Proof.
  destruct x as [l1 r1 b1 s1], y as [l2 r2 b2 s2]. unfold shown_eqb. simpl.
  rewrite !andb_true_iff, levels_eqb_true, Req_b_true, !String.eqb_eq.
  split.
  - intros [[[-> ->] ->] ->]. reflexivity.
  - intros H. injection H as -> -> -> ->. auto.
Qed.

(** C6.  A frame is delivered to the renderer exactly when the force-redraw
    flag is set or the tuple (levels, range, background, statistic mode)
    differs from the last one delivered (the first frame has none); the
    delivery carries the frame's levels; the flag is clear after every
    frame, so it forces one delivery only; a second frame with the same
    tuple is suppressed; the first frame after the flag is set is always
    delivered.  Over any run of frames and flag settings the worker's
    deliveries are those of the design's rule. *)
Theorem C6_change_detector :
  forall (flag : bool) (w : locals) (last : option shown) (levels : list Z)
         (c : config),
    holds_last w last ->
    let x := shown_of levels c in
    let r := redraw flag w levels c in
    let shown_icon := {| icon_levels := levels; icon_max_level := max_level c;
                         icon_bg_mode := bg_mode c |} in
    (delivered (snd r) = true <-> flag = true \/ last <> Some x)
    /\ (delivered (snd r) = true -> snd r = Some shown_icon)
    /\ fst (fst r) = false
    /\ holds_last (snd (fst r)) (if delivered (snd r) then Some x else last)
    /\ (delivered (snd r) = false -> snd (fst r) = w)
    /\ detector_run flag w [Frame levels c; Frame levels c] = [snd r; None]
    /\ detector_run flag w [SetFlag; Frame levels c; Frame levels c]
       = [Some shown_icon; None]
    /\ (forall evs,
          map delivered (detector_run flag w evs)
          = spec_deliveries flag last evs).
Proof.
  intros flag w last levels c Hw x r shown_icon.
  destruct (redraw_spec flag w last levels c Hw) as (Hd & Hh & Hi & Hs).
  cbv zeta in Hd, Hh, Hi, Hs. fold x in Hd, Hh, Hi, Hs. fold r in Hd, Hh, Hi, Hs.
  split.
  { rewrite Hd. rewrite orb_true_iff. split.
    - intros [Hf|Hl]; [left; exact Hf|]. right. intros E. subst last.
      rewrite (proj2 (shown_eqb_true x x) eq_refl) in Hl. discriminate.
    - intros [Hf|Hl]; [left; exact Hf|]. right.
      destruct last as [y|]; [|reflexivity].
      destruct (shown_eqb x y) eqn:E; [|reflexivity].
      apply shown_eqb_true in E. subst y. contradiction. }
  split; [rewrite Hd; exact Hi|].
  split; [apply redraw_flag_cleared|].
  split; [rewrite Hd; exact Hh|].
  split; [rewrite Hd; exact Hs|].
  split.
  { cbn [detector_run]. fold r. f_equal. unfold r. rewrite redraw_repeat.
    reflexivity. }
  split.
  { cbn [detector_run]. rewrite redraw_forced. cbn [fst snd]. f_equal.
    pose proof (redraw_repeat true w levels c) as H.
    cbv zeta in H. rewrite redraw_forced in H. cbn [fst snd] in H.
    rewrite H. reflexivity. }
  intros evs. apply detector_refines. exact Hw.
Qed.

Lemma C6_change_detector_witness :
  detector_run false (init_locals 8)
    [Frame [0; 0; 0; 0; 0; 0; 0; 0]%Z (default_config 10);
     Frame [0; 0; 0; 0; 0; 0; 0; 0]%Z (default_config 10)]
  = [snd (redraw false (init_locals 8) [0; 0; 0; 0; 0; 0; 0; 0]%Z
            (default_config 10)); None].
Proof.
  refine (proj1 (proj2 (proj2 (proj2 (proj2 (proj2
    (C6_change_detector false (init_locals 8) None
       [0; 0; 0; 0; 0; 0; 0; 0]%Z (default_config 10) _))))))).
  simpl. auto.
Defined.

(** ** Noise profile learner *)

Lemma Int_part_div (a b : Z) :
  (0 < b)%Z -> Int_part (IZR a / IZR b) = (a / b)%Z.
Proof.
  intros Hb. apply Int_part_unique.
  pose proof (Z.div_mod a b ltac:(lia)) as Hdm.
  pose proof (Z.mod_pos_bound a b Hb) as [Hr0 Hr1].
  assert (Hb' : 0 < IZR b) by (apply IZR_lt; exact Hb).
  assert (Ha : IZR a = IZR b * IZR (a / b) + IZR (a mod b)).
  { rewrite <- mult_IZR, <- plus_IZR. f_equal. exact Hdm. }
  apply IZR_le in Hr0. apply IZR_lt in Hr1.
  assert (Hq : IZR a / IZR b = IZR (a / b) + IZR (a mod b) / IZR b).
  { rewrite Ha. field. lra. }
  rewrite Hq.
  assert (Hi : 0 < / IZR b) by (apply Rinv_0_lt_compat; exact Hb').
  assert (0 <= IZR (a mod b) / IZR b) by (unfold Rdiv; nra).
  assert (IZR (a mod b) / IZR b < 1).
  { replace 1 with (IZR b * / IZR b) by (field; lra).
    unfold Rdiv. apply Rmult_lt_compat_r; assumption. }
  lra.
Qed.

Lemma learn_frames_floor (sr nfft : Z) :
  (0 <= sr)%Z -> (0 < nfft)%Z ->
  learn_frames sr nfft = Ok (Z.max 12 (3 * sr / nfft)).
Proof.
  intros Hsr Hn. unfold learn_frames.
  rewrite py_div_Ok by (apply not_0_IZR; lia). cbn [bind].
  rewrite py_max_Zmax.
  assert (E : py_int (IZR (3 * sr) / IZR nfft) = (3 * sr / nfft)%Z).
  { unfold py_int.
    destruct (Rlt_dec (IZR (3 * sr) / IZR nfft) 0) as [Hneg|_].
    - exfalso.
      assert (0 <= IZR (3 * sr)) by (apply IZR_le; lia).
      assert (0 < / IZR nfft) by (apply Rinv_0_lt_compat, IZR_lt; exact Hn).
      unfold Rdiv in Hneg. nra.
    - apply Int_part_div. exact Hn. }
  rewrite E. reflexivity.
Qed.

(** C5 as stated fails: the frame count truncates instead of rounding up.
    With the program's own settings (48000 Hz, 4096 points) the learner
    takes 35 frames where [ceil(3 * 48000 / 4096)] is 36. *)
Lemma C5_counterexample :
  learn_frames 48000 4096 = Ok 35%Z /\ spec_learn_frames 48000 4096 = 36%Z.
Proof.
  split.
  - rewrite learn_frames_floor by lia. reflexivity.
  - unfold spec_learn_frames, ceil.
    replace (- (3 * 48000 / 4096)) with (IZR (-144000) / IZR 4096) by lra.
    rewrite Int_part_div by lia. reflexivity.
Qed.

Lemma skipn_cons_nth {A : Type} (l : list A) (i : nat) (d : A) :
  (i < length l)%nat -> skipn i l = nth i l d :: skipn (S i) l.
Proof.
  revert i; induction l as [|x t IH]; intros i Hi; simpl in Hi; [lia|].
  destruct i as [|i]; [reflexivity|].
  simpl. apply IH. lia.
Qed.

Lemma slice_one {A : Type} (l : list A) (i : nat) (d : A) :
  (i < length l)%nat -> slice l i (i + 1) = [nth i l d].
Proof.
  intros Hi. unfold slice. replace (i + 1 - i)%nat with 1%nat by lia.
  rewrite (skipn_cons_nth l i d Hi). reflexivity.
Qed.

Lemma slice_two {A : Type} (l : list A) (i : nat) (d : A) :
  (1 <= i)%nat -> (i < length l)%nat ->
  slice l (i - 1) (i + 1) = [nth (i - 1) l d; nth i l d].
Proof.
  intros H1 Hi. unfold slice.
  replace (i + 1 - (i - 1))%nat with 2%nat by lia.
  rewrite (skipn_cons_nth l (i - 1) d) by lia.
  replace (S (i - 1)) with i by lia.
  rewrite (skipn_cons_nth l i d Hi). reflexivity.
Qed.

Lemma np_median_spec (l : list R) : l <> [] -> np_median l = spec_median l.
Proof.
  intros Hne. unfold np_median, spec_median.
  assert (Hlen : (1 <= length l)%nat) by (destruct l; [congruence | simpl; lia]).
  pose proof (np_sort_length l) as Hs.
  assert (Hhalf : (length l / 2 < length l)%nat) by (apply Nat.div_lt; lia).
  destruct (Nat.even (length l)) eqn:Hev.
  - assert (H2 : (1 <= length l / 2)%nat).
    { destruct (length l) as [|[|n]]; [lia | discriminate Hev|].
      change (S (S n)) with (2 + n)%nat.
      apply (Nat.div_le_lower_bound (2 + n) 2 1); lia. }
    rewrite (slice_two _ _ 0) by lia.
    unfold np_mean. simpl. lra.
  - rewrite (slice_one _ _ 0) by lia.
    unfold np_mean. simpl. lra.
Qed.

Lemma learn_bands_Ok (bins : list (nat * nat)) (mag_db : list R) :
  bins_fit bins (length mag_db) ->
  learn_bands bins mag_db = Ok (map (spec_band_p90 mag_db) bins).
Proof.
  unfold learn_bands, bins_fit.
  induction bins as [|[a b] rest IH]; intros Hfit; [reflexivity|].
  inversion Hfit as [|? ? Hab Hrest]; subst. simpl in Hab.
  cbn [mapM map]. unfold spec_band_p90 at 1. cbn [fst snd].
  destruct (Nat.leb_spec b a) as [Hle|Hlt].
  - cbn [bind]. rewrite (IH Hrest). reflexivity.
  - rewrite np_percentile_90 by (apply slice_nonempty; [exact Hlt | apply Hab; exact Hlt]).
    cbn [bind]. rewrite (IH Hrest). reflexivity.
Qed.

Lemma captured_step (rec : nat -> tick) (pos len : nat) :
  captured rec pos (S len)
  = match rec pos with Got mag => [mag] | _ => [] end
    ++ captured rec (S pos) len.
Proof. reflexivity. Qed.

Lemma learn_loop_spec (bins : list (nat * nat)) (rec : nat -> tick) :
  (forall k mag, rec k = Got mag -> bins_fit bins (length mag)) ->
  forall n pos buf,
  exists pos',
    learn_loop bins n rec pos buf
    = Ok (buf ++ map (fun mag => map (spec_band_p90 (mag_to_db mag)) bins)
                     (captured rec pos (pos' - pos)), pos')
    /\ (pos <= pos' <= pos + n)%nat
    /\ ((pos' < pos + n)%nat -> rec pos' = Stopped)
    /\ (forall k, (pos <= k < pos')%nat -> rec k <> Stopped).
Proof.
  intros Hfit. induction n as [|n IH]; intros pos buf.
  - exists pos. simpl. rewrite Nat.sub_diag. simpl. rewrite app_nil_r.
    repeat split; intros; lia.
  - simpl. destruct (rec pos) as [| |mag2] eqn:Hr.
    + exists pos. rewrite Nat.sub_diag. simpl. rewrite app_nil_r.
      repeat split; try lia. intros _; exact Hr.
    + destruct (IH (S pos) buf) as (pos' & He & Hb & Hstop & Hrun).
      exists pos'. rewrite He.
      replace (pos' - pos)%nat with (S (pos' - S pos)) by lia.
      rewrite captured_step, Hr. simpl app.
      repeat split; try lia.
      * intros Hlt. apply Hstop. lia.
      * intros k Hk. destruct (Nat.eq_dec k pos) as [->|Hne];
          [rewrite Hr; discriminate | apply Hrun; lia].
    + rewrite learn_bands_Ok
        by (unfold mag_to_db; rewrite length_map; eapply Hfit; exact Hr).
      cbn [bind].
      destruct (IH (S pos) (buf ++ [map (spec_band_p90 (mag_to_db mag2)) bins]))
        as (pos' & He & Hb & Hstop & Hrun).
      exists pos'. rewrite He.
      replace (pos' - pos)%nat with (S (pos' - S pos)) by lia.
      rewrite captured_step, Hr. cbn [map app].
      rewrite <- app_assoc. cbn [app].
      repeat split; try lia.
      * intros Hlt. apply Hstop. lia.
      * intros k Hk. destruct (Nat.eq_dec k pos) as [->|Hne];
          [rewrite Hr; discriminate | apply Hrun; lia].
Qed.

(** C5, amended.  A learn request makes the worker take
    [max(12, floor(3 * sr / nfft))] further reads (fewer only when the stop
    event is met), skipping empty ones; each captured block contributes its
    per-band 90th percentile (-120 dB for an empty band), whatever the
    configured statistic mode; when at least one block was captured the new
    noise profile is the per-band median over the captured blocks and the
    force-redraw flag is set; when none was captured the profile and the
    flag are left as they were and no error is raised. *)
Theorem C5_learn_noise :
  forall (sr nfft : Z) (bins : list (nat * nat)) (m : meter)
         (rec : nat -> tick) (pos : nat),
    (0 <= sr)%Z -> (0 < nfft)%Z -> learn_noise m = true ->
    (forall k mag, rec k = Got mag -> bins_fit bins (length mag)) ->
    let N := Z.to_nat (Z.max 12 (3 * sr / nfft)) in
    learn_frames sr nfft = Ok (Z.max 12 (3 * sr / nfft))
    /\ exists pos' m',
        let blocks := captured rec pos (pos' - pos) in
        let rows := map (fun mag => map (spec_band_p90 (mag_to_db mag)) bins)
                        blocks in
        learn sr nfft bins m rec pos = Ok (m', pos')
        /\ (pos <= pos' <= pos + N)%nat
        /\ ((pos' < pos + N)%nat -> rec pos' = Stopped)
        /\ (forall k, (pos <= k < pos')%nat -> rec k <> Stopped)
        /\ cfg m' = cfg m
        /\ learn_noise m' = false
        /\ (blocks = [] ->
            noise_band_db m' = noise_band_db m
            /\ force_redraw m' = force_redraw m)
        /\ (blocks <> [] ->
            force_redraw m' = true
            /\ noise_band_db m'
               = Some (map (fun j => spec_median (map (fun row => nth j row 0) rows))
                           (seq 0 (length bins)))).
Proof.
  intros sr nfft bins m rec pos Hsr Hn Hl Hfit N.
  split; [apply learn_frames_floor; assumption|].
  destruct (learn_loop_spec bins rec Hfit N pos []) as (pos' & He & Hb & Hstop & Hrun).
  unfold learn. rewrite Hl, learn_frames_floor by assumption. cbn [bind].
  fold N. rewrite He. cbn [bind fst snd app].
  destruct (captured rec pos (pos' - pos)) as [|blk blks] eqn:Hc.
  - exists pos'. eexists. cbv zeta. rewrite Hc. cbn [map].
    split; [reflexivity|].
    repeat split; try assumption; try lia; try reflexivity; congruence.
  - exists pos'. eexists. cbv zeta. rewrite Hc. cbn [map].
    split; [reflexivity|].
    repeat split; try assumption; try lia; try congruence.
    cbn [noise_band_db]. f_equal. unfold np_median_axis0.
    apply map_ext. intros j. apply np_median_spec. discriminate.
Qed.

Lemma C5_learn_noise_witness :
  learn_frames 48000 4096 = Ok (Z.max 12 (3 * 48000 / 4096)).
Proof.
  refine (proj1 (C5_learn_noise 48000 4096 [(0%nat, 1%nat)]
                   {| cfg := default_config 10; noise_band_db := None;
                      force_redraw := false; learn_noise := true |}
                   (fun _ => Got [1]) 0 _ _ _ _)).
  - lia.
  - lia.
  - reflexivity.
  - intros k mag H. injection H as <-. constructor; [simpl; lia | constructor].
Defined.

(** ** Worked examples *)

Ltac by_cases_Rle :=
  repeat match goal with
         | |- context [Rle_dec ?a ?b] => destruct (Rle_dec a b); try lra
         | |- context [Rlt_dec ?a ?b] => destruct (Rlt_dec a b); try lra
         end.

Ltac sort_concrete :=
  unfold np_sort;
  repeat (cbn [fold_right insert_sorted];
          match goal with
          | |- context [Rle_dec ?a ?b] => destruct (Rle_dec a b); try lra
          end);
  try reflexivity.

Example np_sort_example : np_sort [10; 30; 20] = [10; 20; 30].
Proof. sort_concrete. Qed.

(** [np.percentile([10, 30, 20], 90)] is 28: rank [0.9 * 2 = 1.8], that is
    8/10 of the way from 20 to 30. *)
Example np_percentile_example : np_percentile [10; 30; 20] 90 = Ok 28.
Proof.
  rewrite np_percentile_nonempty by discriminate. cbv zeta.
  rewrite np_sort_example.
  assert (E : Int_part ((INR (length [10; 30; 20]) - 1) * (90 / 100)) = 1%Z).
  { apply Int_part_unique. simpl. lra. }
  rewrite E. simpl. unfold np_lerp. by_cases_Rle. f_equal. lra.
Qed.

(** [np.median([40, 10, 30, 20])] is 25. *)
Example np_median_example : np_median [40; 10; 30; 20] = 25.
Proof.
  assert (Hs : np_sort [40; 10; 30; 20] = [10; 20; 30; 40]).
  { sort_concrete. }
  unfold np_median. rewrite Hs. simpl. unfold np_mean. simpl. lra.
Qed.

(** A silent band under the initial peak of -30 dB shows no segment. *)
Example silent_band_level :
  normalize (-160) (peak_update (-160) (-30)) 60 10 = Ok 0%Z.
Proof.
  rewrite normalize_spec by (lra || lia). f_equal.
  apply spec_level_bottom; try lra; try lia.
  rewrite peak_update_Rmax. rewrite Rmax_right by lra. lra.
Qed.

(** Eight samples per second, an 8-point transform and one band from 1 Hz
    to 4 Hz: the bins lie at 0, 1, 2, 3, 4 Hz and the band takes bins 1
    to 3. *)
Example build_band_bins_example :
  build_band_bins 8 8 1 1 4 = Ok [(1%nat, 4%nat)].
Proof.
  rewrite build_band_bins_Ok by (lia || lra). simpl seq. cbn [map]. do 2 f_equal.
  pose proof (band_range_spec (bin_freq 8 8) (rfft_len 8)
                (np_logspace (log10 1) (log10 4) (1 + 1)) 0
                (bin_freq_mono 8 8 ltac:(lia) ltac:(lia))) as H.
  cbv zeta in H. change (0 + 1)%nat with 1%nat in H.
  rewrite (logspace_edge 1 4 1 0) in H by (lra || lia).
  rewrite (logspace_edge 1 4 1 1) in H by (lra || lia).
  assert (E0 : spec_edge 1 4 1 0 = 1).
  { unfold spec_edge. simpl INR. replace (0 / 1) with 0 by lra.
    rewrite Rpower_O by lra. lra. }
  assert (E1 : spec_edge 1 4 1 1 = 4).
  { unfold spec_edge. simpl INR. replace (1 / 1) with 1 by lra.
    rewrite Rpower_1 by lra. lra. }
  rewrite E0, E1 in H. destruct H as [H _].
  change (rfft_len 8) with 5%nat in *.
  assert (F : forall k, bin_freq 8 8 k = INR k) by (intros k; unfold bin_freq; field).
  destruct (band_range _ _ 0) as [a b]. unfold in_band in H. simpl in H.
  assert (H1 : (a <= 1 < b)%nat) by (apply H; rewrite F; simpl; split; [lia | lra]).
  assert (H3 : (a <= 3 < b)%nat) by (apply H; rewrite F; simpl; split; [lia | lra]).
  assert (H0 : ~ (a <= 0 < b)%nat).
  { intros Hc. apply H in Hc. rewrite F in Hc. simpl in Hc. lra. }
  assert (H4 : ~ (a <= 4 < b)%nat).
  { intros Hc. apply H in Hc. rewrite F in Hc. simpl in Hc. lra. }
  f_equal; lia.
Qed.

(** [round] sends ties to the even neighbour: [round(0.5) = 0],
    [round(1.5) = 2], [round(2.5) = 2]. *)
Example py_round_ties :
  py_round 0.5 = 0%Z /\ py_round 1.5 = 2%Z /\ py_round 2.5 = 2%Z.
Proof.
  assert (E0 : Int_part 0.5 = 0%Z) by (apply Int_part_unique; lra).
  assert (E1 : Int_part 1.5 = 1%Z) by (apply Int_part_unique; lra).
  assert (E2 : Int_part 2.5 = 2%Z) by (apply Int_part_unique; lra).
  unfold py_round. rewrite E0, E1, E2.
  repeat split; by_cases_Rle; reflexivity.
Qed.

(** ** Tray icon *)

Lemma py_min_Zmin (x y : Z) : py_min x y = Z.min x y.
Proof.
  unfold py_min, py_lt, PyOrd_Z. destruct (Z.ltb_spec y x); lia.
Qed.

Lemma clamp_Z_to_nat (lv M : Z) :
  Z.to_nat (clamp lv 0%Z M) = Z.to_nat (Z.max 0 (Z.min M lv)).
Proof.
  unfold clamp, py_lt, PyOrd_Z.
  destruct (Z.ltb_spec lv 0); [lia|].
  destruct (Z.ltb_spec M lv); lia.
Qed.

Lemma make_spectrum_icon_Ok (levels : list Z) (M : Z) (bg : string) (size : Z) :
  levels <> [] -> M <> 0%Z ->
  make_spectrum_icon levels M bg size
  = Ok (icon_background bg size
        ++ flat_map (icon_bar levels M 4 (size - 5) (size - 5)
                              (icon_bar_w size (length levels)) 1
                              (icon_seg_h size M) 1)
                    (seq 0 (length levels))).
Proof.
  intros Hl HM. unfold make_spectrum_icon, py_floordiv.
  assert (Hn : Z.of_nat (length levels) <> 0%Z)
    by (destruct levels; [congruence | simpl; lia]).
  apply Z.eqb_neq in Hn. rewrite Hn. cbn [bind].
  apply Z.eqb_neq in HM. rewrite HM. cbn [bind].
  rewrite !py_max_Zmax. unfold icon_bar_w, icon_seg_h.
  replace (2 + 2)%Z with 4%Z by lia.
  replace (size - 2 - 3)%Z with (size - 5)%Z by lia.
  replace (size - 2 * 4 - 1 * (Z.of_nat (length levels) - 1))%Z
    with (size - 8 - (Z.of_nat (length levels) - 1))%Z by lia.
  replace (size - 5 - 4 - 1 * (M - 1))%Z with (size - 9 - (M - 1))%Z by lia.
  reflexivity.
Qed.

Lemma length_bar_segments x0 x1 inner_b seg_h seg_gap on lv :
  length (bar_segments x0 x1 inner_b seg_h seg_gap on lv) = Z.to_nat lv.
Proof. unfold bar_segments. rewrite length_map, length_seq. reflexivity. Qed.

Lemma bar_segments_all_segments x0 x1 inner_b seg_h seg_gap on lv :
  filter is_segment (bar_segments x0 x1 inner_b seg_h seg_gap on lv)
  = bar_segments x0 x1 inner_b seg_h seg_gap on lv.
Proof.
  unfold bar_segments. induction (seq 0 (Z.to_nat lv)) as [|a l IH]; simpl;
    [reflexivity | rewrite IH; reflexivity].
Qed.

Lemma icon_background_no_segment (bg : string) (size : Z) :
  filter is_segment (icon_background bg size) = [].
Proof.
  unfold icon_background.
  destruct (bg =? "transparent")%string; [reflexivity|].
  destruct (bg =? "white")%string; reflexivity.
Qed.

Lemma segments_of_bars (levels : list Z) (M il ir ib bw g sh sg : Z) :
  forall (pre : list Z) (rest : list Z),
    levels = pre ++ rest ->
    length (filter is_segment
              (flat_map (icon_bar levels M il ir ib bw g sh sg)
                        (seq (length pre) (length rest))))
    = lit_segments rest M.
Proof.
  intros pre rest. revert pre.
  induction rest as [|lv rest IH]; intros pre E; [reflexivity|].
  cbn [length seq flat_map lit_segments fold_right].
  rewrite filter_app, length_app.
  unfold icon_bar at 1. rewrite bar_segments_all_segments, length_bar_segments.
  rewrite E, app_nth2, Nat.sub_diag by lia. cbn [nth].
  rewrite clamp_Z_to_nat. f_equal.
  rewrite <- E.
  specialize (IH (pre ++ [lv])).
  rewrite length_app in IH. cbn [length] in IH.
  replace (length pre + 1)%nat with (S (length pre)) in IH by lia.
  apply IH. rewrite <- app_assoc. exact E.
Qed.

Lemma icon_bar_shape (levels : list Z) (M il ir ib bw g sh sg : Z) (bi : nat)
    (p : draw_op) :
  In p (icon_bar levels M il ir ib bw g sh sg bi) ->
  exists si on,
    (Z.of_nat si < clamp (nth bi levels 0%Z) 0%Z M)%Z
    /\ p = rectangle (il + Z.of_nat bi * (bw + g))
                     (ib - Z.of_nat si * (sh + sg) - sh)
                     (Z.min (il + Z.of_nat bi * (bw + g) + bw) ir)
                     (ib - Z.of_nat si * (sh + sg)) on.
Proof.
  unfold icon_bar, bar_segments. intros Hp.
  apply in_map_iff in Hp. destruct Hp as (si & <- & Hsi).
  apply in_seq in Hsi. exists si. eexists. split; [lia|].
  rewrite py_min_Zmin. reflexivity.
Qed.

Lemma bars_are_segments (levels : list Z) (M il ir ib bw g sh sg : Z)
    (l : list nat) (p : draw_op) :
  In p (flat_map (icon_bar levels M il ir ib bw g sh sg) l) ->
  is_segment p = true.
Proof.
  intros Hp. apply in_flat_map in Hp. destruct Hp as (bi & _ & Hp).
  apply icon_bar_shape in Hp. destruct Hp as (si & on & _ & ->). reflexivity.
Qed.

Lemma filter_all {A : Type} (f : A -> bool) (l : list A) :
  (forall x, In x l -> f x = true) -> filter f l = l.
Proof.
  induction l as [|x t IH]; intros H; simpl; [reflexivity|].
  rewrite (H x) by (left; reflexivity). f_equal.
  apply IH. intros y Hy. apply H. right. exact Hy.
Qed.

Lemma lit_segments_dark (levels : list Z) (M : Z) :
  Forall (fun lv => (lv <= 0)%Z) levels -> lit_segments levels M = 0%nat.
Proof.
  induction 1 as [|lv t Hlv _ IH]; simpl; [reflexivity|].
  rewrite IH. lia.
Qed.

Lemma make_spectrum_icon_Raise (levels : list Z) (M : Z) (bg : string)
    (size : Z) :
  levels = [] \/ M = 0%Z ->
  make_spectrum_icon levels M bg size = Raise ZeroDivisionError.
Proof.
  intros H. unfold make_spectrum_icon, py_floordiv.
  destruct levels as [|lv t]; [reflexivity|].
  destruct H as [H| ->]; [discriminate|].
  destruct (Z.of_nat (length (lv :: t)) =? 0)%Z; reflexivity.
Qed.

(** The icon cannot be drawn for an empty level vector or with zero
    levels per bar: both divisions by zero raise; on every other input
    the routine runs to its end and issues its draw calls. *)
Theorem icon_division_errors :
  forall (levels : list Z) (M : Z) (bg : string) (size : Z),
    (levels = [] \/ M = 0%Z ->
     make_spectrum_icon levels M bg size = Raise ZeroDivisionError)
    /\ (levels <> [] -> M <> 0%Z ->
        exists ops, make_spectrum_icon levels M bg size = Ok ops).
Proof.
  intros levels M bg size. split.
  - apply make_spectrum_icon_Raise.
  - intros Hl HM. eexists. apply make_spectrum_icon_Ok; assumption.
Qed.

Lemma icon_division_errors_witness :
  make_spectrum_icon [] 10 "black" ICON_SIZE = Raise ZeroDivisionError
  /\ make_spectrum_icon [3%Z] 0 "black" ICON_SIZE = Raise ZeroDivisionError.
Proof.
  split.
  - apply (proj1 (icon_division_errors [] 10 "black" ICON_SIZE)).
    left. reflexivity.
  - apply (proj1 (icon_division_errors [3%Z] 0 "black" ICON_SIZE)).
    right. reflexivity.
Defined.

(** Only lit segments are drawn: besides the background the drawing holds
    segment boxes only, as many as the levels clamped to [0, max_level] add
    up to; on a transparent background a vector without a positive level
    draws nothing at all. *)
Theorem icon_draws_only_lit_segments :
  forall (levels : list Z) (M : Z) (bg : string) (size : Z),
    levels <> [] -> M <> 0%Z ->
    exists ops,
      make_spectrum_icon levels M bg size = Ok ops
      /\ filter (fun p => negb (is_segment p)) ops = icon_background bg size
      /\ length (filter is_segment ops) = lit_segments levels M
      /\ (bg = "transparent"%string ->
          Forall (fun lv => (lv <= 0)%Z) levels -> ops = []).
Proof.
  intros levels M bg size Hl HM.
  eexists. split; [apply make_spectrum_icon_Ok; assumption|].
  set (bars := flat_map _ (seq 0 (length levels))).
  assert (Hbars : forall p, In p bars -> is_segment p = true)
    by (intros p Hp; eapply bars_are_segments; exact Hp).
  assert (Hcount : length (filter is_segment bars) = lit_segments levels M).
  { unfold bars. apply (segments_of_bars levels M _ _ _ _ _ _ _ [] levels).
    reflexivity. }
  assert (Hbg : forall p, In p (icon_background bg size) -> is_segment p = false).
  { intros p Hp.
    assert (Hin : In p (filter is_segment (icon_background bg size)) -> False)
      by (rewrite icon_background_no_segment; intros []).
    destruct (is_segment p) eqn:E; [|reflexivity].
    exfalso. apply Hin. apply filter_In. split; assumption. }
  split; [|split].
  - rewrite filter_app. rewrite (filter_none _ bars).
    + rewrite app_nil_r. apply filter_all.
      intros p Hp. rewrite (Hbg p Hp). reflexivity.
    + intros p Hp. rewrite (Hbars p Hp). reflexivity.
  - rewrite filter_app, icon_background_no_segment. exact Hcount.
  - intros -> Hdark. change (icon_background "transparent" size) with (@nil draw_op).
    cbn [app]. rewrite (filter_all is_segment bars Hbars) in Hcount.
    rewrite lit_segments_dark in Hcount by exact Hdark.
    destruct bars; [reflexivity | discriminate].
Qed.

Lemma icon_draws_only_lit_segments_witness :
  exists ops,
    make_spectrum_icon [0; 12; 3]%Z 10 "white" ICON_SIZE = Ok ops
    /\ filter (fun p => negb (is_segment p)) ops
       = icon_background "white" ICON_SIZE
    /\ length (filter is_segment ops) = lit_segments [0; 12; 3]%Z 10
    /\ ("white"%string = "transparent"%string ->
        Forall (fun lv => (lv <= 0)%Z) [0; 12; 3]%Z -> ops = []).
Proof.
  apply (icon_draws_only_lit_segments [0; 12; 3]%Z 10 "white" ICON_SIZE);
    discriminate.
Defined.

Example make_spectrum_icon_example :
  make_spectrum_icon [1; 0]%Z 10 "transparent" ICON_SIZE
  = Ok [rectangle 4 55 31 59 (255, 70, 70, 255)%Z].
Proof. reflexivity. Qed.

Lemma FOP_app {A : Type} (R : A -> A -> Prop) (l1 l2 : list A) :
  ForallOrdPairs R l1 -> ForallOrdPairs R l2 ->
  (forall a b, In a l1 -> In b l2 -> R a b) ->
  ForallOrdPairs R (l1 ++ l2).
Proof.
  intros H1 H2 H12. induction H1 as [|a l Ha Hl IH]; simpl; [exact H2|].
  constructor.
  - apply Forall_app. split; [exact Ha|].
    apply Forall_forall. intros b Hb. apply H12; [left; reflexivity | exact Hb].
  - apply IH. intros x y Hx Hy. apply H12; [right; exact Hx | exact Hy].
Qed.

Lemma FOP_map_seq {A : Type} (R : A -> A -> Prop) (g : nat -> A) (s n : nat) :
  (forall i j, (i < j)%nat -> R (g i) (g j)) ->
  ForallOrdPairs R (map g (seq s n)).
Proof.
  intros H. revert s; induction n as [|n IH]; intros s; simpl; constructor.
  - apply Forall_forall. intros b Hb. apply in_map_iff in Hb.
    destruct Hb as (j & <- & Hj). apply in_seq in Hj. apply H. lia.
  - apply IH.
Qed.

Lemma FOP_flat_map_seq {A : Type} (R : A -> A -> Prop) (f : nat -> list A)
    (s n : nat) :
  (forall i, ForallOrdPairs R (f i)) ->
  (forall i j a b, (i < j)%nat -> In a (f i) -> In b (f j) -> R a b) ->
  ForallOrdPairs R (flat_map f (seq s n)).
Proof.
  intros Hin Hout. revert s; induction n as [|n IH]; intros s; simpl;
    [constructor|].
  apply FOP_app; [apply Hin | apply IH|].
  intros a b Ha Hb. apply in_flat_map in Hb. destruct Hb as (j & Hj & Hb).
  apply in_seq in Hj. apply (Hout s j); [lia | exact Ha | exact Hb].
Qed.

(** The segments never overlap: two different boxes of the drawing share no
    pixel, whatever the size, band count and level count. *)
Theorem icon_segments_do_not_overlap :
  forall (levels : list Z) (M : Z) (bg : string) (size : Z) (ops : list draw_op),
    make_spectrum_icon levels M bg size = Ok ops ->
    ForallOrdPairs boxes_disjoint ops.
Proof.
  intros levels M bg size ops H.
  assert (Hl : levels <> []).
  { intros ->. rewrite make_spectrum_icon_Raise in H
      by (left; reflexivity). discriminate. }
  assert (HM : M <> 0%Z).
  { intros ->. rewrite make_spectrum_icon_Raise in H
      by (right; reflexivity). discriminate. }
  rewrite make_spectrum_icon_Ok in H by assumption. injection H as <-.
  assert (Hw : (2 <= icon_bar_w size (length levels))%Z)
    by (unfold icon_bar_w; lia).
  assert (Hh : (1 <= icon_seg_h size M)%Z) by (unfold icon_seg_h; lia).
  set (bw := icon_bar_w size (length levels)) in *.
  set (sh := icon_seg_h size M) in *.
  clearbody bw sh.
  apply FOP_app.
  - unfold icon_background.
    destruct (bg =? "transparent")%string; [constructor|].
    destruct (bg =? "white")%string; repeat constructor.
  - apply FOP_flat_map_seq.
    + intros bi. unfold icon_bar, bar_segments. apply FOP_map_seq.
      intros i j Hij.
      assert (Hstep : ((Z.of_nat i + 1) * (sh + 1) <= Z.of_nat j * (sh + 1))%Z)
        by (apply Z.mul_le_mono_nonneg_r; lia).
      cbn [boxes_disjoint]. right; right; right. lia.
    + intros i j a b Hij Ha Hb.
      apply icon_bar_shape in Ha, Hb.
      destruct Ha as (si & on & _ & ->). destruct Hb as (sj & on' & _ & ->).
      assert (Hstep : ((Z.of_nat i + 1) * (bw + 1) <= Z.of_nat j * (bw + 1))%Z)
        by (apply Z.mul_le_mono_nonneg_r; lia).
      cbn [boxes_disjoint]. left. lia.
  - intros a b Ha Hb. unfold icon_background in Ha.
    destruct (bg =? "transparent")%string; [destruct Ha|].
    destruct (bg =? "white")%string; destruct Ha as [<-|[]]; exact I.
Qed.

Lemma icon_segments_do_not_overlap_witness :
  ForallOrdPairs boxes_disjoint [rectangle 4 55 31 59 (255, 70, 70, 255)%Z].
Proof.
  apply (icon_segments_do_not_overlap [1; 0]%Z 10 "transparent" ICON_SIZE).
  reflexivity.
Defined.

Lemma icon_boxes_in_area (levels : list Z) (M : Z) (bg : string) (size : Z)
    (p : draw_op) :
  levels <> [] -> (1 <= M)%Z ->
  (3 * Z.of_nat (length levels) - 1 <= size - 8)%Z ->
  (2 * M - 1 <= size - 9)%Z ->
  In p (icon_background bg size
        ++ flat_map (icon_bar levels M 4 (size - 5) (size - 5)
                              (icon_bar_w size (length levels)) 1
                              (icon_seg_h size M) 1)
                    (seq 0 (length levels))) ->
  is_segment p = true -> segment_in_area size p.
Proof.
  intros Hl HM Hfitw Hfith Hp Hseg. apply in_app_or in Hp. destruct Hp as [Hp|Hp].
  - exfalso.
    assert (Hf : In p (filter is_segment (icon_background bg size)))
      by (apply filter_In; split; assumption).
    rewrite icon_background_no_segment in Hf. exact Hf.
  - apply in_flat_map in Hp. destruct Hp as (bi & Hbi & Hp).
    apply in_seq in Hbi. apply icon_bar_shape in Hp.
    destruct Hp as (si & on & Hsi & ->).
    rewrite clamp_Z in Hsi by lia.
    set (n := Z.of_nat (length levels)) in *.
    assert (Hn : (1 <= n)%Z) by (subst n; destruct levels; [congruence | simpl; lia]).
    assert (Hw : icon_bar_w size (length levels) = ((size - 8 - (n - 1)) / n)%Z).
    { unfold icon_bar_w. fold n. apply Z.max_r.
      apply Z.div_le_lower_bound; lia. }
    assert (Hh : icon_seg_h size M = ((size - 9 - (M - 1)) / M)%Z).
    { unfold icon_seg_h. apply Z.max_r. apply Z.div_le_lower_bound; lia. }
    pose proof (Z.mul_div_le (size - 8 - (n - 1)) n ltac:(lia)) as Hqw.
    pose proof (Z.mul_div_le (size - 9 - (M - 1)) M ltac:(lia)) as Hqh.
    assert (Hw2 : (2 <= (size - 8 - (n - 1)) / n)%Z)
      by (apply Z.div_le_lower_bound; lia).
    assert (Hh1 : (1 <= (size - 9 - (M - 1)) / M)%Z)
      by (apply Z.div_le_lower_bound; lia).
    rewrite Hw, Hh.
    set (bw := ((size - 8 - (n - 1)) / n)%Z) in *.
    set (sh := ((size - 9 - (M - 1)) / M)%Z) in *.
    assert (Hbi' : (Z.of_nat bi <= n - 1)%Z) by (subst n; lia).
    assert (Hx : (Z.of_nat bi * (bw + 1) <= (n - 1) * (bw + 1))%Z) by nia.
    assert (Hsi' : (Z.of_nat si <= M - 1)%Z) by lia.
    assert (Hy : (Z.of_nat si * (sh + 1) <= (M - 1) * (sh + 1))%Z) by nia.
    assert (Hx0 : (0 <= Z.of_nat bi * (bw + 1))%Z)
      by (apply Z.mul_nonneg_nonneg; lia).
    assert (Hy0 : (0 <= Z.of_nat si * (sh + 1))%Z)
      by (apply Z.mul_nonneg_nonneg; lia).
    clear Hseg Hw Hh. clearbody bw sh n.
    cbn [segment_in_area]. lia.
Qed.

(** When the bars and segments fit the canvas (three pixels per band and
    two per level are available), every segment box is well formed and lies
    inside the inner drawing area, four pixels from the left and top edge
    and five from the right and bottom edge. *)
Theorem icon_segments_inside_canvas :
  forall (levels : list Z) (M : Z) (bg : string) (size : Z),
    levels <> [] -> (1 <= M)%Z ->
    (3 * Z.of_nat (length levels) - 1 <= size - 8)%Z ->
    (2 * M - 1 <= size - 9)%Z ->
    exists ops,
      make_spectrum_icon levels M bg size = Ok ops
      /\ forall p, In p ops -> is_segment p = true -> segment_in_area size p.
Proof.
  intros levels M bg size Hl HM Hfitw Hfith.
  eexists. split; [apply make_spectrum_icon_Ok; [assumption | lia]|].
  intros p. apply icon_boxes_in_area; assumption.
Qed.

Lemma icon_segments_inside_canvas_witness :
  exists ops,
    make_spectrum_icon [10; 10; 10; 10; 10; 10; 10; 10]%Z 10 "black" ICON_SIZE
    = Ok ops
    /\ forall p, In p ops -> is_segment p = true -> segment_in_area ICON_SIZE p.
Proof.
  apply (icon_segments_inside_canvas [10; 10; 10; 10; 10; 10; 10; 10]%Z 10
           "black" ICON_SIZE); [discriminate | lia | simpl; unfold ICON_SIZE; lia
                                | unfold ICON_SIZE; lia].
Defined.

(** ** [clamp] *)

(** For ordered bounds [clamp] returns a value between them, leaves a
    value between them unchanged, and is idempotent; this holds on ints and
    on floats. *)
Theorem clamp_between_bounds :
  (forall x a b : Z,
      (a <= b)%Z ->
      (a <= clamp x a b <= b)%Z
      /\ ((a <= x <= b)%Z -> clamp x a b = x)
      /\ clamp (clamp x a b) a b = clamp x a b)
  /\ (forall x a b : R,
        a <= b ->
        a <= clamp x a b <= b
        /\ (a <= x <= b -> clamp x a b = x)
        /\ clamp (clamp x a b) a b = clamp x a b).
Proof.
  split.
  - intros x a b Hab. rewrite !clamp_Z by exact Hab. lia.
  - intros x a b Hab.
    assert (Hid : forall y, a <= y <= b -> clamp y a b = y).
    { intros y Hy. unfold clamp, py_lt, PyOrd_R, Rlt_b.
      destruct (Rlt_dec y a); [lra|]. destruct (Rlt_dec b y); [lra | reflexivity]. }
    assert (Hb : a <= clamp x a b <= b).
    { unfold clamp, py_lt, PyOrd_R, Rlt_b.
      destruct (Rlt_dec x a); [lra|]. destruct (Rlt_dec b x); lra. }
    split; [exact Hb|]. split; [apply Hid | apply Hid; exact Hb].
Qed.

Lemma clamp_between_bounds_witness :
  (0 <= clamp 12 0 10 <= 10)%Z
  /\ ((0 <= 12 <= 10)%Z -> clamp 12%Z 0%Z 10%Z = 12%Z)
  /\ clamp (clamp 12%Z 0%Z 10%Z) 0%Z 10%Z = clamp 12%Z 0%Z 10%Z.
Proof. apply (proj1 clamp_between_bounds 12%Z 0%Z 10%Z). lia. Defined.

(** ** Menu *)

Lemma checked_range_after_set (r r' : R) (m : meter) :
  checked_range r' (_set_db_range r m) = true <-> Rabs (r - r') < 1e-6.
Proof. unfold checked_range. rewrite Rlt_b_true. reflexivity. Qed.

Lemma checked_alpha_after_set (a a' : R) (m : meter) :
  checked_alpha a' (_set_denoise_alpha a m) = true <-> Rabs (a - a') < 1e-9.
Proof. unfold checked_alpha. rewrite Rlt_b_true. reflexivity. Qed.

Ltac by_cases_Rabs :=
  unfold Rabs;
  repeat match goal with
         | |- context [Rcase_abs ?u] => destruct (Rcase_abs u)
         | H : context [Rcase_abs ?u] |- _ => destruct (Rcase_abs u)
         end; try lra.

(** Each menu group behaves as a radio group: after picking one of its
    offered values, exactly that item of the group is shown checked; the
    denoise toggle flips its check mark; none of these actions touches the
    other settings' check marks of a different group. *)
Theorem menu_groups_are_radio_groups :
  forall (m : meter),
    (forall r r', In r db_range_choices -> In r' db_range_choices ->
        (checked_range r' (run_action (action_range r) m) = true <-> r' = r))
    /\ (forall a a', In a denoise_strength_choices ->
          In a' denoise_strength_choices ->
          (checked_alpha a' (run_action (action_alpha a) m) = true <-> a' = a))
    /\ (forall mode mode',
          checked_bg mode' (run_action (action_bg mode) m) = true
          <-> mode' = mode)
    /\ (forall mode mode',
          checked_stat mode' (run_action (action_stat mode) m) = true
          <-> mode' = mode)
    /\ checked_denoise (run_action action_toggle_denoise m)
       = negb (checked_denoise m)
    /\ (forall mode r, checked_range r (run_action (action_bg mode) m)
                       = checked_range r m)
    /\ (forall r mode, checked_stat mode (run_action (action_range r) m)
                       = checked_stat mode m).
Proof.
  intros m.
  split.
  { intros r r' Hr Hr'. split.
    - intros H1. cbn [run_action] in H1. apply checked_range_after_set in H1.
      unfold db_range_choices in Hr, Hr'. simpl in Hr, Hr'.
      destruct Hr as [<-|[<-|[<-|[]]]]; destruct Hr' as [<-|[<-|[<-|[]]]];
        try reflexivity; exfalso; revert H1; by_cases_Rabs.
    - intros ->. cbn [run_action]. apply checked_range_after_set.
      replace (r - r) with 0 by ring. rewrite Rabs_R0. lra. }
  split.
  { intros a a' Ha Ha'. split.
    - intros H1. cbn [run_action] in H1. apply checked_alpha_after_set in H1.
      unfold denoise_strength_choices in Ha, Ha'. simpl in Ha, Ha'.
      destruct Ha as [<-|[<-|[<-|[]]]]; destruct Ha' as [<-|[<-|[<-|[]]]];
        try reflexivity; exfalso; revert H1; by_cases_Rabs.
    - intros ->. cbn [run_action]. apply checked_alpha_after_set.
      replace (a - a) with 0 by ring. rewrite Rabs_R0. lra. }
  split.
  { intros mode mode'. split.
    - intros H. apply String.eqb_eq in H. symmetry. exact H.
    - intros ->. apply String.eqb_refl. }
  split.
  { intros mode mode'. split.
    - intros H. apply String.eqb_eq in H. symmetry. exact H.
    - intros ->. apply String.eqb_refl. }
  repeat split.
Qed.

Lemma menu_groups_are_radio_groups_witness :
  checked_range 45 (run_action (action_range 60)
                      {| cfg := default_config 10; noise_band_db := None;
                         force_redraw := false; learn_noise := false |})
  = true <-> 45 = 60.
Proof.
  apply (proj1 (menu_groups_are_radio_groups
                  {| cfg := default_config 10; noise_band_db := None;
                     force_redraw := false; learn_noise := false |}) 60 45);
    unfold db_range_choices; simpl; auto.
Defined.

(** ** Double click *)

Lemma click_opens (now last : R) :
  snd (_on_default_primary_click now last) = true
  <-> now - last <= _double_click_gap.
Proof.
  unfold _on_default_primary_click.
  destruct (Rle_dec (now - last) _double_click_gap); simpl; split; intros;
    auto; discriminate || contradiction.
Qed.

Lemma click_state (now last : R) :
  fst (_on_default_primary_click now last)
  = if snd (_on_default_primary_click now last) then 0 else now.
Proof.
  unfold _on_default_primary_click.
  destruct (Rle_dec (now - last) _double_click_gap); reflexivity.
Qed.

Lemma clicks_after_open (times : list R) :
  Forall (fun t => _double_click_gap < t) times ->
  match clicks 0 times with
  | first :: _ => first = false
  | [] => True
  end.
Proof.
  intros H. destruct times as [|t rest]; simpl; [exact I|].
  inversion H as [|? ? Ht _]; subst.
  destruct (snd (_on_default_primary_click t 0)) eqn:E; [|reflexivity].
  apply click_opens in E. lra.
Qed.

(** A click opens the website exactly when it comes at most 0.35 s after
    the remembered click time; an opening click forgets the time, any other
    click remembers its own.  So, once the monotonic clock is past 0.35 s,
    two clicks in a row never both open the site, and a triple click opens
    it once. *)
Theorem double_click_opens_once :
  (forall now last,
      (snd (_on_default_primary_click now last) = true
       <-> now - last <= 0.35)
      /\ fst (_on_default_primary_click now last)
         = if snd (_on_default_primary_click now last) then 0 else now)
  /\ (forall last times,
        Forall (fun t => 0.35 < t) times ->
        no_two_in_a_row (clicks last times))
  /\ (forall last t1 t2 t3,
        0.35 < t1 - last -> t2 - t1 <= 0.35 -> 0.35 < t3 ->
        clicks last [t1; t2; t3] = [false; true; false]).
Proof.
  split; [|split].
  - intros now last. split; [apply click_opens | apply click_state].
  - intros last times. revert last.
    induction times as [|t rest IH]; intros last H; [exact I|].
    inversion H as [|? ? Ht Hrest]; subst.
    destruct rest as [|t' rest']; [exact I|].
    change (clicks last (t :: t' :: rest'))
      with (snd (_on_default_primary_click t last)
            :: clicks (fst (_on_default_primary_click t last)) (t' :: rest')).
    split; [|apply IH; exact Hrest].
    intros Hopen. rewrite click_state, Hopen.
    exact (clicks_after_open (t' :: rest') Hrest).
  - intros last t1 t2 t3 H1 H2 H3.
    assert (E1 : snd (_on_default_primary_click t1 last) = false).
    { destruct (snd (_on_default_primary_click t1 last)) eqn:E; [|reflexivity].
      apply click_opens in E. unfold _double_click_gap in E. lra. }
    assert (E2 : snd (_on_default_primary_click t2 t1) = true)
      by (apply click_opens; unfold _double_click_gap; lra).
    assert (E3 : snd (_on_default_primary_click t3 0) = false).
    { destruct (snd (_on_default_primary_click t3 0)) eqn:E; [|reflexivity].
      apply click_opens in E. unfold _double_click_gap in E. lra. }
    cbn [clicks]. rewrite (click_state t1 last), E1.
    rewrite (click_state t2 t1), E2, E3. reflexivity.
Qed.

Lemma double_click_opens_once_witness :
  clicks 0 [10; 10.2; 10.3] = [false; true; false].
Proof.
  apply (proj2 (proj2 double_click_opens_once) 0 10 10.2 10.3); lra.
Defined.

(** ** Recording source *)

Lemma find_first {A : Type} (f : A -> bool) (l : list A) (x : A) :
  find f l = Some x ->
  exists l1 l2, l = l1 ++ x :: l2 /\ f x = true
                /\ forall y, In y l1 -> f y = false.
Proof.
  induction l as [|a t IH]; simpl; [discriminate|].
  destruct (f a) eqn:E.
  - intros H. injection H as <-. exists [], t. repeat split; auto.
    intros y [].
  - intros H. destruct (IH H) as (l1 & l2 & -> & Hx & Hl1).
    exists (a :: l1), l2. repeat split; auto.
    intros y [<-|Hy]; [exact E | apply Hl1; exact Hy].
Qed.

Lemma find_preferred_None (lower : string -> string) (keys mics : list string) :
  find_preferred lower keys mics = None
  <-> forall key m, In key keys -> In m mics ->
                    str_in (lower key) (lower m) = false.
Proof.
  induction keys as [|k rest IH]; simpl.
  - split; [intros _ key m [] | reflexivity].
  - destruct (find (fun m => str_in (lower k) (lower m)) mics) as [m0|] eqn:E.
    + split; [discriminate|]. intros H. exfalso.
      apply find_some in E. destruct E as [Hin Hm].
      rewrite (H k m0) in Hm by auto. discriminate.
    + rewrite IH. split.
      * intros H key m [<-|Hk] Hm; [|apply H; assumption].
        exact (find_none _ _ E m Hm).
      * intros H key m Hk Hm. apply H; auto.
Qed.

Lemma find_preferred_order (lower : string -> string)
    (pre : list string) (key : string) (post mics : list string) :
  (forall k m, In k pre -> In m mics -> str_in (lower k) (lower m) = false) ->
  find_preferred lower (pre ++ key :: post) mics
  = match find (fun m => str_in (lower key) (lower m)) mics with
    | Some m => Some m
    | None => find_preferred lower post mics
    end.
Proof.
  induction pre as [|k rest IH]; intros H; [reflexivity|].
  simpl.
  destruct (find (fun m => str_in (lower k) (lower m)) mics) as [m0|] eqn:E.
  - exfalso. apply find_some in E. destruct E as [Hin Hm].
    rewrite (H k m0) in Hm by (simpl; auto). discriminate.
  - apply IH. intros k' m Hk Hm. apply H; simpl; auto.
Qed.

Lemma find_preferred_Some (lower : string -> string) (keys mics : list string)
    (m : string) :
  find_preferred lower keys mics = Some m ->
  exists key, In key keys /\ In m mics /\ str_in (lower key) (lower m) = true.
Proof.
  induction keys as [|k rest IH]; simpl; [discriminate|].
  destruct (find (fun m => str_in (lower k) (lower m)) mics) as [m0|] eqn:E.
  - intros H. injection H as <-. apply find_some in E. destruct E as [Hin Hm].
    exists k. auto.
  - intros H. destruct (IH H) as (key & Hk & Hm & Hmatch).
    exists key. auto.
Qed.

(** On Windows the loopback of the default speaker is chosen, without a
    hint.  On macOS the hint is empty exactly when some microphone name
    contains one of the preferred names (case-insensitively); the chosen
    microphone is then the first one in the device list that contains the
    earliest matching preferred name, so the order of the preferred names
    beats the order of the devices; without a match, and on every other
    platform, the default microphone is chosen and a non-empty hint tells
    so. *)
Theorem recording_source_choice :
  forall (lower : string -> string) (sc : soundcard) (sys_platform : string)
         (prefs : list string),
    let r := pick_recording_source lower sc sys_platform prefs in
    let matches := fun key m => str_in (lower key) (lower m) = true in
    (String.prefix "win" (lower sys_platform) = true ->
     r = (loopback_of (default_speaker sc), ""%string))
    /\ (String.prefix "win" (lower sys_platform) = false ->
        lower sys_platform = "darwin"%string ->
        (snd r = ""%string
         <-> exists key m, In key prefs /\ In m (all_microphones sc)
                           /\ matches key m)
        /\ (forall pre key post,
              prefs = pre ++ key :: post ->
              (forall k m, In k pre -> In m (all_microphones sc) ->
                           ~ matches k m) ->
              (exists m, In m (all_microphones sc) /\ matches key m) ->
              exists before m after,
                all_microphones sc = before ++ m :: after
                /\ r = (microphone m, ""%string)
                /\ matches key m
                /\ forall m', In m' before -> ~ matches key m')
        /\ (snd r <> ""%string ->
            fst r = microphone (default_microphone sc)))
    /\ (String.prefix "win" (lower sys_platform) = false ->
        lower sys_platform <> "darwin"%string ->
        fst r = microphone (default_microphone sc) /\ snd r <> ""%string).
Proof.
  intros lower sc sys_platform prefs r matches. subst r matches.
  unfold pick_recording_source.
  split; [intros ->; reflexivity|].
  split.
  - intros -> Hd. rewrite Hd. cbn [String.eqb Ascii.eqb Bool.eqb andb].
    change (("darwin" =? "darwin")%string) with true. cbv iota.
    split; [|split].
    + destruct (find_preferred lower prefs (all_microphones sc)) as [m|] eqn:E.
      * split; [intros _|reflexivity].
        destruct (find_preferred_Some _ _ _ _ E) as (key & Hk & Hm & Hmatch).
        exists key, m. auto.
      * split; [discriminate|].
        intros (key & m & Hk & Hm & Hmatch).
        rewrite (proj1 (find_preferred_None _ _ _) E key m Hk Hm) in Hmatch.
        discriminate.
    + intros pre key post -> Hpre (m0 & Hm0 & Hmatch0).
      rewrite find_preferred_order.
      * destruct (find (fun m => str_in (lower key) (lower m))
                       (all_microphones sc)) as [m|] eqn:E.
        -- destruct (find_first _ _ _ E) as (l1 & l2 & Hl & Hm & Hl1).
           exists l1, m, l2. repeat split; auto.
           intros m' Hm' Hc. rewrite (Hl1 m' Hm') in Hc. discriminate.
        -- exfalso. rewrite (find_none _ _ E m0 Hm0) in Hmatch0. discriminate.
      * intros k m Hk Hm. specialize (Hpre k m Hk Hm).
        destruct (str_in (lower k) (lower m)); [contradiction | reflexivity].
    + destruct (find_preferred lower prefs (all_microphones sc)); simpl;
        [intros H; contradiction H; reflexivity | reflexivity].
  - intros -> Hd. apply String.eqb_neq in Hd. rewrite Hd.
    split; [reflexivity | discriminate].
Qed.

Lemma recording_source_choice_witness :
  pick_recording_source (fun s => s)
    {| default_speaker := "Speakers"; all_microphones := ["Mic"%string];
       default_microphone := "Mic" |} "win32" default_prefer_names
  = (loopback_of "Speakers", ""%string).
Proof.
  apply (proj1 (recording_source_choice (fun s => s)
                  {| default_speaker := "Speakers"; all_microphones := ["Mic"%string];
                     default_microphone := "Mic" |} "win32"
                  default_prefer_names)).
  reflexivity.
Defined.

Example pick_recording_source_example :
  pick_recording_source (fun s => s)
    {| default_speaker := "Speakers";
       all_microphones := ["Loopback Audio"; "Built-in"; "BlackHole 2ch"]%string;
       default_microphone := "Built-in" |} "darwin" default_prefer_names
  = (microphone "BlackHole 2ch", ""%string).
Proof. reflexivity. Qed.

(** ** The worker's frame as a whole *)

Lemma learn_inv (sr nfft : Z) (bins : list (nat * nat)) (m m1 : meter)
    (rec : nat -> tick) (pos pos' : nat) :
  learn sr nfft bins m rec pos = Ok (m1, pos') ->
  cfg m1 = cfg m /\ learn_noise m1 = false
  /\ (force_redraw m = true -> force_redraw m1 = true)
  /\ (learn_noise m = false -> m1 = m /\ pos' = pos).
Proof.
  unfold learn. destruct (learn_noise m) eqn:Hl.
  - destruct (learn_frames sr nfft) as [n|e]; cbn [bind]; [|discriminate].
    destruct (learn_loop bins (Z.to_nat n) rec pos []) as [[buf p]|e];
      cbn [bind fst snd]; [|discriminate].
    destruct buf; intros H; injection H as <- <-; cbn;
      repeat split; auto; discriminate.
  - intros H. injection H as <- <-. repeat split; auto.
Qed.

Lemma worker_frame_inv (sr nfft : Z) (bins : list (nat * nat)) (m m' : meter)
    (w w' : locals) (mag : list R) (rec : nat -> tick) (pos pos' : nat)
    (shown : option icon) :
  worker_frame sr nfft bins m w mag rec pos = Ok (m', w', shown, pos') ->
  exists m1 peaks levels,
    learn sr nfft bins m rec pos = Ok (m1, pos')
    /\ bands_loop (cfg m1) (noise_band_db m1) (mag_to_db mag) 0 bins
                  (band_peak_db w) [] = Ok (peaks, levels)
    /\ redraw (force_redraw m1)
              {| band_peak_db := peaks; last_levels := last_levels w;
                 last_db_range := last_db_range w;
                 last_bg_mode := last_bg_mode w;
                 last_stat_mode := last_stat_mode w |} levels (cfg m1)
       = (force_redraw m', w', shown)
    /\ cfg m' = cfg m1 /\ noise_band_db m' = noise_band_db m1
    /\ learn_noise m' = learn_noise m1.
Proof.
  unfold worker_frame.
  destruct (learn sr nfft bins m rec pos) as [[m1 p1]|e] eqn:El;
    cbn [bind fst snd]; [|discriminate].
  destruct (bands_loop (cfg m1) (noise_band_db m1) (mag_to_db mag) 0 bins
              (band_peak_db w) []) as [[peaks levels]|e] eqn:Eb;
    cbn [bind fst snd]; [|discriminate].
  destruct (redraw (force_redraw m1) _ levels (cfg m1)) as [[flag w1] sh] eqn:Er.
  intros H. injection H as <- <- <- <-.
  exists m1, peaks, levels. cbn. rewrite Er. repeat split; auto.
Qed.

Lemma redraw_peaks (flag : bool) (w : locals) (levels : list Z) (c : config) :
  band_peak_db (snd (fst (redraw flag w levels c))) = band_peak_db w.
Proof.
  unfold redraw.
  destruct flag;
    match goal with
    | |- context [if ?b then _ else _] => destruct b
    end; reflexivity.
Qed.


Lemma bands_loop_peaks (c : config) nb db (bins : list (nat * nat)) :
  forall i peaks levels peaks' levels',
    bands_loop c nb db i bins peaks levels = Ok (peaks', levels') ->
    length peaks' = length peaks
    /\ forall j p,
        nth_error peaks j = Some p ->
        exists p', nth_error peaks' j = Some p'
                   /\ p - 0.06 <= p'
                   /\ ((j < i)%nat \/ (i + length bins <= j)%nat -> p' = p).
Proof.
  induction bins as [|ab rest IH]; intros i peaks levels peaks' levels' H.
  - simpl in H. injection H as <- <-. split; [reflexivity|].
    intros j p Hp. exists p. repeat split; auto. lra.
  - simpl in H.
    destruct (band_step c nb db i ab peaks) as [[pk lv]|e] eqn:Hs;
      cbn [bind fst snd] in H; [|discriminate].
    destruct (band_step_inv _ _ _ _ _ _ _ _ Hs) as (b & p0 & _ & Hp0 & -> & _).
    destruct (IH _ _ _ _ _ H) as (Hlen & Hpk).
    split; [rewrite Hlen; apply length_list_set|].
    intros j p Hp.
    destruct (Nat.eq_dec j i) as [->|Hne].
    + assert (p0 = p) by congruence. subst p0.
      destruct (Hpk i (peak_update b p)
                  (nth_error_list_set_eq _ _ _ _ Hp)) as (p' & Hp' & _ & Heq).
      exists p'. split; [exact Hp'|].
      rewrite (Heq ltac:(left; lia)).
      split; [rewrite peak_update_Rmax; apply Rmax_r|].
      simpl. intros [Hc|Hc]; lia.
    + rewrite <- (nth_error_list_set_neq peaks i j (peak_update b p0) Hne) in Hp.
      destruct (Hpk j p Hp) as (p' & Hp' & Hge & Heq).
      exists p'. repeat split; auto.
      simpl. intros [Hc|Hc]; apply Heq; lia.
Qed.


(** ** More on the normaliser *)

Lemma py_round_error (x : R) : Rabs (IZR (py_round x) - x) <= 1 / 2.
Proof.
  destruct (Int_part_bounds x) as [Hlo Hhi]. unfold py_round.
  destruct (Rlt_dec (x - IZR (Int_part x)) (1 / 2)).
  - apply Rabs_le. lra.
  - destruct (Rlt_dec (1 / 2) (x - IZR (Int_part x))).
    + rewrite plus_IZR. apply Rabs_le. lra.
    + destruct (Z.even (Int_part x)); [|rewrite plus_IZR]; apply Rabs_le; lra.
Qed.

Lemma spec_level_unclamped (b pk range : R) (M : Z) :
  (0 <= M)%Z ->
  spec_level b pk range M
  = py_round (Rmax 0 (Rmin 1 ((b - (pk - range)) / range)) * IZR M).
Proof.
  intros HM. unfold spec_level.
  set (t := Rmax 0 (Rmin 1 ((b - (pk - range)) / range))).
  assert (Ht : 0 <= t <= 1).
  { unfold t. split; [apply Rmax_l|].
    apply Rmax_lub; [lra | apply Rmin_l]. }
  assert (HMr : 0 <= IZR M) by (apply IZR_le; exact HM).
  assert (H0 : (0 <= py_round (t * IZR M))%Z) by (apply py_round_nonneg; nra).
  assert (H1 : (py_round (t * IZR M) <= M)%Z).
  { rewrite <- (py_round_IZR M) at 2. apply py_round_mono. nra. }
  lia.
Qed.

(** The level is the nearest integer to [t * maxLevel], where [t] is the
    clamped position of the input between floor and peak: the integer clamp
    never changes it, and it is off by at most half a segment. *)
Theorem level_is_within_half_a_segment :
  forall (b pk range : R) (M lv : Z),
    0 < range -> (0 <= M)%Z ->
    normalize b pk range M = Ok lv ->
    let t := clamp ((b - (pk - range)) / range) 0 1 in
    lv = py_round (t * IZR M) /\ Rabs (IZR lv - t * IZR M) <= 1 / 2.
Proof.
  intros b pk range M lv Hr HM H t.
  rewrite normalize_spec in H by assumption. injection H as <-.
  unfold t. rewrite clamp_R by lra.
  rewrite spec_level_unclamped by exact HM.
  split; [reflexivity | apply py_round_error].
Qed.

Lemma level_is_within_half_a_segment_witness :
  let t := clamp ((-40 - (-10 - 60)) / 60) 0 1 in
  5%Z = py_round (t * IZR 10) /\ Rabs (IZR 5 - t * IZR 10) <= 1 / 2.
Proof.
  apply (level_is_within_half_a_segment (-40) (-10) 60 10 5);
    [lra | lia | apply normalize_scenario].
Defined.

Lemma spec_level_peak_antitone (b pk1 pk2 range : R) (M : Z) :
  0 < range -> (0 <= M)%Z -> pk1 <= pk2 ->
  (spec_level b pk2 range M <= spec_level b pk1 range M)%Z.
Proof.
  intros Hr HM Hpk. unfold spec_level.
  assert (Hinv : 0 < / range) by (apply Rinv_0_lt_compat; exact Hr).
  assert (Ht : (b - (pk2 - range)) / range <= (b - (pk1 - range)) / range).
  { unfold Rdiv. apply Rmult_le_compat_r; lra. }
  assert (Hc : Rmax 0 (Rmin 1 ((b - (pk2 - range)) / range))
               <= Rmax 0 (Rmin 1 ((b - (pk1 - range)) / range))).
  { apply Rle_max_compat_l. apply Rle_min_compat_l. exact Ht. }
  assert (HMr : 0 <= IZR M) by (apply IZR_le; exact HM).
  pose proof (py_round_mono _ _ (Rmult_le_compat_r _ _ _ HMr Hc)).
  lia.
Qed.

Lemma spec_level_range_monotone (b pk r1 r2 : R) (M : Z) :
  0 < r1 -> r1 <= r2 -> (0 <= M)%Z -> b <= pk ->
  (spec_level b pk r1 M <= spec_level b pk r2 M)%Z.
Proof.
  intros H1 H12 HM Hb. unfold spec_level.
  assert (Hi1 : 0 < / r1) by (apply Rinv_0_lt_compat; exact H1).
  assert (Hi2 : 0 < / r2) by (apply Rinv_0_lt_compat; lra).
  assert (Hi : / r2 <= / r1) by (apply Rinv_le_contravar; lra).
  assert (Ht : (b - (pk - r1)) / r1 <= (b - (pk - r2)) / r2).
  { replace ((b - (pk - r1)) / r1) with (1 + (b - pk) * / r1) by (field; lra).
    replace ((b - (pk - r2)) / r2) with (1 + (b - pk) * / r2) by (field; lra).
    nra. }
  assert (Hc : Rmax 0 (Rmin 1 ((b - (pk - r1)) / r1))
               <= Rmax 0 (Rmin 1 ((b - (pk - r2)) / r2))).
  { apply Rle_max_compat_l. apply Rle_min_compat_l. exact Ht. }
  assert (HMr : 0 <= IZR M) by (apply IZR_le; exact HM).
  pose proof (py_round_mono _ _ (Rmult_le_compat_r _ _ _ HMr Hc)).
  lia.
Qed.

(** For a fixed input at or below the peak, a wider dynamic range never
    lowers the level, and a higher peak never raises it. *)
Theorem level_grows_with_range_and_falls_with_peak :
  forall (b pk pk' r1 r2 : R) (M : Z),
    0 < r1 -> r1 <= r2 -> (0 <= M)%Z -> b <= pk -> pk <= pk' ->
    exists l1 l2 l',
      normalize b pk r1 M = Ok l1 /\ normalize b pk r2 M = Ok l2
      /\ normalize b pk' r1 M = Ok l'
      /\ (l1 <= l2)%Z /\ (l' <= l1)%Z.
Proof.
  intros b pk pk' r1 r2 M H1 H12 HM Hb Hpk.
  exists (spec_level b pk r1 M), (spec_level b pk r2 M), (spec_level b pk' r1 M).
  rewrite !normalize_spec by (lra || assumption).
  repeat split.
  - apply spec_level_range_monotone; assumption.
  - apply spec_level_peak_antitone; assumption.
Qed.

Lemma level_grows_with_range_and_falls_with_peak_witness :
  exists l1 l2 l',
    normalize (-40) (-10) 45 10 = Ok l1 /\ normalize (-40) (-10) 60 10 = Ok l2
    /\ normalize (-40) (-5) 45 10 = Ok l'
    /\ (l1 <= l2)%Z /\ (l' <= l1)%Z.
Proof.
  apply (level_grows_with_range_and_falls_with_peak (-40) (-10) (-5) 45 60 10);
    lra || lia.
Defined.

Lemma peak_after_decreasing (b p : R) (n : nat) :
  (1 <= n)%nat -> peak_after b (S n) p <= peak_after b n p.
Proof.
  intros Hn. destruct n as [|n]; [lia|].
  rewrite !peak_after_S. rewrite (S_INR (S n)).
  apply Rle_max_compat_l. lra.
Qed.

(** Under a constant input the level never falls from one frame to the
    next (the ceiling sinks towards the input), and once the ceiling has
    reached the input, after [n] frames with [p - n * 0.06 <= b], every
    frame shows the full bar, however quiet the input is. *)
Theorem constant_input_fills_the_bar :
  forall (b p range : R) (M : Z) (n : nat),
    0 < range -> (0 <= M)%Z -> (1 <= n)%nat ->
    (exists l l',
        normalize b (peak_after b n p) range M = Ok l
        /\ normalize b (peak_after b (S n) p) range M = Ok l'
        /\ (l <= l')%Z)
    /\ (p - INR n * 0.06 <= b ->
        forall k, (n <= k)%nat ->
                  normalize b (peak_after b k p) range M = Ok M).
Proof.
  intros b p range M n Hr HM Hn. split.
  - exists (spec_level b (peak_after b n p) range M),
           (spec_level b (peak_after b (S n) p) range M).
    rewrite !normalize_spec by assumption. repeat split.
    apply spec_level_peak_antitone; try assumption.
    apply peak_after_decreasing. exact Hn.
  - intros Hb k Hk. destruct k as [|k]; [lia|].
    rewrite peak_after_S, Rmax_left.
    + rewrite normalize_spec by assumption. f_equal.
      apply spec_level_top; assumption.
    + assert (INR n <= INR (S k)) by (apply le_INR; exact Hk). nra.
Qed.

Lemma constant_input_fills_the_bar_witness :
  normalize (-30.05) (peak_after (-30.05) 1 (-30)) 60 10 = Ok 10%Z.
Proof.
  apply (proj2 (constant_input_fills_the_bar (-30.05) (-30) 60 10 1
                  ltac:(lra) ltac:(lia) ltac:(lia))).
  - simpl. lra.
  - lia.
Defined.

(** ** More on the denoiser *)

Lemma log10_le (x y : R) : 0 < x -> x <= y -> log10 x <= log10 y.
Proof.
  intros Hx [Hlt | ->]; [left; apply log10_lt; assumption | right; reflexivity].
Qed.

Lemma db_of_floored_power (b : R) :
  10 * log10 (Rmax (pow10 (b / 10)) 1e-12) = Rmax b (-120).
Proof.
  destruct (Rle_dec (-120) b) as [Hb|Hb].
  - rewrite (Rmax_left b) by exact Hb.
    rewrite Rmax_left by (rewrite <- pow10_m12; apply pow10_le; lra).
    rewrite log10_pow10. lra.
  - rewrite (Rmax_right b) by lra.
    rewrite Rmax_right by (rewrite <- pow10_m12; apply pow10_le; lra).
    apply log10_1em12.
Qed.

Lemma denoise_clean_bounds (b n alpha alpha' : R) :
  0 <= alpha -> alpha <= alpha' ->
  let clean := fun a =>
    10 * log10 (Rmax (pow10 (b / 10) - a * pow10 (n / 10)) 1e-12) in
  -120 <= clean alpha' /\ clean alpha' <= clean alpha
  /\ clean alpha <= Rmax b (-120).
Proof.
  intros Ha Haa clean. subst clean. cbv beta.
  pose proof (pow10_pos (n / 10)) as HN.
  assert (Hfloor : forall x, 0 < Rmax x 1e-12)
    by (intros x; apply Rlt_le_trans with 1e-12; [lra | apply Rmax_r]).
  repeat split.
  - rewrite <- log10_1em12. apply Rmult_le_compat_l; [lra|].
    apply log10_le; [lra | apply Rmax_r].
  - apply Rmult_le_compat_l; [lra|]. apply log10_le; [apply Hfloor|].
    apply Rle_max_compat_r. nra.
  - rewrite <- db_of_floored_power. apply Rmult_le_compat_l; [lra|].
    apply log10_le; [apply Hfloor|]. apply Rle_max_compat_r. nra.
Qed.

(** With a non-negative strength the denoiser only lowers a band: its
    output is never above [max(b, -120)] and never below -120 dB, it is
    either -120 dB or at least the gate [n + margin], and a larger strength
    never gives a larger output. *)
Theorem denoiser_only_lowers :
  forall (prof : list R) (i : nat) (n alpha alpha' b : R),
    nth_error prof i = Some n -> 0 <= alpha -> alpha <= alpha' ->
    exists v v',
      denoise true (Some prof) alpha i b = Ok v
      /\ denoise true (Some prof) alpha' i b = Ok v'
      /\ -120 <= v /\ v <= Rmax b (-120)
      /\ (v = -120 \/ n + denoise_gate_margin_db <= v)
      /\ v' <= v.
Proof.
  intros prof i n alpha alpha' b Hn Ha Haa.
  rewrite !(denoise_spec prof _ i b n Hn).
  eexists. eexists. split; [reflexivity|]. split; [reflexivity|].
  destruct (denoise_clean_bounds b n alpha alpha' Ha Haa) as (H1 & H2 & H3).
  destruct (denoise_clean_bounds b n 0 alpha (Rle_refl 0) Ha) as (H4 & _ & _).
  cbv beta in H1, H2, H3, H4.
  unfold spec_denoise.
  fold (pow10 (b / 10)). fold (pow10 (n / 10)).
  fold (log10 (Rmax (pow10 (b / 10) - alpha * pow10 (n / 10)) 1e-12)).
  fold (log10 (Rmax (pow10 (b / 10) - alpha' * pow10 (n / 10)) 1e-12)).
  assert (H120 : -120 <= Rmax b (-120)) by apply Rmax_r.
  destruct (Rlt_dec _ _); destruct (Rlt_dec _ _); repeat split;
    try lra; try (left; reflexivity); try (right; lra).
Qed.

Lemma denoiser_only_lowers_witness :
  exists v v',
    denoise true (Some [-60]) 0.8 0 (-20) = Ok v
    /\ denoise true (Some [-60]) 1.8 0 (-20) = Ok v'
    /\ -120 <= v /\ v <= Rmax (-20) (-120)
    /\ (v = -120 \/ -60 + denoise_gate_margin_db <= v)
    /\ v' <= v.
Proof.
  apply (denoiser_only_lowers [-60] 0 (-60) 0.8 1.8 (-20));
    [reflexivity | lra | lra].
Defined.

(** ** More on the band plan *)

Lemma band_range_bounds (f : nat -> R) (N : nat) (edges : list R) (i : nat) :
  f 0%nat < nth i edges 0 ->
  let ab := band_range (map f (seq 0 N)) edges i in
  ab = (0%nat, 0%nat) \/ (1 <= fst ab < snd ab /\ snd ab <= N)%nat.
Proof.
  intros Hdc ab. subst ab. unfold band_range. rewrite np_where_map_seq.
  set (idx := filter _ (seq 0 N)).
  assert (Hin : forall k, In k idx ->
                          (k < N)%nat /\ nth i edges 0 <= f k).
  { intros k Hk. unfold idx in Hk. apply filter_In in Hk.
    destruct Hk as [Hs Hc]. apply in_seq in Hs.
    apply andb_true_iff in Hc. destruct Hc as [Hc _].
    apply Rle_b_true in Hc. split; [lia | exact Hc]. }
  assert (Hs : StronglySorted lt idx)
    by (apply filter_increasing, seq_increasing).
  destruct idx as [|first rest]; [left; reflexivity|]. right.
  destruct (increasing_bounds first rest Hs) as [Hlast Hb].
  destruct (Hin _ Hlast) as [HlN _].
  destruct (Hin first (or_introl eq_refl)) as [_ Hf].
  destruct (Hb first (or_introl eq_refl)) as [_ Hfl].
  set (lst := last (first :: rest) 0%nat) in *.
  cbn [fst snd].
  assert (first <> 0%nat) by (intros ->; lra).
  lia.
Qed.

(** Whenever [build_band_bins] returns, it returns one range per band;
    every range is either the empty [(0, 0)] or a non-empty range inside
    the half spectrum of [nfft // 2 + 1] bins that leaves out bin 0 (the DC
    component), so every band's slice of a spectrum of that length is
    non-empty exactly when the band is. *)
Theorem band_plan_fits_the_spectrum :
  forall (sr nfft : Z) (n_bands : nat) (fmin fmax : R) (bins : list (nat * nat)),
    build_band_bins sr nfft n_bands fmin fmax = Ok bins ->
    length bins = n_bands
    /\ bins_fit bins (rfft_len nfft)
    /\ Forall (fun ab : nat * nat =>
                 ab = (0%nat, 0%nat)
                 \/ (1 <= fst ab < snd ab /\ snd ab <= rfft_len nfft)%nat) bins.
Proof.
  intros sr nfft n_bands fmin fmax bins H.
  destruct (build_band_bins_errors sr nfft n_bands fmin fmax) as [E1 E2].
  assert (Hsr : sr <> 0%Z)
    by (intros ->; rewrite E1 in H by (left; reflexivity); discriminate).
  assert (Hn : nfft <> 0%Z)
    by (intros ->; rewrite E1 in H by (right; reflexivity); discriminate).
  assert (Hmin : 0 < fmin).
  { destruct (Rlt_dec 0 fmin) as [|N]; [assumption|].
    rewrite E2 in H by (auto; left; lra). discriminate. }
  assert (Hmax : 0 < fmax).
  { destruct (Rlt_dec 0 fmax) as [|N]; [assumption|].
    rewrite E2 in H by (auto; right; lra). discriminate. }
  rewrite build_band_bins_Ok in H by assumption. injection H as <-.
  assert (Hall : Forall (fun ab : nat * nat =>
                 ab = (0%nat, 0%nat)
                 \/ (1 <= fst ab < snd ab /\ snd ab <= rfft_len nfft)%nat)
            (map (band_range (map (bin_freq sr nfft) (seq 0 (rfft_len nfft)))
                    (np_logspace (log10 fmin) (log10 fmax) (n_bands + 1)))
                 (seq 0 n_bands))).
  { apply Forall_forall. intros ab Hab. apply in_map_iff in Hab.
    destruct Hab as (i & <- & Hi). apply in_seq in Hi.
    apply band_range_bounds.
    rewrite logspace_nth by lia.
    replace (bin_freq sr nfft 0) with 0 by (unfold bin_freq; simpl; lra).
    apply pow10_pos. }
  split; [rewrite length_map, length_seq; reflexivity|].
  split; [|exact Hall].
  unfold bins_fit. eapply Forall_impl; [|exact Hall].
  intros ab [-> | Hb] Hlt; simpl in *; lia.
Qed.

Lemma band_plan_fits_the_spectrum_witness :
  length [(1%nat, 4%nat)] = 1%nat
  /\ bins_fit [(1%nat, 4%nat)] (rfft_len 8)
  /\ Forall (fun ab : nat * nat =>
               ab = (0%nat, 0%nat)
               \/ (1 <= fst ab < snd ab /\ snd ab <= rfft_len 8)%nat)
            [(1%nat, 4%nat)].
Proof.
  apply (band_plan_fits_the_spectrum 8 8 1 1 4). apply build_band_bins_example.
Defined.

(** ** Constant samples *)

Lemma all_equal_repeat (c : R) (l : list R) :
  Forall (fun x => x = c) l -> l = repeat c (length l).
Proof.
  induction 1 as [|x t Hx _ IH]; simpl; [reflexivity|].
  rewrite Hx, <- IH. reflexivity.
Qed.

Lemma Forall_slice {A : Type} (P : A -> Prop) (l : list A) (a b : nat) :
  Forall P l -> Forall P (slice l a b).
Proof.
  intros H. unfold slice.
  assert (Hsk : forall n (l' : list A), Forall P l' -> Forall P (skipn n l')).
  { induction n as [|n IH]; intros l' Hl; [exact Hl|].
    destruct Hl; simpl; [constructor | apply IH; assumption]. }
  assert (Hfi : forall n (l' : list A), Forall P l' -> Forall P (firstn n l')).
  { induction n as [|n IH]; intros l' Hl; [constructor|].
    destruct Hl; simpl; constructor; [assumption | apply IH; assumption]. }
  apply Hfi, Hsk, H.
Qed.

Lemma np_sort_repeat (c : R) (n : nat) : np_sort (repeat c n) = repeat c n.
Proof.
  induction n as [|n IH]; [reflexivity|].
  change (np_sort (repeat c (S n))) with (insert_sorted c (np_sort (repeat c n))).
  rewrite IH. destruct n; simpl; [reflexivity|].
  destruct (Rle_dec c c); [reflexivity | lra].
Qed.

Lemma np_max_repeat (c : R) (n : nat) :
  (1 <= n)%nat -> np_max (repeat c n) = Ok c.
Proof.
  intros Hn. destruct n as [|n]; [lia|]. simpl. f_equal.
  induction n as [|n IH]; simpl; [reflexivity|].
  rewrite Rmax_left by lra. apply IH. lia.
Qed.

Lemma np_percentile_repeat (c q : R) (n : nat) :
  (1 <= n)%nat -> 0 <= q -> q <= 100 -> np_percentile (repeat c n) q = Ok c.
Proof.
  intros Hn Hq0 Hq1.
  rewrite np_percentile_nonempty by (destruct n; [lia | discriminate]).
  cbv zeta. rewrite np_sort_repeat, repeat_length. f_equal.
  assert (Hn1 : 1 <= INR n) by (change 1 with (INR 1); apply le_INR; exact Hn).
  set (virt := (INR n - 1) * (q / 100)).
  assert (Hv0 : 0 <= virt) by (unfold virt; nra).
  assert (Hv1 : virt <= INR n - 1) by (unfold virt; nra).
  assert (Hf0 : (0 <= Int_part virt)%Z).
  { rewrite <- (Int_part_IZR 0). apply Int_part_mono. exact Hv0. }
  assert (Hk : (Z.to_nat (Int_part virt) < n)%nat).
  { destruct (Int_part_bounds virt) as [Hlo _].
    assert (IZR (Int_part virt) < IZR (Z.of_nat n)).
    { rewrite <- INR_IZR_INZ. lra. }
    apply lt_IZR in H. lia. }
  rewrite !nth_repeat_lt by lia.
  rewrite np_lerp_linear. ring.
Qed.

Lemma Rsum_repeat (x : R) (n : nat) : Rsum (repeat x n) = INR n * x.
Proof.
  induction n as [|n IH]; [simpl; lra|].
  change (Rsum (repeat x (S n))) with (x + Rsum (repeat x n)).
  rewrite IH, S_INR. ring.
Qed.

Lemma map_repeat {A B : Type} (f : A -> B) (x : A) (n : nat) :
  map f (repeat x n) = repeat (f x) n.
Proof. induction n; simpl; [reflexivity | f_equal; assumption]. Qed.

Lemma band_statistic_rms_repeat (c : R) (n : nat) :
  (1 <= n)%nat ->
  band_statistic "rms" (repeat c n) = Ok (20 * log10 (pow10 (c / 20) + 1e-12)).
Proof.
  intros Hn.
  rewrite band_statistic_rms by (destruct n; [lia | discriminate]).
  unfold spec_rms. rewrite !map_repeat, Rsum_repeat, !repeat_length.
  assert (Hn0 : INR n <> 0) by (apply not_0_INR; lia).
  replace (INR n * (pow10 (c / 20) * pow10 (c / 20)) / INR n)
    with (pow10 (c / 20) * pow10 (c / 20)) by (field; exact Hn0).
  rewrite sqrt_square by (left; apply pow10_pos). reflexivity.
Qed.

Lemma np_median_repeat (c : R) (n : nat) :
  (1 <= n)%nat -> np_median (repeat c n) = c.
Proof.
  intros Hn.
  rewrite np_median_spec by (destruct n; [lia | discriminate]).
  unfold spec_median. rewrite np_sort_repeat, repeat_length.
  assert (Hh : (n / 2 < n)%nat) by (apply Nat.div_lt; lia).
  destruct (Nat.even n); rewrite !nth_repeat_lt by lia; lra.
Qed.

Lemma map_nth_all {A : Type} (l : list A) (d : A) :
  map (fun j => nth j l d) (seq 0 (length l)) = l.
Proof.
  apply (nth_ext _ _ d d).
  - rewrite length_map, length_seq. reflexivity.
  - intros k Hk. rewrite length_map, length_seq in Hk.
    rewrite (nth_map_seq (fun j => nth j l d)) by exact Hk. reflexivity.
Qed.

(** ** Silence *)

Lemma pow10_m6 : pow10 (-6) = 1e-6.
Proof.
  unfold pow10. replace (-6) with (- INR 6) by (simpl; lra).
  rewrite Rpower_Ropp, Rpower_pow by lra. simpl. lra.
Qed.

Lemma mag_to_db_silent (mag : list R) :
  Forall (fun x => x = 0) mag -> Forall (fun x => x = -160) (mag_to_db mag).
Proof.
  intros H. unfold mag_to_db. apply Forall_map.
  eapply Forall_impl; [|exact H]. intros x ->. cbv beta.
  rewrite Rplus_0_l, <- pow10_m8, log10_pow10. lra.
Qed.

Lemma silent_statistic (mode : string) (seg : list R) :
  valid_mode mode -> seg <> [] -> Forall (fun x => x = -160) seg ->
  exists s, band_statistic mode seg = Ok s /\ s <= -120.
Proof.
  intros Hmode Hne Hall.
  assert (Hn : (1 <= length seg)%nat) by (destruct seg; [congruence | simpl; lia]).
  rewrite (all_equal_repeat _ _ Hall).
  destruct Hmode as [-> | [-> | ->]].
  - exists (-160). split; [apply np_max_repeat; exact Hn | lra].
  - exists (-160). split; [apply np_percentile_repeat; (exact Hn || lra) | lra].
  - eexists. split; [apply band_statistic_rms_repeat; exact Hn|].
    replace (-160 / 20) with (-8) by lra. rewrite pow10_m8.
    assert (log10 (1e-8 + 1e-12) <= -6).
    { rewrite <- (log10_pow10 (-6)). apply log10_le; [lra|].
      rewrite pow10_m6. lra. }
    lra.
Qed.

Lemma spec_denoise_below_floor (s n strength margin : R) :
  s <= -120 -> 0 <= strength -> spec_denoise s n strength margin = -120.
Proof.
  intros Hs Ha. unfold spec_denoise.
  fold (pow10 (s / 10)). fold (pow10 (n / 10)).
  pose proof (pow10_pos (n / 10)) as HN.
  assert (HP : pow10 (s / 10) <= 1e-12)
    by (rewrite <- pow10_m12; apply pow10_le; lra).
  rewrite Rmax_right by nra.
  fold (log10 1e-12). rewrite log10_1em12.
  destruct (Rlt_dec _ _); reflexivity.
Qed.

Lemma silent_band_value (c : config) (nb : option (list R)) (db : list R)
    (i : nat) (ab : nat * nat) :
  valid_mode (band_stat c) -> 0 <= denoise_alpha c ->
  Forall (fun x => x = -160) db ->
  ((fst ab < snd ab)%nat -> (fst ab < length db)%nat) ->
  (forall prof, nb = Some prof -> (i < length prof)%nat) ->
  exists v, band_value c nb db i ab = Ok v /\ v <= -120.
Proof.
  intros Hmode Ha Hdb Hfit Hprof. destruct ab as [a b]. simpl in Hfit.
  unfold band_value. destruct (Nat.leb_spec b a) as [|Hlt].
  - exists (-120). split; [reflexivity | lra].
  - destruct (silent_statistic (band_stat c) (slice db a b) Hmode)
      as (s & Hs & Hle).
    + apply slice_nonempty; auto.
    + apply Forall_slice. exact Hdb.
    + rewrite Hs. cbn [bind].
      destruct (denoise_enabled c) eqn:Hen;
        [|exists s; split; [apply denoise_off; left; reflexivity | exact Hle]].
      destruct nb as [prof|];
        [|exists s; split; [apply denoise_off; right; reflexivity | exact Hle]].
      destruct (nth_error prof i) as [n|] eqn:Hn.
      * exists (-120). split; [|lra].
        rewrite (denoise_spec prof _ i s n Hn).
        rewrite spec_denoise_below_floor by assumption. reflexivity.
      * apply nth_error_None in Hn. specialize (Hprof prof eq_refl). lia.
Qed.

Lemma bands_loop_silent (c : config) (nb : option (list R)) (db : list R) :
  valid_mode (band_stat c) -> 0 <= denoise_alpha c ->
  0 < db_range c -> (0 <= max_level c)%Z ->
  Forall (fun x => x = -160) db ->
  forall bins i peaks levels,
    bins_fit bins (length db) ->
    (forall prof, nb = Some prof -> (i + length bins <= length prof)%nat) ->
    (forall j, (i <= j < i + length bins)%nat ->
               exists p, nth_error peaks j = Some p
                         /\ db_range c - 119.94 <= p) ->
    exists peaks',
      bands_loop c nb db i bins peaks levels
      = Ok (peaks', levels ++ repeat 0%Z (length bins)).
Proof.
  intros Hmode Ha Hr HM Hdb. unfold bins_fit.
  induction bins as [|ab rest IH]; intros i peaks levels Hfit Hprof Hpk.
  - exists peaks. simpl. rewrite app_nil_r. reflexivity.
  - inversion Hfit as [|? ? Hab Hrest]; subst.
    destruct (silent_band_value c nb db i ab Hmode Ha Hdb Hab) as (v & Hv & Hle).
    { intros prof E. specialize (Hprof prof E). simpl in Hprof. lia. }
    destruct (Hpk i) as (p & Hp & Hthr); [simpl; lia|].
    cbn [bands_loop].
    rewrite (band_step_unfold _ _ _ _ _ _ _ _ Hv Hp).
    rewrite normalize_spec by assumption. cbn [bind fst snd].
    rewrite spec_level_bottom
      by (try assumption; rewrite peak_update_Rmax, Rmax_right; lra).
    destruct (IH (S i) (list_set peaks i (peak_update v p)) (levels ++ [0%Z]) Hrest)
      as (peaks' & Hloop).
    + intros prof E. specialize (Hprof prof E). simpl in Hprof. lia.
    + intros j Hj. destruct (Hpk j) as (q & Hq & Hqt); [simpl; lia|].
      exists q. split; [|exact Hqt].
      rewrite nth_error_list_set_neq by lia. exact Hq.
    + exists peaks'. rewrite Hloop. rewrite <- app_assoc. reflexivity.
Qed.

(** A frame of silence lights nothing: when every magnitude is zero, the
    statistic mode is one of the three offered, the strength is not
    negative and every band's ceiling is at least [range - 119.94] dB (as
    the initial -30 dB is for every preset), all levels of the frame are
    0, with or without denoising. *)
Theorem silent_frame_shows_nothing :
  forall (c : config) (nb : option (list R)) (mag : list R)
         (bins : list (nat * nat)) (peaks : list R),
    valid_mode (band_stat c) -> 0 <= denoise_alpha c ->
    0 < db_range c -> (0 <= max_level c)%Z ->
    Forall (fun x => x = 0) mag ->
    bins_fit bins (length mag) ->
    (length bins <= length peaks)%nat ->
    (forall prof, nb = Some prof -> (length bins <= length prof)%nat) ->
    Forall (fun p => db_range c - 119.94 <= p) peaks ->
    exists peaks',
      bands_loop c nb (mag_to_db mag) 0 bins peaks []
      = Ok (peaks', repeat 0%Z (length bins)).
Proof.
  intros c nb mag bins peaks Hmode Ha Hr HM Hmag Hfit Hlen Hprof Hpk.
  apply (bands_loop_silent c nb (mag_to_db mag) Hmode Ha Hr HM
           (mag_to_db_silent mag Hmag) bins 0 peaks []).
  - unfold mag_to_db. rewrite length_map. exact Hfit.
  - exact Hprof.
  - intros j Hj.
    destruct (nth_error peaks j) as [p|] eqn:Hp;
      [|apply nth_error_None in Hp; lia].
    exists p. split; [reflexivity|].
    rewrite Forall_forall in Hpk. apply Hpk.
    eapply nth_error_In. exact Hp.
Qed.

Lemma silent_frame_shows_nothing_witness :
  exists peaks',
    bands_loop (default_config 10) None (mag_to_db [0; 0; 0; 0; 0]) 0
               [(1%nat, 4%nat)] (repeat (-30) 1) []
    = Ok (peaks', repeat 0%Z (length [(1%nat, 4%nat)])).
Proof.
  apply (silent_frame_shows_nothing (default_config 10) None [0; 0; 0; 0; 0]
           [(1%nat, 4%nat)] (repeat (-30) 1)).
  - right; right; reflexivity.
  - simpl. lra.
  - simpl. lra.
  - simpl. lia.
  - repeat constructor.
  - constructor; [simpl; lia | constructor].
  - simpl. lia.
  - discriminate.
  - constructor; [simpl; lra | constructor].
Defined.

(** ** Learning a steady input *)

Lemma captured_steady (rec : nat -> tick) (mag : list R) :
  (forall k, rec k = Got mag) ->
  forall len pos, captured rec pos len = repeat mag len.
Proof.
  intros Hrec. induction len as [|len IH]; intros pos; [reflexivity|].
  rewrite captured_step, Hrec, IH. reflexivity.
Qed.

Lemma np_median_axis0_repeat (row : list R) (n : nat) :
  (1 <= n)%nat -> np_median_axis0 (length row) (repeat row n) = row.
Proof.
  intros Hn. unfold np_median_axis0.
  transitivity (map (fun j => nth j row 0) (seq 0 (length row)));
    [|apply map_nth_all].
  apply map_ext. intros j. rewrite map_repeat. apply np_median_repeat. exact Hn.
Qed.

(** Learning on a steady input returns that input's statistic: when every
    block read during calibration has the same spectrum, the published
    noise profile is, band by band, the 90th percentile of that spectrum
    (-120 dB for an empty band); the learner takes all of its
    [max(12, floor(3 * sr / nfft))] reads and sets the force-redraw
    flag. *)
Theorem learning_a_steady_input :
  forall (sr nfft : Z) (bins : list (nat * nat)) (m : meter)
         (rec : nat -> tick) (pos : nat) (mag : list R),
    (0 <= sr)%Z -> (0 < nfft)%Z -> learn_noise m = true ->
    (forall k, rec k = Got mag) ->
    bins_fit bins (length mag) ->
    learn sr nfft bins m rec pos
    = Ok ({| cfg := cfg m;
             noise_band_db := Some (map (spec_band_p90 (mag_to_db mag)) bins);
             force_redraw := true; learn_noise := false |},
          (pos + Z.to_nat (Z.max 12 (3 * sr / nfft)))%nat).
Proof.
  intros sr nfft bins m rec pos mag Hsr Hn Hl Hrec Hfit.
  set (N := Z.to_nat (Z.max 12 (3 * sr / nfft))).
  assert (HN : (1 <= N)%nat) by (unfold N; lia).
  assert (Hfit' : forall k mag', rec k = Got mag' -> bins_fit bins (length mag')).
  { intros k mag' E. rewrite Hrec in E. injection E as <-. exact Hfit. }
  destruct (learn_loop_spec bins rec Hfit' N pos [])
    as (pos' & He & Hb & Hstop & _).
  assert (Hpos : pos' = (pos + N)%nat).
  { destruct (Nat.eq_dec pos' (pos + N)) as [|Hne]; [assumption|].
    assert (Hs : rec pos' = Stopped) by (apply Hstop; lia).
    rewrite Hrec in Hs. discriminate. }
  subst pos'. replace (pos + N - pos)%nat with N in He by lia.
  rewrite (captured_steady rec mag Hrec), map_repeat in He.
  unfold learn. rewrite Hl, learn_frames_floor by assumption. cbn [bind].
  fold N. rewrite He. cbn [bind fst snd app].
  destruct N as [|N']; [lia|]. cbn [repeat].
  f_equal. f_equal. f_equal. f_equal.
  change (map (spec_band_p90 (mag_to_db mag)) bins
          :: repeat (map (spec_band_p90 (mag_to_db mag)) bins) N')
    with (repeat (map (spec_band_p90 (mag_to_db mag)) bins) (S N')).
  rewrite <- (length_map (spec_band_p90 (mag_to_db mag)) bins) at 1.
  apply np_median_axis0_repeat. lia.
Qed.

Lemma learning_a_steady_input_witness :
  learn 48000 4096 [(0%nat, 1%nat)]
    {| cfg := default_config 10; noise_band_db := None;
       force_redraw := false; learn_noise := true |}
    (fun _ => Got [1]) 0
  = Ok ({| cfg := default_config 10;
           noise_band_db :=
             Some (map (spec_band_p90 (mag_to_db [1])) [(0%nat, 1%nat)]);
           force_redraw := true; learn_noise := false |},
        (0 + Z.to_nat (Z.max 12 (3 * 48000 / 4096)))%nat).
Proof.
  apply (learning_a_steady_input 48000 4096 [(0%nat, 1%nat)]
           {| cfg := default_config 10; noise_band_db := None;
              force_redraw := false; learn_noise := true |}
           (fun _ => Got [1]) 0 [1]).
  - lia.
  - lia.
  - reflexivity.
  - reflexivity.
  - constructor; [simpl; lia | constructor].
Defined.

(** ** Starting up in silence *)

Lemma Forall_peaks_step (T : R) (peaks peaks' : list R) :
  length peaks' = length peaks ->
  (forall j p, nth_error peaks j = Some p ->
               exists p', nth_error peaks' j = Some p' /\ p - 0.06 <= p') ->
  Forall (fun p => T <= p) peaks ->
  Forall (fun p => T - 0.06 <= p) peaks'.
Proof.
  intros Hlen Hstep Hall. apply Forall_forall. intros q Hq.
  apply In_nth_error in Hq. destruct Hq as (j & Hj).
  assert (Hjl : (j < length peaks)%nat).
  { rewrite <- Hlen. apply nth_error_Some. congruence. }
  destruct (nth_error peaks j) as [p|] eqn:Hp;
    [|apply nth_error_None in Hp; lia].
  destruct (Hstep j p Hp) as (p' & Hp' & Hge).
  assert (q = p') by congruence. subst q.
  rewrite Forall_forall in Hall.
  assert (T <= p) by (apply Hall; eapply nth_error_In; exact Hp).
  lra.
Qed.

Lemma worker_frame_silent (sr nfft : Z) (bins : list (nat * nat)) (m : meter)
    (w : locals) (mag : list R) (rec : nat -> tick) (pos : nat)
    (last : option shown) (T : R) :
  valid_mode (band_stat (cfg m)) -> 0 <= denoise_alpha (cfg m) ->
  0 < db_range (cfg m) -> (0 <= max_level (cfg m))%Z ->
  force_redraw m = false -> learn_noise m = false ->
  Forall (fun x => x = 0) mag -> bins_fit bins (length mag) ->
  (length bins <= length (band_peak_db w))%nat ->
  (forall prof, noise_band_db m = Some prof -> (length bins <= length prof)%nat) ->
  Forall (fun p => T <= p) (band_peak_db w) ->
  db_range (cfg m) - 119.94 <= T ->
  holds_last w last ->
  last = None \/ last = Some (shown_of (repeat 0%Z (length bins)) (cfg m)) ->
  exists w',
    worker_frame sr nfft bins m w mag rec pos
    = Ok (m, w',
          match last with
          | None => Some {| icon_levels := repeat 0%Z (length bins);
                            icon_max_level := max_level (cfg m);
                            icon_bg_mode := bg_mode (cfg m) |}
          | Some _ => None
          end, pos)
    /\ holds_last w' (Some (shown_of (repeat 0%Z (length bins)) (cfg m)))
    /\ length (band_peak_db w') = length (band_peak_db w)
    /\ Forall (fun p => T - 0.06 <= p) (band_peak_db w').
Proof.
  intros Hmode Ha Hr HM Hflag Hlearn Hmag Hfit Hlen Hprof Hpk HT Hw Hlast.
  assert (Hdb : Forall (fun x => x = -160) (mag_to_db mag))
    by (apply mag_to_db_silent; exact Hmag).
  destruct (bands_loop_silent (cfg m) (noise_band_db m) (mag_to_db mag)
              Hmode Ha Hr HM Hdb bins 0 (band_peak_db w) [])
    as (peaks' & Hloop).
  { unfold mag_to_db. rewrite length_map. exact Hfit. }
  { exact Hprof. }
  { intros j Hj.
    destruct (nth_error (band_peak_db w) j) as [p|] eqn:Hp;
      [|apply nth_error_None in Hp; lia].
    exists p. split; [reflexivity|].
    rewrite Forall_forall in Hpk.
    assert (T <= p) by (apply Hpk; eapply nth_error_In; exact Hp). lra. }
  cbn [app] in Hloop.
  destruct (bands_loop_peaks _ _ _ _ _ _ _ _ _ Hloop) as (Hlen' & Hstep).
  set (x := shown_of (repeat 0%Z (length bins)) (cfg m)) in *.
  set (w2 := {| band_peak_db := peaks'; last_levels := last_levels w;
                last_db_range := last_db_range w;
                last_bg_mode := last_bg_mode w;
                last_stat_mode := last_stat_mode w |}).
  assert (Hw2 : holds_last w2 last) by (destruct last; exact Hw).
  destruct (redraw_spec false w2 last (repeat 0%Z (length bins)) (cfg m) Hw2)
    as (Hd & Hh & Hi & _).
  cbv zeta in Hd, Hh, Hi. fold x in Hd, Hh, Hi.
  pose proof (redraw_flag_cleared false w2 (repeat 0%Z (length bins)) (cfg m)) as Hf.
  pose proof (redraw_peaks false w2 (repeat 0%Z (length bins)) (cfg m)) as Hp2.
  destruct (redraw false w2 (repeat 0%Z (length bins)) (cfg m))
    as [[flag w'] sh] eqn:Er.
  cbn [fst snd] in Hd, Hh, Hi, Hf, Hp2.
  exists w'.
  assert (Hframe : worker_frame sr nfft bins m w mag rec pos
                   = Ok ({| cfg := cfg m; noise_band_db := noise_band_db m;
                            force_redraw := flag;
                            learn_noise := false |}, w', sh, pos)).
  { unfold worker_frame, learn. rewrite Hlearn. cbn [bind fst snd].
    rewrite Hloop. cbn [bind fst snd]. fold w2. rewrite Hflag, Er.
    rewrite ?Hlearn. reflexivity. }
  rewrite Hframe. subst flag.
  assert (Hm : {| cfg := cfg m; noise_band_db := noise_band_db m;
                  force_redraw := false; learn_noise := false |} = m).
  { destruct m; simpl in *. subst. reflexivity. }
  rewrite Hm.
  assert (Hshown : sh = match last with
                        | None => Some {| icon_levels := repeat 0%Z (length bins);
                                          icon_max_level := max_level (cfg m);
                                          icon_bg_mode := bg_mode (cfg m) |}
                        | Some _ => None
                        end
                   /\ holds_last w' (Some x)).
  { destruct Hlast as [-> | ->].
    - cbn [orb] in Hd, Hh, Hi. split; [apply Hi; reflexivity | exact Hh].
    - rewrite (proj2 (shown_eqb_true x x) eq_refl) in Hd, Hh.
      cbn [orb negb] in Hd, Hh. split; [|exact Hh].
      destruct sh; [discriminate Hd | reflexivity]. }
  destruct Hshown as [-> Hh'].
  split; [reflexivity|]. split; [exact Hh'|].
  rewrite Hp2. cbn [band_peak_db]. split; [exact Hlen'|].
  apply (Forall_peaks_step T (band_peak_db w) peaks' Hlen'); [|exact Hpk].
  intros j p Hp. destruct (Hstep j p Hp) as (p' & Hp' & Hge & _).
  exists p'. auto.
Qed.

Lemma worker_loop_silent (sr nfft : Z) (bins : list (nat * nat)) (m : meter)
    (rec : nat -> tick) :
  valid_mode (band_stat (cfg m)) -> 0 <= denoise_alpha (cfg m) ->
  0 < db_range (cfg m) -> (0 <= max_level (cfg m))%Z ->
  force_redraw m = false -> learn_noise m = false ->
  (forall prof, noise_band_db m = Some prof -> (length bins <= length prof)%nat) ->
  forall n pos w last T,
    (forall k, (pos <= k < pos + n)%nat ->
               exists mag, rec k = Got mag /\ Forall (fun x => x = 0) mag
                           /\ bins_fit bins (length mag)) ->
    (length bins <= length (band_peak_db w))%nat ->
    Forall (fun p => T <= p) (band_peak_db w) ->
    db_range (cfg m) - 119.94 + INR n * 0.06 <= T ->
    holds_last w last ->
    last = None \/ last = Some (shown_of (repeat 0%Z (length bins)) (cfg m)) ->
    exists w',
      worker_loop n sr nfft bins m w rec pos
      = Ok (m, w',
            match n, last with
            | S _, None => [{| icon_levels := repeat 0%Z (length bins);
                               icon_max_level := max_level (cfg m);
                               icon_bg_mode := bg_mode (cfg m) |}]
            | _, _ => []
            end, (pos + n)%nat).
Proof.
  intros Hmode Ha Hr HM Hflag Hlearn Hprof.
  induction n as [|n IH]; intros pos w last T Hrec Hlen Hpk HT Hw Hlast.
  - exists w. simpl. rewrite Nat.add_0_r. reflexivity.
  - destruct (Hrec pos ltac:(lia)) as (mag & Hgot & Hmag & Hfit).
    rewrite S_INR in HT.
    assert (Hn0 : 0 <= INR n) by apply pos_INR.
    destruct (worker_frame_silent sr nfft bins m w mag rec (S pos) last T
                Hmode Ha Hr HM Hflag Hlearn Hmag Hfit Hlen Hprof Hpk
                ltac:(nra) Hw Hlast)
      as (w1 & Hframe & Hh1 & Hlen1 & Hpk1).
    destruct (IH (S pos) w1
                (Some (shown_of (repeat 0%Z (length bins)) (cfg m)))
                (T - 0.06))
      as (w2 & Hloop); auto.
    + intros k Hk. apply Hrec. lia.
    + lia.
    + nra.
    + exists w2. cbn [worker_loop]. rewrite Hgot, Hframe. cbn [bind].
      rewrite Hloop. cbn [bind].
      replace (S pos + n)%nat with (pos + S n)%nat by lia.
      destruct n; destruct last; reflexivity.
Qed.

(** Starting up in silence: when the first [n >= 1] blocks are all zero
    and [n] is small enough for the -30 dB ceilings not to have sunk below
    [range - 119.94] dB (499 frames at the default range), the worker
    hands the tray exactly one icon, the empty one of the first frame, and
    then leaves the tray alone; settings and noise profile are untouched
    and exactly [n] blocks are read. *)
Theorem silent_start_draws_one_empty_icon :
  forall (n : nat) (sr nfft : Z) (bins : list (nat * nat)) (n_bands : nat)
         (m : meter) (rec : nat -> tick),
    valid_mode (band_stat (cfg m)) -> 0 <= denoise_alpha (cfg m) ->
    0 < db_range (cfg m) -> (0 <= max_level (cfg m))%Z ->
    force_redraw m = false -> learn_noise m = false ->
    (forall prof, noise_band_db m = Some prof ->
                  (length bins <= length prof)%nat) ->
    (forall k, (k < n)%nat ->
               exists mag, rec k = Got mag /\ Forall (fun x => x = 0) mag
                           /\ bins_fit bins (length mag)) ->
    (length bins <= n_bands)%nat -> (1 <= n)%nat ->
    db_range (cfg m) - 119.94 + INR n * 0.06 <= -30 ->
    exists w',
      worker_loop n sr nfft bins m (init_locals n_bands) rec 0
      = Ok (m, w',
            [{| icon_levels := repeat 0%Z (length bins);
                icon_max_level := max_level (cfg m);
                icon_bg_mode := bg_mode (cfg m) |}], n).
Proof.
  intros n sr nfft bins n_bands m rec Hmode Ha Hr HM Hflag Hlearn Hprof Hrec
         Hlen Hn HT.
  destruct (worker_loop_silent sr nfft bins m rec Hmode Ha Hr HM Hflag Hlearn
              Hprof n 0%nat (init_locals n_bands) None (-30))
    as (w' & Hloop).
  - intros k Hk. apply Hrec. lia.
  - simpl. rewrite repeat_length. exact Hlen.
  - simpl. apply Forall_forall. intros p Hp.
    apply repeat_spec in Hp. subst p. lra.
  - exact HT.
  - simpl. auto.
  - left. reflexivity.
  - exists w'. rewrite Hloop. destruct n; [lia | reflexivity].
Qed.

Lemma silent_start_draws_one_empty_icon_witness :
  exists w',
    worker_loop 2 8 8 [(1%nat, 4%nat)]
      {| cfg := default_config 10; noise_band_db := None;
         force_redraw := false; learn_noise := false |}
      (init_locals 1) (fun _ => Got [0; 0; 0; 0; 0]) 0
    = Ok ({| cfg := default_config 10; noise_band_db := None;
             force_redraw := false; learn_noise := false |}, w',
          [{| icon_levels := repeat 0%Z (length [(1%nat, 4%nat)]);
              icon_max_level := max_level (default_config 10);
              icon_bg_mode := bg_mode (default_config 10) |}], 2%nat).
Proof.
  apply (silent_start_draws_one_empty_icon 2 8 8 [(1%nat, 4%nat)] 1
           {| cfg := default_config 10; noise_band_db := None;
              force_redraw := false; learn_noise := false |}
           (fun _ => Got [0; 0; 0; 0; 0])).
  - right; right; reflexivity.
  - simpl. lra.
  - simpl. lra.
  - simpl. lia.
  - reflexivity.
  - reflexivity.
  - discriminate.
  - intros k _. exists [0; 0; 0; 0; 0]. split; [reflexivity|].
    split; [repeat constructor | constructor; [simpl; lia | constructor]].
  - simpl. lia.
  - lia.
  - simpl. lra.
Defined.

(** ** From the worker to the drawing *)

Lemma redraw_icon (flag : bool) (w w' : locals) (levels : list Z) (c : config)
    (f : bool) (ic : icon) :
  redraw flag w levels c = (f, w', Some ic) ->
  ic = {| icon_levels := levels; icon_max_level := max_level c;
          icon_bg_mode := bg_mode c |}.
Proof.
  unfold redraw.
  match goal with
  | |- context [if ?b then (_, _, Some _) else _] => destruct b
  end; intros H; [|discriminate].
  injection H as _ _ <-. reflexivity.
Qed.

Lemma lit_segments_in_range (levels : list Z) (M : Z) :
  Forall (level_ok M) levels ->
  lit_segments levels M = list_sum (map Z.to_nat levels).
Proof.
  induction 1 as [|lv t Hlv _ IH]; simpl; [reflexivity|].
  rewrite IH. unfold level_ok in Hlv. f_equal. f_equal. lia.
Qed.

Lemma list_sum_le_each (l : list nat) (k : nat) :
  Forall (fun x => (x <= k)%nat) l -> (list_sum l <= length l * k)%nat.
Proof.
  induction 1 as [|x t Hx _ IH]; simpl; lia.
Qed.


(** ** The whole loop body *)

Lemma worker_pass_inv (sr nfft : Z) (bins : list (nat * nat)) (m m' : meter)
    (w w' : locals) (mag : list R) (rec : nat -> tick) (pos pos' : nat)
    (image : option (list draw_op)) :
  worker_pass sr nfft bins m w mag rec pos = Ok (m', w', image, pos') ->
  exists shown,
    worker_frame sr nfft bins m w mag rec pos = Ok (m', w', shown, pos')
    /\ draw shown = Ok image.
Proof.
  unfold worker_pass.
  destruct (worker_frame sr nfft bins m w mag rec pos)
    as [[[[m1 w1] sh] p1]|e]; cbn [bind]; [|discriminate].
  destruct (draw sh) as [im|e] eqn:Hd; cbn [bind]; [|discriminate].
  intros H. injection H as <- <- <- <-. exists sh. auto.
Qed.

Lemma worker_pass_of_frame (sr nfft : Z) (bins : list (nat * nat))
    (m m' : meter) (w w' : locals) (mag : list R) (rec : nat -> tick)
    (pos pos' : nat) (shown : option icon) (r : result (option (list draw_op))) :
  worker_frame sr nfft bins m w mag rec pos = Ok (m', w', shown, pos') ->
  draw shown = r ->
  worker_pass sr nfft bins m w mag rec pos
  = (image <- r ;; Ok (m', w', image, pos')).
Proof. unfold worker_pass. intros -> <-. reflexivity. Qed.

Lemma learn_idle (sr nfft : Z) (bins : list (nat * nat)) (m : meter)
    (rec : nat -> tick) (pos : nat) :
  learn_noise m = false -> learn sr nfft bins m rec pos = Ok (m, pos).
Proof. unfold learn. intros ->. reflexivity. Qed.

(** What a pass hands to the drawing call: the levels of its own band
    loop, one per band and each within [0, max_level], with the settings
    the pass read. *)
Lemma frame_icon (sr nfft : Z) (bins : list (nat * nat)) (m m' : meter)
    (w w' : locals) (mag : list R) (rec : nat -> tick) (pos pos' : nat)
    (ic : icon) :
  worker_frame sr nfft bins m w mag rec pos = Ok (m', w', Some ic, pos') ->
  0 < db_range (cfg m) -> (0 <= max_level (cfg m))%Z ->
  exists peaks levels,
    bands_loop (cfg m') (noise_band_db m') (mag_to_db mag) 0 bins
               (band_peak_db w) [] = Ok (peaks, levels)
    /\ ic = {| icon_levels := levels; icon_max_level := max_level (cfg m);
               icon_bg_mode := bg_mode (cfg m) |}
    /\ length levels = length bins
    /\ Forall (level_ok (max_level (cfg m))) levels
    /\ cfg m' = cfg m.
Proof.
  intros H Hr HM.
  destruct (worker_frame_inv _ _ _ _ _ _ _ _ _ _ _ _ H)
    as (m1 & peaks & levels & Hl & Hb & Hrd & Hc & Hn & _).
  destruct (learn_inv _ _ _ _ _ _ _ _ Hl) as (Hc1 & _).
  apply redraw_icon in Hrd. rewrite Hc1 in Hrd, Hb.
  assert (Hcm : cfg m' = cfg m) by congruence.
  exists peaks, levels. rewrite Hcm, Hn.
  destruct (bands_loop_levels _ _ _ _ Hr HM _ _ _ _ _ Hb (Forall_nil _))
    as (Hok & Hlen & _).
  cbn [length Nat.add] in Hlen. auto.
Qed.

(** A pass that starts with the learn request clear completes, drawing
    included, for an offered statistic, a positive range, at least one
    level per bar and a non-empty plan that fits the block, the peaks and
    the noise profile; it draws when the redraw flag is set and on the
    first pass. *)
Lemma worker_pass_total (sr nfft : Z) (bins : list (nat * nat)) (m : meter)
    (w : locals) (mag : list R) (rec : nat -> tick) (pos : nat) :
  learn_noise m = false ->
  valid_mode (band_stat (cfg m)) ->
  0 < db_range (cfg m) -> (1 <= max_level (cfg m))%Z ->
  bins <> [] -> bins_fit bins (length mag) ->
  (length bins <= length (band_peak_db w))%nat ->
  (forall prof, noise_band_db m = Some prof -> (length bins <= length prof)%nat) ->
  exists m' w' image,
    worker_pass sr nfft bins m w mag rec pos = Ok (m', w', image, pos)
    /\ (force_redraw m = true \/ last_levels w = None -> image <> None).
Proof.
  intros Hlearn Hmode Hr HM Hbins Hfit Hpk Hprof.
  assert (HM0 : (0 <= max_level (cfg m))%Z) by lia.
  assert (Hfit' : bins_fit bins (length (mag_to_db mag)))
    by (unfold mag_to_db; rewrite length_map; exact Hfit).
  destruct (bands_loop_total (cfg m) (noise_band_db m) (mag_to_db mag) bins
              Hr HM0 Hmode Hfit' 0%nat (band_peak_db w) [] Hpk Hprof)
    as (peaks & levels & Hb).
  destruct (redraw (force_redraw m)
              {| band_peak_db := peaks; last_levels := last_levels w;
                 last_db_range := last_db_range w;
                 last_bg_mode := last_bg_mode w;
                 last_stat_mode := last_stat_mode w |} levels (cfg m))
    as [[flag w1] shown] eqn:Hrd.
  assert (Hframe : worker_frame sr nfft bins m w mag rec pos
                   = Ok ({| cfg := cfg m; noise_band_db := noise_band_db m;
                            force_redraw := flag;
                            learn_noise := learn_noise m |}, w1, shown, pos)).
  { unfold worker_frame. rewrite (learn_idle _ _ _ _ _ _ Hlearn).
    cbn [bind fst snd]. rewrite Hb. cbn [bind fst snd]. rewrite Hrd.
    reflexivity. }
  destruct shown as [ic|].
  - pose proof (redraw_icon _ _ _ _ _ _ _ Hrd) as Hic.
    destruct (bands_loop_levels _ _ _ _ Hr HM0 _ _ _ _ _ Hb (Forall_nil _))
      as (_ & Hlen & _).
    cbn [length Nat.add] in Hlen.
    assert (Hlv : levels <> []).
    { intros ->. destruct bins; [congruence | discriminate]. }
    eexists. eexists. eexists. split.
    + rewrite (worker_pass_of_frame _ _ _ _ _ _ _ _ _ _ _ _ _ Hframe eq_refl).
      subst ic. unfold draw. cbn [icon_levels icon_max_level icon_bg_mode].
      rewrite make_spectrum_icon_Ok by (assumption || lia).
      cbn [bind]. reflexivity.
    + intros _. discriminate.
  - eexists. eexists. eexists. split.
    + rewrite (worker_pass_of_frame _ _ _ _ _ _ _ _ _ _ _ _ _ Hframe eq_refl).
      reflexivity.
    + intros Hforce. exfalso. unfold redraw in Hrd.
      destruct Hforce as [Hf|Hl].
      * rewrite Hf in Hrd. cbn in Hrd. discriminate.
      * destruct (force_redraw m); cbn in Hrd; [discriminate|].
        rewrite Hl in Hrd. cbn in Hrd. discriminate.
Qed.

(** After every menu action except "learn noise" the next pass of the loop
    draws, whether or not anything visible changed: the image assigned to
    the tray icon is the drawing of exactly the levels the band loop
    computed in that pass, under the settings the action left behind; the
    pass remembers these levels, keeps the loop's peaks, and leaves the
    redraw flag and the learn request clear. *)
Theorem menu_change_forces_redraw :
  forall (a : menu_action) (sr nfft : Z) (bins : list (nat * nat))
         (m m' : meter) (w w' : locals) (mag : list R) (rec : nat -> tick)
         (pos pos' : nat) (image : option (list draw_op)),
    a <> action_learn_noise ->
    worker_pass sr nfft bins (run_action a m) w mag rec pos
    = Ok (m', w', image, pos') ->
    exists peaks levels ops,
      bands_loop (cfg m') (noise_band_db m') (mag_to_db mag) 0 bins
                 (band_peak_db w) [] = Ok (peaks, levels)
      /\ image = Some ops
      /\ make_spectrum_icon levels (max_level (cfg m')) (bg_mode (cfg m'))
                            ICON_SIZE = Ok ops
      /\ last_levels w' = Some levels
      /\ band_peak_db w' = peaks
      /\ cfg m' = cfg (run_action a m)
      /\ force_redraw m' = false /\ learn_noise m' = false.
Proof.
  intros a sr nfft bins m m' w w' mag rec pos pos' image Ha H.
  assert (Hflag : force_redraw (run_action a m) = true)
    by (destruct a; try reflexivity; contradiction).
  destruct (worker_pass_inv _ _ _ _ _ _ _ _ _ _ _ _ H) as (shown & Hf & Hd).
  destruct (worker_frame_inv _ _ _ _ _ _ _ _ _ _ _ _ Hf)
    as (m1 & peaks & levels & Hl & Hb & Hr & Hc & Hn & Hln).
  destruct (learn_inv _ _ _ _ _ _ _ _ Hl) as (Hc1 & Hl1 & Hf1 & _).
  rewrite (Hf1 Hflag), redraw_forced in Hr.
  injection Hr as Hfl <- <-.
  unfold draw in Hd. cbn [icon_levels icon_max_level icon_bg_mode] in Hd.
  destruct (make_spectrum_icon levels (max_level (cfg m1)) (bg_mode (cfg m1))
              ICON_SIZE) as [ops|e] eqn:Hops; cbn [bind] in Hd; [|discriminate].
  injection Hd as <-.
  exists peaks, levels, ops. rewrite Hc, Hn.
  split; [exact Hb|]. split; [reflexivity|]. split; [exact Hops|].
  split; [reflexivity|]. split; [reflexivity|]. split; [exact Hc1|].
  split; congruence.
Qed.

Lemma menu_change_forces_redraw_witness :
  exists m' w' image,
    worker_pass 48000 8 [(1%nat, 4%nat)]
      (run_action (action_range 45)
         {| cfg := default_config 10; noise_band_db := None;
            force_redraw := false; learn_noise := false |})
      (init_locals 1) [0; 1; 2; 1; 0] (fun _ => Stopped) 0
    = Ok (m', w', image, 0%nat)
    /\ exists peaks levels ops,
        bands_loop (cfg m') (noise_band_db m') (mag_to_db [0; 1; 2; 1; 0]) 0
                   [(1%nat, 4%nat)] (band_peak_db (init_locals 1)) []
        = Ok (peaks, levels)
        /\ image = Some ops
        /\ make_spectrum_icon levels (max_level (cfg m')) (bg_mode (cfg m'))
                              ICON_SIZE = Ok ops
        /\ last_levels w' = Some levels
        /\ band_peak_db w' = peaks
        /\ cfg m' = cfg (run_action (action_range 45)
                           {| cfg := default_config 10; noise_band_db := None;
                              force_redraw := false; learn_noise := false |})
        /\ force_redraw m' = false /\ learn_noise m' = false.
Proof.
  destruct (worker_pass_total 48000 8 [(1%nat, 4%nat)]
              (run_action (action_range 45)
                 {| cfg := default_config 10; noise_band_db := None;
                    force_redraw := false; learn_noise := false |})
              (init_locals 1) [0; 1; 2; 1; 0] (fun _ => Stopped) 0%nat)
    as (m' & w' & image & H & _).
  - reflexivity.
  - right; right; reflexivity.
  - simpl. lra.
  - simpl. lia.
  - discriminate.
  - constructor; [simpl; lia | constructor].
  - simpl. lia.
  - discriminate.
  - exists m', w', image. split; [exact H|].
    apply (menu_change_forces_redraw (action_range 45) _ _ _ _ _ _ _ _ _ _ _
             _ ltac:(discriminate) H).
Defined.

(** A pass of the loop never lets a band's ceiling fall by more than
    0.06 dB, keeps the number of tracked peaks, and leaves the peaks beyond
    the band plan untouched. *)
Theorem peak_falls_at_most_one_step :
  forall (sr nfft : Z) (bins : list (nat * nat)) (m m' : meter)
         (w w' : locals) (mag : list R) (rec : nat -> tick) (pos pos' : nat)
         (image : option (list draw_op)),
    worker_pass sr nfft bins m w mag rec pos = Ok (m', w', image, pos') ->
    length (band_peak_db w') = length (band_peak_db w)
    /\ forall j p,
        nth_error (band_peak_db w) j = Some p ->
        exists p', nth_error (band_peak_db w') j = Some p'
                   /\ p - 0.06 <= p'
                   /\ ((length bins <= j)%nat -> p' = p).
Proof.
  intros sr nfft bins m m' w w' mag rec pos pos' image Hp.
  destruct (worker_pass_inv _ _ _ _ _ _ _ _ _ _ _ _ Hp) as (shown & H & _).
  destruct (worker_frame_inv _ _ _ _ _ _ _ _ _ _ _ _ H)
    as (m1 & peaks & levels & _ & Hb & Hr & _).
  assert (Hw : band_peak_db w' = peaks).
  { pose proof (redraw_peaks (force_redraw m1)
                  {| band_peak_db := peaks; last_levels := last_levels w;
                     last_db_range := last_db_range w;
                     last_bg_mode := last_bg_mode w;
                     last_stat_mode := last_stat_mode w |} levels (cfg m1)) as E.
    rewrite Hr in E. exact E. }
  rewrite Hw. destruct (bands_loop_peaks _ _ _ _ _ _ _ _ _ Hb) as (Hlen & Hpk).
  split; [exact Hlen|].
  intros j p Hj. destruct (Hpk j p Hj) as (p' & Hp' & Hge & Heq).
  exists p'. split; [exact Hp'|]. split; [exact Hge|].
  intros Hlj. apply Heq. right. simpl. exact Hlj.
Qed.

Lemma peak_falls_at_most_one_step_witness :
  exists m' w' image,
    worker_pass 48000 8 [(1%nat, 4%nat)]
      {| cfg := default_config 10; noise_band_db := None;
         force_redraw := false; learn_noise := false |}
      {| band_peak_db := [-30; -12]; last_levels := None;
         last_db_range := None; last_bg_mode := None;
         last_stat_mode := None |}
      [0; 1; 2; 1; 0] (fun _ => Stopped) 0
    = Ok (m', w', image, 0%nat)
    /\ length (band_peak_db w') = 2%nat
    /\ forall j p,
        nth_error [-30; -12] j = Some p ->
        exists p', nth_error (band_peak_db w') j = Some p'
                   /\ p - 0.06 <= p'
                   /\ ((1 <= j)%nat -> p' = p).
Proof.
  destruct (worker_pass_total 48000 8 [(1%nat, 4%nat)]
              {| cfg := default_config 10; noise_band_db := None;
                 force_redraw := false; learn_noise := false |}
              {| band_peak_db := [-30; -12]; last_levels := None;
                 last_db_range := None; last_bg_mode := None;
                 last_stat_mode := None |}
              [0; 1; 2; 1; 0] (fun _ => Stopped) 0%nat)
    as (m' & w' & image & H & _).
  - reflexivity.
  - right; right; reflexivity.
  - simpl. lra.
  - simpl. lia.
  - discriminate.
  - constructor; [simpl; lia | constructor].
  - simpl. lia.
  - discriminate.
  - exists m', w', image. split; [exact H|].
    exact (peak_falls_at_most_one_step _ _ _ _ _ _ _ _ _ _ _ _ H).
Defined.

(** The drawing call of a pass.  When a pass returns with an image, the
    plan has a band and there is a level per bar, the image is the drawing
    of the levels of that pass's band loop, one bar per band; the number of
    segments drawn is the plain sum of the levels (the clamp inside the
    drawing routine changes none of them) and at most [bands * max_level],
    and when bars and segments fit the canvas (as 8 bands of 10 levels fit
    the 64 pixel icon) every segment box is well formed and inside the
    drawing area.  A pass that reaches the call with no band or with zero
    levels per bar raises the division error; with a band and a level a
    pass that reaches the end of its frame also completes the call. *)
Theorem delivered_icon_is_drawn :
  forall (sr nfft : Z) (bins : list (nat * nat)) (m : meter) (w : locals)
         (mag : list R) (rec : nat -> tick) (pos : nat),
    0 < db_range (cfg m) -> (0 <= max_level (cfg m))%Z ->
    (forall m' w' ops pos',
        worker_pass sr nfft bins m w mag rec pos = Ok (m', w', Some ops, pos') ->
        bins <> [] /\ max_level (cfg m) <> 0%Z
        /\ exists peaks levels,
            bands_loop (cfg m') (noise_band_db m') (mag_to_db mag) 0 bins
                       (band_peak_db w) [] = Ok (peaks, levels)
            /\ make_spectrum_icon levels (max_level (cfg m)) (bg_mode (cfg m))
                                  ICON_SIZE = Ok ops
            /\ length levels = length bins
            /\ length (filter is_segment ops) = list_sum (map Z.to_nat levels)
            /\ (length (filter is_segment ops)
                <= length bins * Z.to_nat (max_level (cfg m)))%nat
            /\ ((3 * Z.of_nat (length bins) - 1 <= ICON_SIZE - 8)%Z ->
                (2 * max_level (cfg m) - 1 <= ICON_SIZE - 9)%Z ->
                forall p, In p ops -> is_segment p = true ->
                          segment_in_area ICON_SIZE p))
    /\ (forall m' w' ic pos',
          worker_frame sr nfft bins m w mag rec pos = Ok (m', w', Some ic, pos') ->
          bins = [] \/ max_level (cfg m) = 0%Z ->
          worker_pass sr nfft bins m w mag rec pos = Raise ZeroDivisionError)
    /\ (forall m' w' shown pos',
          worker_frame sr nfft bins m w mag rec pos = Ok (m', w', shown, pos') ->
          bins <> [] -> max_level (cfg m) <> 0%Z ->
          exists image,
            worker_pass sr nfft bins m w mag rec pos = Ok (m', w', image, pos')).
Proof.
  intros sr nfft bins m w mag rec pos Hr HM. split; [|split].
  - intros m' w' ops pos' Hp.
    destruct (worker_pass_inv _ _ _ _ _ _ _ _ _ _ _ _ Hp) as (shown & Hf & Hd).
    destruct shown as [ic|]; [|discriminate].
    destruct (frame_icon _ _ _ _ _ _ _ _ _ _ _ _ Hf Hr HM)
      as (peaks & levels & Hb & -> & Hlen & Hok & Hc).
    unfold draw in Hd. cbn [icon_levels icon_max_level icon_bg_mode] in Hd.
    destruct (make_spectrum_icon levels (max_level (cfg m)) (bg_mode (cfg m))
                ICON_SIZE) as [ops'|e] eqn:Hops; cbn [bind] in Hd; [|discriminate].
    injection Hd as <-.
    assert (Hgood : levels <> [] /\ max_level (cfg m) <> 0%Z).
    { split.
      - intros ->. rewrite make_spectrum_icon_Raise in Hops by (left; reflexivity).
        discriminate.
      - intros E. rewrite make_spectrum_icon_Raise in Hops by (right; exact E).
        discriminate. }
    destruct Hgood as (Hlv & HM0).
    split; [intros ->; destruct levels; [congruence | discriminate]|].
    split; [exact HM0|].
    exists peaks, levels. split; [exact Hb|]. split; [exact Hops|].
    split; [exact Hlen|].
    rewrite make_spectrum_icon_Ok in Hops by assumption.
    injection Hops as <-.
    rewrite filter_app, icon_background_no_segment. cbn [app].
    rewrite (segments_of_bars levels _ _ _ _ _ _ _ _ [] levels eq_refl).
    rewrite lit_segments_in_range by exact Hok.
    split; [reflexivity|]. split.
    + rewrite <- Hlen, <- (length_map Z.to_nat levels).
      apply list_sum_le_each. apply Forall_map.
      eapply Forall_impl; [|exact Hok].
      intros lv Hlv'. unfold level_ok in Hlv'. cbn beta. lia.
    + intros Hfitw Hfith p. rewrite <- Hlen in Hfitw.
      apply icon_boxes_in_area; [assumption | lia | assumption | assumption].
  - intros m' w' ic pos' Hf Hbad.
    destruct (frame_icon _ _ _ _ _ _ _ _ _ _ _ _ Hf Hr HM)
      as (peaks & levels & _ & -> & Hlen & _).
    rewrite (worker_pass_of_frame _ _ _ _ _ _ _ _ _ _ _ _ _ Hf eq_refl).
    unfold draw. cbn [icon_levels icon_max_level icon_bg_mode].
    rewrite make_spectrum_icon_Raise; [reflexivity|].
    destruct Hbad as [-> | HM0]; [left | right; exact HM0].
    destruct levels; [reflexivity | discriminate].
  - intros m' w' shown pos' Hf Hbins HM0.
    rewrite (worker_pass_of_frame _ _ _ _ _ _ _ _ _ _ _ _ _ Hf eq_refl).
    destruct shown as [ic|]; [|eexists; reflexivity].
    destruct (frame_icon _ _ _ _ _ _ _ _ _ _ _ _ Hf Hr HM)
      as (peaks & levels & _ & -> & Hlen & _).
    unfold draw. cbn [icon_levels icon_max_level icon_bg_mode].
    rewrite make_spectrum_icon_Ok; [eexists; reflexivity | | exact HM0].
    intros ->. destruct bins; [congruence | discriminate].
Qed.

Lemma delivered_icon_is_drawn_witness :
  (exists m' w' ops,
      worker_pass 48000 8 [(1%nat, 4%nat)]
        {| cfg := default_config 10; noise_band_db := None;
           force_redraw := false; learn_noise := false |}
        (init_locals 1) [0; 1; 2; 1; 0] (fun _ => Stopped) 0
      = Ok (m', w', Some ops, 0%nat)
      /\ exists peaks levels,
          bands_loop (cfg m') (noise_band_db m') (mag_to_db [0; 1; 2; 1; 0]) 0
                     [(1%nat, 4%nat)] (band_peak_db (init_locals 1)) []
          = Ok (peaks, levels)
          /\ make_spectrum_icon levels 10 "black" ICON_SIZE = Ok ops
          /\ length levels = 1%nat
          /\ length (filter is_segment ops) = list_sum (map Z.to_nat levels)
          /\ (length (filter is_segment ops) <= 10)%nat
          /\ forall p, In p ops -> is_segment p = true ->
                       segment_in_area ICON_SIZE p)
  /\ worker_pass 48000 8 []
       {| cfg := default_config 10; noise_band_db := None;
          force_redraw := false; learn_noise := false |}
       (init_locals 0) [0; 1; 2; 1; 0] (fun _ => Stopped) 0
     = Raise ZeroDivisionError.
Proof.
  split.
  - destruct (worker_pass_total 48000 8 [(1%nat, 4%nat)]
                {| cfg := default_config 10; noise_band_db := None;
                   force_redraw := false; learn_noise := false |}
                (init_locals 1) [0; 1; 2; 1; 0] (fun _ => Stopped) 0%nat)
      as (m' & w' & image & H & Hdrawn).
    + reflexivity.
    + right; right; reflexivity.
    + simpl. lra.
    + simpl. lia.
    + discriminate.
    + constructor; [simpl; lia | constructor].
    + simpl. lia.
    + discriminate.
    + destruct image as [ops|]; [|exfalso; apply Hdrawn; [right|]; reflexivity].
      exists m', w', ops. split; [exact H|].
      destruct (proj1 (delivered_icon_is_drawn 48000 8 [(1%nat, 4%nat)]
                         {| cfg := default_config 10; noise_band_db := None;
                            force_redraw := false; learn_noise := false |}
                         (init_locals 1) [0; 1; 2; 1; 0] (fun _ => Stopped)
                         0%nat ltac:(simpl; lra) ltac:(simpl; lia))
                  m' w' ops 0%nat H)
        as (_ & _ & peaks & levels & H1 & H2 & H3 & H4 & H5 & H6).
      exists peaks, levels.
      split; [exact H1|]. split; [exact H2|]. split; [exact H3|].
      split; [exact H4|]. split; [exact H5|].
      apply H6; unfold ICON_SIZE; simpl; lia.
  - apply (proj1 (proj2 (delivered_icon_is_drawn 48000 8 []
                           {| cfg := default_config 10; noise_band_db := None;
                              force_redraw := false; learn_noise := false |}
                           (init_locals 0) [0; 1; 2; 1; 0] (fun _ => Stopped)
                           0%nat ltac:(simpl; lra) ltac:(simpl; lia)))
             {| cfg := default_config 10; noise_band_db := None;
                force_redraw := false; learn_noise := false |}
             {| band_peak_db := []; last_levels := Some [];
                last_db_range := Some (db_range (default_config 10));
                last_bg_mode := Some (bg_mode (default_config 10));
                last_stat_mode := Some (band_stat (default_config 10)) |}
             {| icon_levels := []; icon_max_level := 10;
                icon_bg_mode := "black" |} 0%nat).
    + reflexivity.
    + left. reflexivity.
Defined.

(** ** Binary32 storage of the peaks *)









Section StoredPeaks.

Variable dtype : R -> R.






End StoredPeaks.

(** With an exact element type the stored loop is the loop in [R]. *)
Lemma band_step_stored_exact (c : config) nb mag_db i ab peaks :
  band_step_stored (fun x => x) c nb mag_db i ab peaks
  = band_step c nb mag_db i ab peaks.
Proof. reflexivity. Qed.





(** ** Binary64 evaluation *)

Lemma exact_arith_monotone : monotone_arith exact_arith.
Proof.
  constructor; cbn.
  - auto.
  - reflexivity.
  - reflexivity.
  - apply pow10_le.
  - apply log10_le.
Qed.

Lemma overshooting_arith_monotone : monotone_arith overshooting_arith.
Proof.
  constructor; cbn.
  - auto.
  - reflexivity.
  - reflexivity.
  - intros x y H. pose proof (pow10_le x y H). lra.
  - apply log10_le.
Qed.

(** Without rounding the binary64 denoiser is the denoiser in [R]. *)
Lemma denoise_fl_exact (enabled : bool) (nb : option (list R)) (alpha : R)
    (i : nat) (b : R) :
  denoise_fl exact_arith enabled nb alpha i b = denoise enabled nb alpha i b.
Proof. reflexivity. Qed.

Lemma round_trip_exact (b : R) : round_trip exact_arith b = Rmax b (-120).
Proof.
  unfold round_trip. cbn [rnd arith_pow10 arith_log10 exact_arith].
  destruct (Rle_dec (-120) b) as [Hb|Hb].
  - rewrite (Rmax_left b) by exact Hb.
    rewrite Rmax_left.
    + rewrite log10_pow10. lra.
    + rewrite <- pow10_m12. apply pow10_le. lra.
  - rewrite (Rmax_right b) by lra.
    rewrite Rmax_right.
    + apply log10_1em12.
    + rewrite <- pow10_m12. apply pow10_le. lra.
Qed.

Section ZeroStrength.

Variable F : arith.
Hypothesis F_monotone : monotone_arith F.

(** At strength 0 the subtraction removes nothing, in binary64 too: the
    result is the gate applied to the round trip of [b]. *)
Lemma denoise_fl_zero_strength (prof : list R) (i : nat) (n b : R) :
  nth_error prof i = Some n ->
  denoise_fl F true (Some prof) 0 i b
  = Ok (if Rlt_dec (round_trip F b) (gate_level F n) then -120
        else round_trip F b).
Proof.
  intros Hn. unfold denoise_fl. apply index_Ok in Hn. rewrite Hn. cbn [bind].
  rewrite Rmult_0_l, (rnd_zero F F_monotone), Rminus_0_r.
  rewrite (rnd_pow10 F F_monotone), py_max_Rmax.
  unfold math_log10_fl.
  destruct (Rlt_dec 0 (Rmax (arith_pow10 F (rnd F (b / 10))) 1e-12))
    as [_|Hneg].
  - cbn [bind]. unfold Rlt_b. fold (round_trip F b). fold (gate_level F n).
    destruct (Rlt_dec (round_trip F b) (gate_level F n)); reflexivity.
  - exfalso. apply Hneg.
    apply Rlt_le_trans with 1e-12; [lra | apply Rmax_r].
Qed.

End ZeroStrength.

(** C8, amended.  Under binary64 evaluation, with strength 0 the denoiser
    returns the gate applied to the round trip of [b] through the power
    domain.  Let [eps] bound the error of that round trip against
    [max(b, -120)].  Then a band that is at least -120 dB and at least
    [eps] above the gate comes out within [eps] of [b]; a band more than
    [eps] below the gate comes out at -120 dB; within [eps] of the gate
    either happens. *)
Theorem C8_zero_strength_within_tolerance :
  forall (F : arith) (prof : list R) (i : nat) (n b eps : R),
    monotone_arith F ->
    nth_error prof i = Some n ->
    Rabs (round_trip F b - Rmax b (-120)) <= eps ->
    denoise_fl F true (Some prof) 0 i b
    = Ok (if Rlt_dec (round_trip F b) (gate_level F n) then -120
          else round_trip F b)
    /\ (-120 <= b -> gate_level F n + eps <= b ->
        exists v, denoise_fl F true (Some prof) 0 i b = Ok v
                  /\ Rabs (v - b) <= eps)
    /\ (Rmax b (-120) < gate_level F n - eps ->
        denoise_fl F true (Some prof) 0 i b = Ok (-120)).
Proof.
  intros F prof i n b eps HF Hn Herr.
  rewrite (denoise_fl_zero_strength F HF prof i n b Hn).
  assert (Hb : Rmax b (-120) - eps <= round_trip F b
               /\ round_trip F b <= Rmax b (-120) + eps).
  { revert Herr. unfold Rabs. destruct (Rcase_abs _); lra. }
  split; [reflexivity|]. split.
  - intros Hlow Hgate. rewrite Rmax_left in Herr, Hb by exact Hlow.
    exists (round_trip F b). split; [|exact Herr].
    destruct (Rlt_dec (round_trip F b) (gate_level F n)); [lra | reflexivity].
  - intros Hbelow.
    destruct (Rlt_dec (round_trip F b) (gate_level F n)); [reflexivity | lra].
Qed.

(** The round trip of 0 dB under the overshooting power: off by less than
    [1e-10] dB. *)
Lemma round_trip_overshooting :
  Rabs (round_trip overshooting_arith 0 - Rmax 0 (-120)) <= 1e-10.
Proof.
  unfold round_trip. cbn [rnd arith_pow10 arith_log10 overshooting_arith].
  replace (0 / 10) with 0 by lra.
  assert (E : pow10 0 = 1) by (unfold pow10; apply Rpower_O; lra).
  rewrite E, (Rmax_left (1 + 1e-11)), (Rmax_left 0) by lra.
  assert (Hlo : 0 < ln (1 + 1e-11))
    by (rewrite <- ln_1; apply ln_increasing; lra).
  assert (Hhi : ln (1 + 1e-11) < 1e-11).
  { rewrite <- (ln_exp 1e-11) at 2.
    apply ln_increasing; [lra | apply exp_ineq1; lra]. }
  assert (H10 : 1 < ln 10).
  { rewrite <- (ln_exp 1). apply ln_increasing; [apply exp_pos|].
    pose proof exp_le_3. lra. }
  assert (Hq : 0 < ln (1 + 1e-11) / ln 10 < 1e-11).
  { pose proof (Rinv_0_lt_compat (ln 10) ltac:(lra)) as Hi.
    assert (/ ln 10 < 1).
    { rewrite <- Rinv_1. apply Rinv_lt_contravar; lra. }
    unfold Rdiv. split; nra. }
  unfold log10. apply Rabs_le. lra.
Qed.

Lemma C8_zero_strength_within_tolerance_witness :
  exists v, denoise_fl overshooting_arith true (Some [-60]) 0 0 0 = Ok v
            /\ Rabs (v - 0) <= 1e-10.
Proof.
  refine (proj1 (proj2 (C8_zero_strength_within_tolerance overshooting_arith
                          [-60] 0 (-60) 0 1e-10 overshooting_arith_monotone
                          eq_refl round_trip_overshooting)) _ _).
  - lra.
  - unfold gate_level, denoise_gate_margin_db. cbn. lra.
Defined.

(** ** The band plan in binary64 *)

Lemma rnd_nonneg (F : arith) (x : R) :
  monotone_arith F -> 0 <= x -> 0 <= rnd F x.
Proof.
  intros HF Hx. rewrite <- (rnd_zero F HF). apply (rnd_mono F HF). exact Hx.
Qed.

Section BandPlanFl.

Variable F : arith.
Hypothesis F_monotone : monotone_arith F.

Variables sr nfft : Z.
Hypothesis sr_pos : (0 < sr)%Z.
Hypothesis nfft_pos : (0 < nfft)%Z.

(** The product [n * d] of [rfftfreq] has not underflowed to zero, so the
    division by it does not raise. *)
Hypothesis spacing_ok : rnd F (IZR nfft * rnd F (1 / IZR sr)) <> 0.

Lemma computed_divisor_pos : 0 < rnd F (IZR nfft * rnd F (1 / IZR sr)).
Proof.
  assert (H1 : 0 < IZR sr) by (apply IZR_lt; exact sr_pos).
  assert (H2 : 0 < IZR nfft) by (apply IZR_lt; exact nfft_pos).
  assert (H3 : 0 <= rnd F (1 / IZR sr)).
  { apply rnd_nonneg; [exact F_monotone|].
    apply Rlt_le, Rdiv_lt_0_compat; lra. }
  assert (H4 : 0 <= rnd F (IZR nfft * rnd F (1 / IZR sr))).
  { apply rnd_nonneg; [exact F_monotone|]. apply Rmult_le_pos; lra. }
  lra.
Qed.

Lemma computed_step_nonneg :
  0 <= rnd F (1 / rnd F (IZR nfft * rnd F (1 / IZR sr))).
Proof.
  pose proof computed_divisor_pos as H.
  apply rnd_nonneg; [exact F_monotone|].
  apply Rlt_le, Rdiv_lt_0_compat; lra.
Qed.

Lemma computed_freq_mono (k k' : nat) :
  (k <= k')%nat -> computed_freq F sr nfft k <= computed_freq F sr nfft k'.
Proof.
  intros Hk. unfold computed_freq. apply (rnd_mono F F_monotone).
  pose proof computed_step_nonneg as Hv. apply le_INR in Hk.
  apply Rmult_le_compat_r; lra.
Qed.

Lemma computed_freq_lt_inv (k k' : nat) :
  computed_freq F sr nfft k < computed_freq F sr nfft k' -> (k < k')%nat.
Proof.
  intros Hlt.
  destruct (Nat.lt_ge_cases k k') as [|Hge]; [assumption|].
  pose proof (computed_freq_mono k' k Hge). lra.
Qed.

Lemma build_band_bins_fl_Ok (n_bands : nat) (fmin fmax : R) :
  0 < fmin -> 0 < fmax ->
  build_band_bins_fl F sr nfft n_bands fmin fmax
  = Ok (map (band_range
               (map (computed_freq F sr nfft) (seq 0 (rfft_len nfft)))
               (np_logspace_fl F (arith_log10 F fmin) (arith_log10 F fmax)
                               (n_bands + 1)))
            (seq 0 n_bands)).
Proof.
  intros Hmin Hmax.
  assert (H1 : 0 < IZR sr) by (apply IZR_lt; exact sr_pos).
  unfold build_band_bins_fl, rfftfreq_fl, py_div_fl, math_log10_fl.
  destruct (Req_dec_T (IZR sr) 0) as [E|_]; [lra|]. cbn [bind].
  destruct (Req_dec_T (rnd F (IZR nfft * rnd F (1 / IZR sr))) 0) as [E|_];
    [contradiction|]. cbn [bind].
  destruct (Rlt_dec 0 fmin) as [_|N]; [|contradiction].
  destruct (Rlt_dec 0 fmax) as [_|N]; [|contradiction].
  reflexivity.
Qed.

(** The edges below the last one do not decrease. *)
Lemma computed_edge_mono (n_bands : nat) (fmin fmax : R) (i j : nat) :
  0 < fmin -> fmin <= fmax -> (i <= j)%nat -> (j < n_bands)%nat ->
  computed_edge F fmin fmax n_bands i <= computed_edge F fmin fmax n_bands j.
Proof.
  intros Hmin Hle Hij Hj.
  unfold computed_edge, np_logspace_fl, np_linspace_fl.
  rewrite map_map, !nth_map_seq by lia.
  replace (n_bands + 1 - 1)%nat with n_bands by lia.
  assert (Ei : (i =? n_bands)%nat = false) by (apply Nat.eqb_neq; lia).
  assert (Ej : (j =? n_bands)%nat = false) by (apply Nat.eqb_neq; lia).
  assert (En : (n_bands + 1 <=? 1)%nat = false) by (apply Nat.leb_gt; lia).
  rewrite Ei, Ej, En, !andb_false_r.
  set (start := arith_log10 F fmin). set (stop := arith_log10 F fmax).
  assert (Hss : start <= stop)
    by (apply (log10_mono F F_monotone); assumption).
  assert (Hdelta : 0 <= rnd F (stop - start))
    by (apply rnd_nonneg; [exact F_monotone | lra]).
  assert (Hn : 0 < INR n_bands) by (apply lt_0_INR; lia).
  assert (Hin : 0 < / INR n_bands) by (apply Rinv_0_lt_compat; exact Hn).
  assert (Hstep : 0 <= rnd F (rnd F (stop - start) / INR n_bands)).
  { apply rnd_nonneg; [exact F_monotone|]. unfold Rdiv. nra. }
  assert (HI : INR i <= INR j) by (apply le_INR; exact Hij).
  assert (Hi0 : 0 <= INR i) by apply pos_INR.
  apply (pow10_mono F F_monotone), (rnd_mono F F_monotone).
  apply Rplus_le_compat_r.
  destruct (Req_dec_T (rnd F (rnd F (stop - start) / INR n_bands)) 0).
  - apply (rnd_mono F F_monotone). apply Rmult_le_compat_r; [exact Hdelta|].
    apply (rnd_mono F F_monotone). unfold Rdiv.
    apply Rmult_le_compat_r; lra.
  - apply (rnd_mono F F_monotone). apply Rmult_le_compat_r; lra.
Qed.

(** The plan in terms of the computed frequencies and edges. *)
Lemma band_plan_fl_spec (n_bands : nat) (fmin fmax : R) :
  0 < fmin -> 0 < fmax ->
  exists bins,
    build_band_bins_fl F sr nfft n_bands fmin fmax = Ok bins
    /\ length bins = n_bands
    /\ forall i, (i < n_bands)%nat ->
         (forall k, in_band (nth i bins (0%nat, 0%nat)) k <->
                    (k < rfft_len nfft)%nat
                    /\ computed_edge F fmin fmax n_bands i
                       <= computed_freq F sr nfft k
                       < computed_edge F fmin fmax n_bands (i + 1))
         /\ ((forall k, (k < rfft_len nfft)%nat ->
                ~ (computed_edge F fmin fmax n_bands i
                   <= computed_freq F sr nfft k
                   < computed_edge F fmin fmax n_bands (i + 1))) ->
             nth i bins (0%nat, 0%nat) = (0%nat, 0%nat)).
Proof.
  intros Hmin Hmax.
  eexists. split; [apply build_band_bins_fl_Ok; assumption|].
  split; [rewrite length_map, length_seq; reflexivity|].
  intros i Hi. rewrite nth_map_seq by exact Hi.
  exact (band_range_spec (computed_freq F sr nfft) (rfft_len nfft) _ i
           computed_freq_mono).
Qed.

End BandPlanFl.

(** Without rounding the computed frequencies and edges are the ideal
    ones. *)
Lemma computed_freq_exact (sr nfft : Z) (k : nat) :
  sr <> 0%Z -> nfft <> 0%Z ->
  computed_freq exact_arith sr nfft k = bin_freq sr nfft k.
Proof.
  intros Hsr Hn.
  assert (H1 : IZR sr <> 0) by (apply not_0_IZR; exact Hsr).
  assert (H2 : IZR nfft <> 0) by (apply not_0_IZR; exact Hn).
  unfold computed_freq, bin_freq. cbn [rnd exact_arith]. field. tauto.
Qed.

Lemma computed_edge_exact (fmin fmax : R) (n i : nat) :
  0 < fmin -> 0 < fmax -> (1 <= n)%nat -> (i <= n)%nat ->
  computed_edge exact_arith fmin fmax n i = spec_edge fmin fmax n i.
Proof.
  intros Hmin Hmax Hn Hi.
  rewrite <- (logspace_edge fmin fmax n i Hmin Hmax Hn Hi).
  unfold computed_edge, np_logspace_fl, np_logspace, np_linspace_fl,
    np_linspace.
  rewrite !map_map, !nth_map_seq by lia.
  cbn [rnd arith_pow10 arith_log10 exact_arith]. f_equal.
  replace (n + 1 - 1)%nat with n by lia.
  assert (En : (n + 1 <=? 1)%nat = false) by (apply Nat.leb_gt; lia).
  assert (E1 : (1 <? n + 1)%nat = true) by (apply Nat.ltb_lt; lia).
  assert (Hn0 : INR n <> 0) by (apply not_0_INR; lia).
  rewrite En, E1. cbn [andb].
  destruct (Nat.eqb_spec i n) as [->|_].
  - field. exact Hn0.
  - destruct (Req_dec_T ((log10 fmax - log10 fmin) / INR n) 0);
      field; exact Hn0.
Qed.

(** With the overshooting power the edge below the last one stays below
    16 kHz and the last one lands above it. *)
Lemma overshooting_edges :
  computed_edge overshooting_arith 80 16000 8 7 <= 16000
  /\ 16000 < computed_edge overshooting_arith 80 16000 8 8.
Proof.
  unfold computed_edge, np_logspace_fl, np_linspace_fl.
  rewrite map_map, !nth_map_seq by lia.
  cbn [rnd arith_pow10 arith_log10 overshooting_arith].
  change (1 <? 8 + 1)%nat with true. change (8 + 1 <=? 1)%nat with false.
  change (7 =? 8 + 1 - 1)%nat with false.
  change (8 =? 8 + 1 - 1)%nat with true. cbn [andb].
  replace (INR (8 + 1 - 1)) with 8 by (simpl; lra).
  replace (INR 7) with 7 by (simpl; lra).
  split; [|rewrite pow10_log10 by lra; lra].
  set (st := (log10 16000 - log10 80) / 8).
  assert (Hln : 1 <= ln 16000 - ln 80).
  { replace 16000 with (80 * 200) by lra.
    rewrite ln_mult by lra.
    assert (1 < ln 200).
    { rewrite <- (ln_exp 1). apply ln_increasing; [apply exp_pos|].
      pose proof exp_le_3. lra. }
    lra. }
  assert (Hst : 1 / 8 <= st * ln 10).
  { unfold st, log10. pose proof ln10_pos.
    replace ((ln 16000 / ln 10 - ln 80 / ln 10) / 8 * ln 10)
      with ((ln 16000 - ln 80) / 8) by (field; lra).
    lra. }
  assert (Hpow : 9 / 8 <= pow10 st).
  { unfold pow10, Rpower. pose proof (exp_ineq1_le (st * ln 10)). lra. }
  assert (Hprod : pow10 (7 * st + log10 80) * pow10 st = 16000).
  { unfold pow10. rewrite <- Rpower_plus. fold (pow10 (7 * st + log10 80 + st)).
    replace (7 * st + log10 80 + st) with (log10 16000)
      by (unfold st; field).
    apply pow10_log10. lra. }
  pose proof (pow10_pos (7 * st + log10 80)) as Hx.
  destruct (Req_dec_T st 0) as [E|_]; [rewrite E, Rmult_0_l in Hst; lra|].
  nra.
Qed.

(** C4 as stated fails: at 32 kHz with a 4096-point transform, bin 2048
    lies at 16 kHz, the upper limit, where the ideal last edge is.  Under
    an evaluation whose power overshoots there, as binary64's does
    ([10.0 ** log10(16000.0)] is 16000.00000000001), the computed last
    edge lands above 16 kHz and the bin belongs to the last band. *)
Lemma C4_counterexample :
  exists bins,
    build_band_bins_fl overshooting_arith 32000 4096 8 80 16000 = Ok bins
    /\ in_band (nth 7 bins (0%nat, 0%nat)) 2048
    /\ bin_freq 32000 4096 2048 = 16000
    /\ spec_edge 80 16000 8 (7 + 1) = 16000
    /\ ~ (bin_freq 32000 4096 2048 < spec_edge 80 16000 8 (7 + 1)).
Proof.
  destruct (band_plan_fl_spec overshooting_arith overshooting_arith_monotone
              32000 4096 ltac:(lia) ltac:(lia) ltac:(cbn; lra) 8 80 16000
              ltac:(lra) ltac:(lra)) as (bins & Hb & _ & Hspec).
  assert (Hf : bin_freq 32000 4096 2048 = 16000).
  { unfold bin_freq. rewrite INR_IZR_INZ.
    change (Z.of_nat 2048) with 2048%Z. lra. }
  assert (He : spec_edge 80 16000 8 (7 + 1) = 16000).
  { unfold spec_edge. replace (INR (7 + 1) / INR 8) with 1 by (simpl; field).
    rewrite Rpower_1 by lra. field. }
  exists bins. split; [exact Hb|]. split; [|split; [exact Hf|]].
  - apply (proj1 (Hspec 7%nat ltac:(lia))). split.
    + unfold rfft_len. change (Z.to_nat (4096 / 2 + 1)) with 2049%nat. lia.
    + assert (Hc : computed_freq overshooting_arith 32000 4096 2048 = 16000).
      { unfold computed_freq. cbn [rnd overshooting_arith].
        rewrite INR_IZR_INZ. change (Z.of_nat 2048) with 2048%Z. field. }
      rewrite Hc. exact overshooting_edges.
  - split; [exact He|]. rewrite Hf, He. lra.
Qed.

(** C4, amended.  For a positive sample rate and transform size and
    [0 < fmin < fmax], under a binary64 evaluation that keeps order and
    does not lose the bin spacing to underflow, [build_band_bins] returns
    one slice range per band; the range of band
    [i] holds exactly the [rfft] bins whose computed frequency lies in
    [[edge i, edge (i+1))], where the edges are the ones [np.logspace]
    computes; a band with no such bin is the empty range [(0, 0)]; the
    bins of a lower band all lie below those of a higher band.  The
    computed edges and frequencies are the ideal
    [fmin * (fmax / fmin)^(i / n_bands)] and [k * sr / nfft] up to
    rounding: if both are within [eps], every bin of band [i] has its
    ideal frequency in [[edge i - 2 eps, edge (i+1) + 2 eps)], and every
    bin with its ideal frequency in [[edge i + 2 eps, edge (i+1) - 2 eps)]
    is in band [i]; a bin nearer to an ideal edge may fall on either
    side. *)
Theorem C4_band_plan_computed_edges :
  forall (F : arith) (sr nfft : Z) (n_bands : nat) (fmin fmax : R),
    monotone_arith F ->
    (0 < sr)%Z -> (0 < nfft)%Z -> 0 < fmin -> fmin < fmax ->
    rnd F (IZR nfft * rnd F (1 / IZR sr)) <> 0 ->
    exists bins,
      build_band_bins_fl F sr nfft n_bands fmin fmax = Ok bins
      /\ length bins = n_bands
      /\ (forall i, (i < n_bands)%nat ->
            let ab := nth i bins (0%nat, 0%nat) in
            let lo := computed_edge F fmin fmax n_bands i in
            let hi := computed_edge F fmin fmax n_bands (i + 1) in
            (forall k, in_band ab k <->
                       (k < rfft_len nfft)%nat
                       /\ lo <= computed_freq F sr nfft k < hi)
            /\ ((forall k, (k < rfft_len nfft)%nat ->
                           ~ (lo <= computed_freq F sr nfft k < hi)) ->
                ab = (0%nat, 0%nat)))
      /\ (forall i j k k',
            (i < j < n_bands)%nat ->
            in_band (nth i bins (0%nat, 0%nat)) k ->
            in_band (nth j bins (0%nat, 0%nat)) k' ->
            (k < k')%nat)
      /\ (forall eps,
            (forall i, (i <= n_bands)%nat ->
               Rabs (computed_edge F fmin fmax n_bands i
                     - spec_edge fmin fmax n_bands i) <= eps) ->
            (forall k, (k < rfft_len nfft)%nat ->
               Rabs (computed_freq F sr nfft k - bin_freq sr nfft k) <= eps) ->
            forall i k, (i < n_bands)%nat ->
              (in_band (nth i bins (0%nat, 0%nat)) k ->
               (k < rfft_len nfft)%nat
               /\ spec_edge fmin fmax n_bands i - 2 * eps
                  <= bin_freq sr nfft k
                  < spec_edge fmin fmax n_bands (i + 1) + 2 * eps)
              /\ ((k < rfft_len nfft)%nat ->
                  spec_edge fmin fmax n_bands i + 2 * eps
                  <= bin_freq sr nfft k
                  < spec_edge fmin fmax n_bands (i + 1) - 2 * eps ->
                  in_band (nth i bins (0%nat, 0%nat)) k)).
Proof.
  intros F sr nfft n_bands fmin fmax HF Hsr Hn Hmin Hlt Hdiv.
  assert (Hmax : 0 < fmax) by lra.
  destruct (band_plan_fl_spec F HF sr nfft Hsr Hn Hdiv n_bands fmin fmax
              Hmin Hmax) as (bins & Hb & Hlen & Hspec).
  exists bins. split; [exact Hb|]. split; [exact Hlen|]. split; [|split].
  - intros i Hi. cbv zeta. apply Hspec. exact Hi.
  - intros i j k k' [Hij Hj] Hk Hk'.
    apply (proj1 (Hspec i ltac:(lia))) in Hk.
    apply (proj1 (Hspec j Hj)) in Hk'.
    apply (computed_freq_lt_inv F HF sr nfft Hsr Hn Hdiv).
    assert (computed_edge F fmin fmax n_bands (i + 1)
            <= computed_edge F fmin fmax n_bands j)
      by (apply computed_edge_mono; (assumption || lra || lia)).
    lra.
  - intros eps Hedge Hfreq i k Hi.
    pose proof (Hedge i ltac:(lia)) as E1.
    pose proof (Hedge (i + 1)%nat ltac:(lia)) as E2.
    destruct (Hspec i Hi) as (Hiff & _).
    split.
    + intros Hk. apply Hiff in Hk. destruct Hk as (HkN & Hk).
      pose proof (Hfreq k HkN) as E3.
      split; [exact HkN|].
      revert E1 E2 E3. unfold Rabs.
      repeat match goal with
             | |- context [Rcase_abs ?u] => destruct (Rcase_abs u)
             end; lra.
    + intros HkN Hk. apply Hiff. split; [exact HkN|].
      pose proof (Hfreq k HkN) as E3.
      revert E1 E2 E3. unfold Rabs.
      repeat match goal with
             | |- context [Rcase_abs ?u] => destruct (Rcase_abs u)
             end; lra.
Qed.

Lemma C4_band_plan_computed_edges_witness :
  exists bins,
    build_band_bins_fl overshooting_arith 32000 4096 8 80 16000 = Ok bins
    /\ length bins = 8%nat
    /\ forall i j k k',
         (i < j < 8)%nat ->
         in_band (nth i bins (0%nat, 0%nat)) k ->
         in_band (nth j bins (0%nat, 0%nat)) k' ->
         (k < k')%nat.
Proof.
  destruct (C4_band_plan_computed_edges overshooting_arith 32000 4096 8 80
              16000 overshooting_arith_monotone ltac:(lia) ltac:(lia)
              ltac:(lra) ltac:(lra) ltac:(cbn; lra))
    as (bins & H1 & H2 & _ & H3 & _).
  exists bins. auto.
Defined.
